(** * GraphCore: the CSR graph engine of [GraphCore.cpp], embedded in Rocq

    The development follows the C++ source function by function.

    - [int] is a 32-bit signed integer, kept as a [Z]; signed overflow is
      undefined behaviour in C++ and is an explicit outcome here.
    - [std::vector<int>] is a [list Z]; [operator[]] outside the vector is
      undefined behaviour, and a size that does not fit (a negative [int]
      converted to [size_t]) makes the allocation throw.
    - [std::ifstream] is a buffer with a read position and the two state
      bits the program can observe ([eofbit], [failbit]).
    - the file system is a finite map from paths to file contents, with
      the set of paths that cannot be opened for writing.

    Memory is assumed to suffice for every vector whose size is a
    non-negative [int]; output to [std::cout] and [std::cerr] is left out. *)

From Stdlib Require Import ZArith Ascii String List Lia.
From stdpp Require Import base list gmap strings.

Local Open Scope Z_scope.

(** ** Outcomes of a C++ computation *)

Inductive outcome (A : Type) : Type :=
| Ok (a : A)      (* the call returns *)
| Undefined       (* undefined behaviour: access outside a vector, signed overflow *)
| Thrown          (* an exception (std::length_error) leaves the call *)
| OutOfFuel.        (* the fuel of a modelled [while] loop ran out *)

Arguments Ok {A} a.
Arguments Undefined {A}.
Arguments Thrown {A}.
Arguments OutOfFuel {A}.

Definition bind {A B : Type} (m : outcome A) (k : A -> outcome B) : outcome B :=
  match m with
  | Ok a => k a
  | Undefined => Undefined
  | Thrown => Thrown
  | OutOfFuel => OutOfFuel
  end.

Notation "'let*' x ':=' m 'in' k" := (bind m (fun x => k))
  (at level 10, x name, m at level 100, k at level 200).
Notation "'let*' ' pat ':=' m 'in' k" := (bind m (fun x => match x with pat => k end))
  (at level 10, pat pattern, m at level 100, k at level 200).

(** A [for] loop whose index (or element) runs over a fixed list. *)
Fixpoint for_each {S A : Type} (body : S -> A -> outcome S) (l : list A) (s : S)
  : outcome S :=
  match l with
  | [] => Ok s
  | a :: l' => let* s' := body s a in for_each body l' s'
  end.

(** ** The type [int] *)

Definition INT_MAX : Z := 2147483647.
Definition INT_MIN : Z := -2147483648.

Definition is_int (z : Z) : bool := (INT_MIN <=? z) && (z <=? INT_MAX).

Definition int_add (a b : Z) : outcome Z :=
  if is_int (a + b) then Ok (a + b) else Undefined.

Definition int_sub (a b : Z) : outcome Z :=
  if is_int (a - b) then Ok (a - b) else Undefined.

(** ** [std::vector<int>] *)

(** [v[i]] as an rvalue. *)
Definition vec_at (v : list Z) (i : Z) : outcome Z :=
  if 0 <=? i then
    match v !! Z.to_nat i with
    | Some x => Ok x
    | None => Undefined
    end
  else Undefined.

(** [v[i] = x]. *)
Definition vec_store (v : list Z) (i x : Z) : outcome (list Z) :=
  if (0 <=? i) && (i <? Z.of_nat (length v))
  then Ok (<[Z.to_nat i := x]> v)
  else Undefined.

(** [std::vector<int> v(n, x)] and [v.assign(n, x)] with an [int] n: the
    size parameter is a [size_t], so a negative [n] becomes a size above
    [max_size()] and the call throws. *)
Definition vec_new (n x : Z) : outcome (list Z) :=
  if n <? 0 then Thrown else Ok (replicate (Z.to_nat n) x).

(** [v.resize(n)]: keeps the first [n] elements, appends zeros. *)
Definition vec_resize (v : list Z) (n : Z) : outcome (list Z) :=
  if n <? 0 then Thrown
  else Ok (take (Z.to_nat n) v ++ replicate (Z.to_nat n - length v)%nat 0).

(** ** The class [GrafoDisperso] *)

Record GrafoDisperso : Type := mkGrafo {
  row_ptr : list Z;
  col_indices : list Z;
  num_nodos : Z;
  num_aristas : Z
}.

(** [GrafoDisperso::GrafoDisperso()]. *)
Definition GrafoDisperso_new : GrafoDisperso :=
  {| row_ptr := []; col_indices := []; num_nodos := 0; num_aristas := 0 |}.

(** Methods take the object and return their value with the object. *)
Definition method (A : Type) : Type := GrafoDisperso -> outcome (A * GrafoDisperso).

Definition getNumNodos : method Z := fun g => Ok (num_nodos g, g).
Definition getNumAristas : method Z := fun g => Ok (num_aristas g, g).

(** *** [obtenerNodoCritico] *)

(** Body of the loop; the state is [(max_d, id)].  The index [i] is below
    the [int] [num_nodos], so [i + 1] does not overflow. *)
Definition critico_body (g : GrafoDisperso) (st : Z * Z) (i : Z) : outcome (Z * Z) :=
  let* hi := vec_at (row_ptr g) (i + 1) in
  let* lo := vec_at (row_ptr g) i in
  let* d := int_sub hi lo in
  Ok (if d >? fst st then (d, i) else st).

Definition obtenerNodoCritico : method Z := fun g =>
  let* st := for_each (critico_body g) (seqZ 0 (num_nodos g)) (-1, -1) in
  Ok (snd st, g).

(** *** [bfs] *)

Record bfs_state : Type := mkBfs {
  vis : list Z;          (* std::vector<int> vis *)
  q : list Z;            (* std::queue<int> q, front first *)
  res : list (Z * Z)     (* std::vector<std::pair<int,int>> res *)
}.

(** Body of the inner [for] loop, at position [i] of [col_indices]. *)
Definition bfs_visit (g : GrafoDisperso) (u : Z) (st : bfs_state) (i : Z)
  : outcome bfs_state :=
  let* v := vec_at (col_indices g) i in
  let res' := res st ++ [(u, v)] in
  let* lv := vec_at (vis st) v in
  if lv =? -1 then
    let* lu := vec_at (vis st) u in
    let* l := int_add lu 1 in
    let* vis' := vec_store (vis st) v l in
    Ok {| vis := vis'; q := q st ++ [v]; res := res' |}
  else Ok {| vis := vis st; q := q st; res := res' |}.

(** The [while (!q.empty())] loop.  [u] has just indexed [vis], whose size
    is an [int]: [u + 1] does not overflow.  The inner [for] runs [i] from
    [row_ptr[u]] up to [row_ptr[u+1]], which the loop does not change. *)
Fixpoint bfs_loop (fuel : nat) (g : GrafoDisperso) (depth : Z) (st : bfs_state)
  {struct fuel} : outcome bfs_state :=
  match q st with
  | [] => Ok st
  | u :: q' =>
    match fuel with
    | O => OutOfFuel
    | S fuel' =>
      let st1 := {| vis := vis st; q := q'; res := res st |} in
      let* lu := vec_at (vis st1) u in
      if lu >=? depth then bfs_loop fuel' g depth st1
      else
        let* lo := vec_at (row_ptr g) u in
        let* hi := vec_at (row_ptr g) (u + 1) in
        let* st2 := for_each (bfs_visit g u) (seqZ lo (hi - lo)) st1 in
        bfs_loop fuel' g depth st2
    end
  end.

Definition bfs (startNode depth : Z) : method (list (Z * Z)) := fun g =>
  if startNode >=? num_nodos g then Ok ([], g)
  else
    let* vis0 := vec_new (num_nodos g) (-1) in
    let* vis1 := vec_store vis0 startNode 0 in
    let* st := bfs_loop (S (length vis0)) g depth
                 {| vis := vis1; q := [startNode]; res := [] |} in
    Ok (res st, g).

(** ** [std::ifstream]

    The text and the cache are read through the same stream class.  The
    model keeps the whole file, the read position and the state bits;
    [badbit] is never set by the operations used here. *)

Record istream : Type := mkStream {
  buf : list ascii;
  pos : nat;
  eofbit : bool;
  failbit : bool
}.

Definition open_stream (data : list ascii) : istream :=
  {| buf := data; pos := 0; eofbit := false; failbit := false |}.

Definition good (s : istream) : bool := negb (eofbit s) && negb (failbit s).
Definition rest (s : istream) : list ascii := drop (pos s) (buf s).

Definition advance (n : nat) (s : istream) : istream :=
  {| buf := buf s; pos := (pos s + n)%nat; eofbit := eofbit s; failbit := failbit s |}.
Definition set_eof (s : istream) : istream :=
  {| buf := buf s; pos := pos s; eofbit := true; failbit := failbit s |}.
Definition set_fail (s : istream) : istream :=
  {| buf := buf s; pos := pos s; eofbit := eofbit s; failbit := true |}.
(** [file.clear()]. *)
Definition clear (s : istream) : istream :=
  {| buf := buf s; pos := pos s; eofbit := false; failbit := false |}.

(** Sets [eofbit] when the read position reached the end of the file. *)
Definition mark_eof (s : istream) : istream :=
  match rest s with
  | [] => set_eof s
  | _ :: _ => s
  end.

(** Length of the longest prefix whose characters satisfy [p]. *)
Fixpoint span (p : ascii -> bool) (l : list ascii) : nat :=
  match l with
  | [] => O
  | c :: l' => if p c then S (span p l') else O
  end.

Definition LF : ascii := ascii_of_nat 10.
Definition HASH : ascii := ascii_of_nat 35.
Definition PLUS : ascii := ascii_of_nat 43.
Definition MINUS : ascii := ascii_of_nat 45.

(** [std::isspace] in the "C" locale. *)
Definition isspace (c : ascii) : bool :=
  let n := nat_of_ascii c in
  (n =? 32)%nat || ((9 <=? n)%nat && (n <=? 13)%nat).

Definition isdigit (c : ascii) : bool :=
  let n := nat_of_ascii c in (48 <=? n)%nat && (n <=? 57)%nat.

Definition digit_value (c : ascii) : Z := Z.of_nat (nat_of_ascii c) - 48.

Definition digits_value (ds : list ascii) : Z :=
  fold_left (fun acc c => 10 * acc + digit_value c) ds 0.

(** [file >> std::ws]: an unformatted input function; its sentry sets
    [failbit] on a stream that is not good, otherwise white space is
    discarded and reaching the end sets [eofbit] alone. *)
Definition ws (s : istream) : istream :=
  if good s then mark_eof (advance (span isspace (rest s)) s)
  else set_fail s.

(** [file.peek()]. *)
Definition peek (s : istream) : istream * option ascii :=
  if good s then
    match rest s with
    | c :: _ => (s, Some c)
    | [] => (set_eof s, None)
    end
  else (set_fail s, None).

(** [std::getline(file, line)]; the program never reads [line]. *)
Definition getline (s : istream) : istream :=
  if good s then
    let n := span (fun c => negb (Ascii.eqb c LF)) (rest s) in
    match drop n (rest s) with
    | _ :: _ => advance (S n) s
    | [] =>
      let s' := set_eof (advance n s) in
      match n with O => set_fail s' | S _ => s' end
    end
  else set_fail s.

(** [file.tellg()]: [None] is [pos_type(-1)]. *)
Definition tellg (s : istream) : istream * option nat :=
  if good s then (s, Some (pos s)) else (set_fail s, None).

(** [file.seekg(start)]. *)
Definition seekg (s : istream) (start : option nat) : istream :=
  let s := {| buf := buf s; pos := pos s; eofbit := false; failbit := failbit s |} in
  if failbit s then s
  else
    match start with
    | Some p => {| buf := buf s; pos := p; eofbit := false; failbit := false |}
    | None => set_fail s
    end.

(** [std::num_get] for [int] in base 10: an optional sign, then digits.
    No digit, or a value outside [int], sets [failbit]. *)
Definition num_get (s : istream) : istream * option Z :=
  let '(neg, s1) :=
    match rest s with
    | c :: _ =>
      if Ascii.eqb c MINUS then (true, advance 1 s)
      else if Ascii.eqb c PLUS then (false, advance 1 s)
      else (false, s)
    | [] => (false, s)
    end in
  let n := span isdigit (rest s1) in
  let ds := take n (rest s1) in
  let s2 := mark_eof (advance n s1) in
  match ds with
  | [] => (set_fail s2, None)
  | _ :: _ =>
    let z := if neg then - digits_value ds else digits_value ds in
    if is_int z then (s2, Some z) else (set_fail s2, None)
  end.

(** [file >> x] for an [int x]: the sentry skips white space and fails at
    the end of the file. *)
Definition extract_int (s : istream) : istream * option Z :=
  if good s then
    let s1 := advance (span isspace (rest s)) s in
    match rest s1 with
    | [] => (set_fail (set_eof s1), None)
    | _ :: _ => num_get s1
    end
  else (set_fail s, None).

(** The condition [file >> u >> v]; [Some (u, v)] when it is true. *)
Definition extract_pair (s : istream) : istream * option (Z * Z) :=
  let '(s1, ou) := extract_int s in
  let '(s2, ov) := extract_int s1 in
  (s2, match ou, ov with
       | Some u, Some v => Some (u, v)
       | _, _ => None
       end).

(** [while (file >> u >> v) body]. *)
Fixpoint while_extract {S : Type} (body : S -> Z * Z -> outcome S)
    (fuel : nat) (file : istream) (st : S) : outcome (istream * S) :=
  match fuel with
  | O => OutOfFuel
  | S fuel' =>
    match extract_pair file with
    | (file', None) => Ok (file', st)
    | (file', Some e) =>
      let* st' := body st e in
      while_extract body fuel' file' st'
    end
  end.

(** [while (file >> std::ws && file.peek() == '#') std::getline(file, line);] *)
Fixpoint skip_comments (fuel : nat) (file : istream) : outcome istream :=
  match fuel with
  | O => OutOfFuel
  | S fuel' =>
    let file1 := ws file in
    if failbit file1 then Ok file1
    else
      match peek file1 with
      | (file2, Some c) =>
        if Ascii.eqb c HASH then skip_comments fuel' (getline file2) else Ok file2
      | (file2, None) => Ok file2
      end
  end.

(** [in.read(p, n)]: the bytes obtained; fewer than [n] sets both bits. *)
Definition read (n : nat) (s : istream) : istream * list ascii :=
  if good s then
    let got := take n (rest s) in
    let s' := advance (length got) s in
    if (length got <? n)%nat then (set_fail (set_eof s'), got) else (s', got)
  else (set_fail s, []).

(** ** Objects as bytes: [int] is four bytes, least significant first *)

Definition byte_of (z : Z) : ascii := ascii_of_N (Z.to_N (z mod 256)).
Definition byte_val (c : ascii) : Z := Z.of_N (N_of_ascii c).

Definition int_bytes (z : Z) : list ascii :=
  [byte_of z; byte_of (z / 256); byte_of (z / 65536); byte_of (z / 16777216)].

Definition int_of_bytes (b : list ascii) : Z :=
  let w := fold_right (fun c acc => byte_val c + 256 * acc) 0 (take 4 b) in
  if w >=? 2147483648 then w - 4294967296 else w.

Definition vec_bytes (v : list Z) : list ascii := concat (map int_bytes v).

Fixpoint vec_of_bytes (n : nat) (b : list ascii) : list Z :=
  match n with
  | O => []
  | S n' => int_of_bytes b :: vec_of_bytes n' (drop 4 b)
  end.

(** Storing the bytes [got] at the start of an object whose bytes were
    [old]: a short read leaves the tail of the object as it was. *)
Definition overlay (got old : list ascii) : list ascii :=
  got ++ drop (length got) old.

(** ** The file system *)

Record disk : Type := mkDisk {
  files : gmap string (list ascii);   (* the files that can be opened for reading *)
  locked : gset string                (* paths that cannot be opened for writing *)
}.

Definition fileExists (fs : disk) (name : string) : bool :=
  match files fs !! name with
  | Some _ => true
  | None => false
  end.

(** ** Loading *)

(** The four [out.write] calls of [guardarCache], in order. *)
Definition cache_image (g : GrafoDisperso) : list ascii :=
  int_bytes (num_nodos g) ++ int_bytes (num_aristas g)
  ++ vec_bytes (row_ptr g) ++ vec_bytes (col_indices g).

Definition guardarCache (cacheFile : string) (fs : disk) (g : GrafoDisperso)
  : bool * disk :=
  if decide (cacheFile ∈ locked fs) then (false, fs)
  else (true, {| files := <[cacheFile := cache_image g]> (files fs);
                 locked := locked fs |}).

Definition cargarDesdeCache (cacheFile : string) (fs : disk) (g : GrafoDisperso)
  : outcome (bool * GrafoDisperso) :=
  match files fs !! cacheFile with
  | None => Ok (false, g)
  | Some data =>
    let in0 := open_stream data in
    let '(in1, b1) := read 4 in0 in
    let nn := int_of_bytes (overlay b1 (int_bytes (num_nodos g))) in
    let '(in2, b2) := read 4 in1 in
    let na := int_of_bytes (overlay b2 (int_bytes (num_aristas g))) in
    let* n1 := int_add nn 1 in
    let* rp := vec_resize (row_ptr g) n1 in
    let* ci := vec_resize (col_indices g) na in
    let '(in3, b3) := read (length rp * 4) in2 in
    let rp' := vec_of_bytes (length rp) (overlay b3 (vec_bytes rp)) in
    let '(in4, b4) := read (length ci * 4) in3 in
    let ci' := vec_of_bytes (length ci) (overlay b4 (vec_bytes ci)) in
    Ok (good in4,
        {| row_ptr := rp'; col_indices := ci'; num_nodos := nn; num_aristas := na |})
  end.

(** Pasada 1: the state is [(max_id, num_aristas)]. *)
Definition pasada1 (st : Z * Z) (e : Z * Z) : outcome (Z * Z) :=
  let '(max_id, na) := st in
  let '(u, v) := e in
  let max_id := if u >? max_id then u else max_id in
  let max_id := if v >? max_id then v else max_id in
  let* na' := int_add na 1 in
  Ok (max_id, na').

(** Pasada 2: [counts[u]++]. *)
Definition pasada2 (counts : list Z) (e : Z * Z) : outcome (list Z) :=
  let* c := vec_at counts (fst e) in
  let* c' := int_add c 1 in
  vec_store counts (fst e) c'.

(** [row_ptr[i+1] = row_ptr[i] + counts[i]]. *)
Definition suma_prefija (counts : list Z) (rp : list Z) (i : Z) : outcome (list Z) :=
  let* a := vec_at rp i in
  let* c := vec_at counts i in
  let* s := int_add a c in
  vec_store rp (i + 1) s.

(** Pasada 3: the state is [(current, col_indices)]. *)
Definition pasada3 (st : list Z * list Z) (e : Z * Z) : outcome (list Z * list Z) :=
  let '(current, ci) := st in
  let '(u, v) := e in
  let* k := vec_at current u in
  let* ci' := vec_store ci k v in
  let* k' := int_add k 1 in
  let* current' := vec_store current u k' in
  Ok (current', ci').

(** The text branch of [cargarDatos], from the open [file] on. *)
Definition construir (file : istream) (g : GrafoDisperso) : outcome GrafoDisperso :=
  let fuel := S (length (buf file)) in
  let* file := skip_comments fuel file in
  let '(file, start) := tellg file in
  let* '(file, (max_id, na)) := while_extract pasada1 fuel file (0, num_aristas g) in
  let* nn := int_add max_id 1 in
  let* n1 := int_add nn 1 in
  let* rp := vec_new n1 0 in
  let* ci := vec_resize (col_indices g) na in
  let file := seekg (clear file) start in
  let* counts := vec_new nn 0 in
  let* '(file, counts) := while_extract pasada2 fuel file counts in
  let* rp := vec_store rp 0 0 in
  let* rp := for_each (suma_prefija counts) (seqZ 0 nn) rp in
  let file := seekg (clear file) start in
  let* '(file, (current, ci)) := while_extract pasada3 fuel file (rp, ci) in
  Ok {| row_ptr := rp; col_indices := ci; num_nodos := nn; num_aristas := na |}.

Definition cargarDatos (filename : string) (fs : disk) (g : GrafoDisperso)
  : outcome (disk * GrafoDisperso) :=
  let cacheFile := (filename ++ ".bin")%string in
  let* '(hit, g1) :=
    (if fileExists fs cacheFile then cargarDesdeCache cacheFile fs g
     else Ok (false, g)) in
  if hit then Ok (fs, g1)
  else
    match files fs !! filename with
    | None => Ok (fs, g1)
    | Some text =>
      let* g2 := construir (open_stream text) g1 in
      Ok (snd (guardarCache cacheFile fs g2), g2)
    end.

(** ** The edge stream of a text file *)

(** The pairs that the loop [while (file >> u >> v)] goes through. *)
Fixpoint pairs (fuel : nat) (file : istream) : list (Z * Z) :=
  match fuel with
  | O => []
  | S fuel' =>
    match extract_pair file with
    | (file', Some e) => e :: pairs fuel' file'
    | (_, None) => []
    end
  end.

(** The pairs after the leading comment lines of [text]. *)
Definition edge_stream (text : list ascii) : list (Z * Z) :=
  let fuel := S (length text) in
  match skip_comments fuel (open_stream text) with
  | Ok file => pairs fuel (fst (tellg file))
  | _ => []
  end.

(** ** The Python layer: [neuronet.pyx]

    The class [PyGraph] wraps one [GrafoDisperso].  Its methods take
    Python objects: a [str] is given by its code points, an [int] is a
    [Z], a dictionary with string keys is a finite map.  A method returns
    a value or raises a Python exception; undefined behaviour and C++
    exceptions of the engine pass through it. *)

Inductive py_exception : Type := UnicodeEncodeError | OverflowError.

(** What a [def] method hands back: a value or a raised exception. *)
Inductive py_result (A : Type) : Type :=
| Returns (a : A)
| Raises (e : py_exception).

Arguments Returns {A} a.
Arguments Raises {A} e.

(** [cdef class PyGraph]: the object owns the C++ graph it points to. *)
Record PyGraph : Type := mkPyGraph { c_graph : GrafoDisperso }.

(** [__cinit__]. *)
Definition PyGraph_cinit : PyGraph := {| c_graph := GrafoDisperso_new |}.

(** [str.encode('utf-8')] on a string given by its code points: one to
    four bytes for each, and no encoding for a surrogate. *)
Definition utf8_byte (n : N) : ascii := ascii_of_N n.

Definition utf8_char (cp : N) : option (list ascii) :=
  if (cp <? 128)%N then Some [utf8_byte cp]
  else if (cp <? 2048)%N then
    Some [utf8_byte (192 + cp / 64); utf8_byte (128 + cp mod 64)]
  else if (cp <? 65536)%N then
    if (55296 <=? cp)%N && (cp <=? 57343)%N then None
    else Some [utf8_byte (224 + cp / 4096); utf8_byte (128 + (cp / 64) mod 64);
               utf8_byte (128 + cp mod 64)]
  else if (cp <? 1114112)%N then
    Some [utf8_byte (240 + cp / 262144); utf8_byte (128 + (cp / 4096) mod 64);
          utf8_byte (128 + (cp / 64) mod 64); utf8_byte (128 + cp mod 64)]
  else None.

Fixpoint encode_utf8 (s : list N) : option (list ascii) :=
  match s with
  | [] => Some []
  | cp :: s' =>
    match utf8_char cp, encode_utf8 s' with
    | Some b, Some bs => Some (b ++ bs)
    | _, _ => None
    end
  end.

(** [load_data]. *)
Definition load_data (filename : list N) (fs : disk) (self : PyGraph)
  : outcome (py_result unit * disk * PyGraph) :=
  match encode_utf8 filename with
  | None => Ok (Raises UnicodeEncodeError, fs, self)
  | Some cpp_filename =>
    let* '(fs', g) := cargarDatos (string_of_list_ascii cpp_filename) fs (c_graph self) in
    Ok (Returns tt, fs', {| c_graph := g |})
  end.

(** [get_stats]: the values of the dictionary are computed in the order
    in which they are written. *)
Definition get_stats (self : PyGraph) : outcome (gmap string Z * PyGraph) :=
  let* '(nodos, g) := getNumNodos (c_graph self) in
  let* '(aristas, g) := getNumAristas g in
  let* '(critico, g) := obtenerNodoCritico g in
  Ok (<["nodos"%string := nodos]>
        (<["aristas"%string := aristas]> {["critico"%string := critico]}),
      {| c_graph := g |}).

(** A Python [int] passed for a C [int]. *)
Definition as_int (z : Z) : py_result Z :=
  if is_int z then Returns z else Raises OverflowError.

(** [run_bfs]. *)
Definition run_bfs (start_node depth : Z) (self : PyGraph)
  : outcome (py_result (list (Z * Z)) * PyGraph) :=
  match as_int start_node with
  | Raises e => Ok (Raises e, self)
  | Returns startNode =>
    match as_int depth with
    | Raises e => Ok (Raises e, self)
    | Returns d =>
      let* '(result, g) := bfs startNode d (c_graph self) in
      Ok (Returns result, {| c_graph := g |})
    end
  end.

(** ** The CSR invariants, as executable checks *)

Definition nth_Z (l : list Z) (i : Z) : Z := default 0 (l !! Z.to_nat i).

Fixpoint nondecreasing (l : list Z) : bool :=
  match l with
  | a :: l' =>
    match l' with
    | b :: _ => (a <=? b) && nondecreasing l'
    | [] => true
    end
  | [] => true
  end.

(** I1, I3 and the first two parts of P2: [row_ptr] has [num_nodos + 1]
    entries, starts at 0 and does not decrease; its entries are [int]s and
    so is its size. *)
Definition row_ptr_ok (g : GrafoDisperso) : bool :=
  (Z.of_nat (length (row_ptr g)) =? num_nodos g + 1)
  && nondecreasing (row_ptr g)
  && (nth_Z (row_ptr g) 0 =? 0)
  && (nth_Z (row_ptr g) (num_nodos g) <=? INT_MAX)
  && (0 <=? num_nodos g) && (num_nodos g <? INT_MAX).

(** I2, I4 and P3: [col_indices] has [num_aristas = row_ptr[num_nodos]]
    entries, all of them vertices. *)
Definition col_indices_ok (g : GrafoDisperso) : bool :=
  (nth_Z (row_ptr g) (num_nodos g) =? num_aristas g)
  && (Z.of_nat (length (col_indices g)) =? num_aristas g)
  && forallb (fun v => (0 <=? v) && (v <? num_nodos g)) (col_indices g).

Definition csr_ok (g : GrafoDisperso) : bool := row_ptr_ok g && col_indices_ok g.

Definition out_degree (g : GrafoDisperso) (u : Z) : Z :=
  nth_Z (row_ptr g) (u + 1) - nth_Z (row_ptr g) u.

(** * Vocabulary of the proofs *)

(** ** Queries *)

(** The state [(max_d, id)] of [obtenerNodoCritico] after the first [k]
    iterations. *)
Definition critico_inv (g : GrafoDisperso) (k : Z) (st : Z * Z) : Prop :=
  (k = 0 /\ st = (-1, -1)) \/
  (0 <= snd st < k /\ fst st = out_degree g (snd st) /\
   (forall w, 0 <= w < k -> out_degree g w <= fst st) /\
   (forall w, 0 <= w < snd st -> out_degree g w < fst st)).

(** [x] has been given a level. *)
Definition visited (vs : list Z) (x : Z) : Prop :=
  0 <= x /\ exists l, vs !! Z.to_nat x = Some l /\ 0 <= l.

(** [done] are the vertices taken from the queue so far. *)
Definition bfs_inv (done : list Z) (st : bfs_state) : Prop :=
  NoDup (done ++ q st) /\ Forall (visited (vis st)) (done ++ q st).

(** The positions of [col_indices] that belong to vertex [u], and the
    pairs that expanding [u] appends to the result. *)
Definition row_positions (g : GrafoDisperso) (u : Z) : list Z :=
  seqZ (nth_Z (row_ptr g) u) (out_degree g u).

Definition edge_at (g : GrafoDisperso) (u i : Z) : Z * Z := (u, nth_Z (col_indices g) i).

(** The pair emitted for position [i] is an edge stored at [i], in the row
    of its source. *)
Definition emitted_at (g : GrafoDisperso) (i : Z) (e : Z * Z) : Prop :=
  nth_Z (row_ptr g) (fst e) <= i < nth_Z (row_ptr g) (fst e + 1)
  /\ snd e = nth_Z (col_indices g) i.

(** ** Loading *)

Definition int_pair (e : Z * Z) : Prop := is_int (fst e) = true /\ is_int (snd e) = true.

Definition total (l : list Z) : Z := foldr Z.add 0 l.

Definition ints (l : list Z) : Prop := Forall (fun z => is_int z = true) l.

(** The prefix sums: [row_ptr[j]] is the total of the first [j] counters. *)
Definition prefix_inv (counts rp : list Z) (k : nat) : Prop :=
  forall j, (j <= k)%nat -> rp !! j = Some (total (take j counts)).

(** A state whose four fields are [int]s and vectors of [int]s of the
    sizes that [guardarCache] and [cargarDesdeCache] assume. *)
Definition storable (g : GrafoDisperso) : Prop :=
  ints (row_ptr g) /\ ints (col_indices g)
  /\ is_int (num_nodos g) = true /\ is_int (num_nodos g + 1) = true
  /\ is_int (num_aristas g) = true
  /\ Z.of_nat (length (row_ptr g)) = num_nodos g + 1
  /\ Z.of_nat (length (col_indices g)) = num_aristas g.

(** Characters left to read. *)
Definition remaining (s : istream) : nat := length (rest s).

(** The call returns or has undefined behaviour: nothing is thrown and the
    fuel is not used up. *)
Definition benign {A : Type} (r : outcome A) : Prop :=
  match r with
  | Ok _ | Undefined => True
  | Thrown | OutOfFuel => False
  end.

(** ** The builder *)

(** The second components of the pairs whose first component is [u], in
    the order of the stream: the out-neighbours of [u]. *)
Definition targets (u : Z) (es : list (Z * Z)) : list Z :=
  map snd (filter (fun e => fst e = u) es).

Definition occ (u : Z) (es : list (Z * Z)) : Z := Z.of_nat (length (targets u es)).

(** [col_indices[row_ptr[u] .. row_ptr[u+1])]. *)
Definition neighbours (g : GrafoDisperso) (u : Z) : list Z :=
  take (Z.to_nat (out_degree g u)) (drop (Z.to_nat (nth_Z (row_ptr g) u)) (col_indices g)).

(** The largest identifier of a stream, 0 when there is none. *)
Definition max_ident (es : list (Z * Z)) : Z :=
  fold_left (fun m e => Z.max (Z.max m (fst e)) (snd e)) es 0.

(** The state [(current, col_indices)] of Pasada 3 once the pairs [done]
    have been scattered: each cursor stands behind the targets already
    written in its row, and those are in place. *)
Definition scatter_inv (rp : list Z) (nn na : Z) (done : list (Z * Z))
    (st : list Z * list Z) : Prop :=
  Z.of_nat (length (fst st)) = nn + 1
  /\ Z.of_nat (length (snd st)) = na
  /\ (forall u, 0 <= u < nn ->
        fst st !! Z.to_nat u = Some (nth_Z rp u + occ u done))
  /\ (forall u k v, 0 <= u < nn -> targets u done !! k = Some v ->
        snd st !! (Z.to_nat (nth_Z rp u) + k)%nat = Some v).

(** ** Cache files *)

(** The bytes that a cache announcing [nn] vertices and [na] edges holds. *)
Definition cache_size (nn na : Z) : nat :=
  (8 + 4 * Z.to_nat (nn + 1) + 4 * Z.to_nat na)%nat.

(** The state that the bytes of a cache file stand for. *)
Definition decode_cache (data : list ascii) : GrafoDisperso :=
  let nn := int_of_bytes data in
  let na := int_of_bytes (drop 4 data) in
  {| row_ptr := vec_of_bytes (Z.to_nat (nn + 1)) (drop 8 data);
     col_indices := vec_of_bytes (Z.to_nat na) (drop (8 + 4 * Z.to_nat (nn + 1)) data);
     num_nodos := nn;
     num_aristas := na |}.

(** ** Levels of the traversal *)

(** [x] is the end of a walk of [k] stored edges that starts at [s]. *)
Inductive walk (g : GrafoDisperso) (s : Z) : nat -> Z -> Prop :=
| walk_here : walk g s O s
| walk_step (k : nat) (u v : Z) :
    walk g s k u -> 0 <= u < num_nodos g -> v ∈ neighbours g u -> walk g s (S k) v.

(** The queue holds vertices of level [m], then vertices of level [m + 1]. *)
Definition two_levels (vs : list Z) (m : Z) (qs : list Z) : Prop :=
  exists A B, qs = A ++ B
    /\ Forall (fun x => nth_Z vs x = m) A
    /\ Forall (fun x => nth_Z vs x = m + 1) B.

(** The levels while the vertices [done] have left the queue: the queue is
    at levels [m] and [m + 1], what left it is at most at [m], a vertex
    without a level is marked -1, and a level is the length of a walk. *)
Definition levels_inv (g : GrafoDisperso) (s m : Z) (done : list Z) (st : bfs_state)
  : Prop :=
  two_levels (vis st) m (q st)
  /\ Forall (fun x => nth_Z (vis st) x <= m) done
  /\ (forall x, 0 <= x < num_nodos g -> nth_Z (vis st) x = -1 \/ x ∈ done ++ q st)
  /\ Forall (fun x => walk g s (Z.to_nat (nth_Z (vis st) x)) x) (done ++ q st).

(** The neighbours of the vertices of [D] below the depth have a level, at
    most one above that of their source. *)
Definition closed (g : GrafoDisperso) (depth : Z) (vs : list Z) (all D : list Z) : Prop :=
  forall u v, u ∈ D -> nth_Z vs u < depth -> v ∈ neighbours g u ->
  v ∈ all /\ nth_Z vs v <= nth_Z vs u + 1.

(** The state [st'] knows the vertices of [l] as [st] did. *)
Definition keeps (l : list Z) (vs vs' : list Z) : Prop :=
  forall x, x ∈ l -> nth_Z vs' x = nth_Z vs x.

(** The search while the vertices [done] have left the queue, those of
    [ex] having been expanded. *)
Definition search_inv (g : GrafoDisperso) (s depth : Z) (done ex : list Z)
    (st : bfs_state) : Prop :=
  bfs_inv done st
  /\ Z.of_nat (length (vis st)) = num_nodos g
  /\ (exists m, levels_inv g s m done st)
  /\ closed g depth (vis st) (done ++ q st) done
  /\ NoDup ex
  /\ (forall x, x ∈ ex <-> x ∈ done /\ nth_Z (vis st) x < depth)
  /\ res st = ex ≫= (fun u => map (edge_at g u) (row_positions g u)).

(** Both ends of a pair are indices of a vector of length [n]. *)
Definition ends_below (n : nat) (e : Z * Z) : Prop :=
  0 <= fst e < Z.of_nat n /\ 0 <= snd e < Z.of_nat n.

(** ** Texts *)

(** [x] is the end of a walk of [k] pairs of [es] that starts at [s]. *)
Inductive path (es : list (Z * Z)) (s : Z) : nat -> Z -> Prop :=
| path_here : path es s O s
| path_step (k : nat) (u v : Z) :
    path es s k u -> (u, v) ∈ es -> path es s (S k) v.

(** The pairs that a new object loads: no negative first component,
    identifiers that leave room for [num_nodos + 1] in [int], and a
    number of pairs that is an [int]. *)
Definition loadable (es : list (Z * Z)) : Prop :=
  Forall (fun e => 0 <= fst e) es
  /\ Forall (fun e => fst e <= INT_MAX - 2 /\ snd e <= INT_MAX - 2) es
  /\ Z.of_nat (length es) <= INT_MAX.

(** Two streams with the same characters ahead and the same state bits. *)
Definition same_ahead (s s' : istream) : Prop :=
  rest s = rest s' /\ eofbit s = eofbit s' /\ failbit s = failbit s'.

(** *** Pairs written in decimal *)

Definition SPACE : ascii := ascii_of_nat 32.

Definition digit_char (d : Z) : ascii := ascii_of_nat (Z.to_nat (48 + d)).

(** The decimal digits of [n], most significant first, before [acc]. *)
Fixpoint digits_of (fuel : nat) (n : Z) (acc : list ascii) : list ascii :=
  match fuel with
  | O => acc
  | S fuel' =>
    let acc' := digit_char (n mod 10) :: acc in
    if n <? 10 then acc' else digits_of fuel' (n / 10) acc'
  end.

(** An [int] has ten digits at most. *)
Definition render_int (z : Z) : list ascii :=
  if z <? 0 then MINUS :: digits_of 10 (- z) [] else digits_of 10 z [].

(** One pair on a line: the two numbers, a space between them. *)
Definition render_edge (e : Z * Z) : list ascii :=
  render_int (fst e) ++ SPACE :: render_int (snd e) ++ [LF].

Definition render_edges (es : list (Z * Z)) : list ascii := es ≫= render_edge.

(** The stream [s'] stands at [l], with the state bits of [s]. *)
Definition stands_at (s' s : istream) (l : list ascii) : Prop :=
  rest s' = l /\ eofbit s' = eofbit s /\ failbit s' = failbit s.

(** Where the extraction of a number fails: at the end of the text, or at
    a character that is no white space, digit or sign. *)
Definition stops (trailer : list ascii) : Prop :=
  trailer = []
  \/ exists c junk, trailer = c :: junk
       /\ isdigit c = false /\ isspace c = false
       /\ Ascii.eqb c MINUS = false /\ Ascii.eqb c PLUS = false.

(** *** Numbers separated by white space *)

(** A number with the white space before it. *)
Definition render_token (t : list ascii * Z) : list ascii :=
  fst t ++ render_int (snd t).

Definition render_tokens (ts : list (list ascii * Z)) : list ascii := ts ≫= render_token.

(** The numbers of a text two by two; a last single one is left out. *)
Fixpoint pair_up (zs : list Z) : list (Z * Z) :=
  match zs with
  | a :: b :: zs' => (a, b) :: pair_up zs'
  | _ => []
  end.

Definition blank (w : list ascii) : Prop := Forall (fun c => isspace c = true) w.

(** Nothing, or something that begins with white space. *)
Definition starts_blank (l : list ascii) : Prop :=
  l = [] \/ exists c l', l = c :: l' /\ isspace c = true.

(** [int]s after white space, which is there from the second number on. *)
Definition tokens_ok (ts : list (list ascii * Z)) : Prop :=
  Forall (fun t => blank (fst t) /\ is_int (snd t) = true) ts
  /\ Forall (fun t => fst t <> []) (tail ts).

(** ** Sample files and graphs *)

(** A text file given line by line, every line ended by a line feed. *)
Definition text_of_lines (ls : list string) : list ascii :=
  concat (map (fun l => list_ascii_of_string l ++ [LF]) ls).

Definition disk_of (l : list (string * list ascii)) : disk :=
  {| files := list_to_map l; locked := ∅ |}.

Definition chain_txt := text_of_lines ["0 1"; "1 2"; "2 3"; "3 4"].
Definition comment_txt := text_of_lines ["# comment"].
Definition tri_txt := text_of_lines ["0 1"; "1 2"; "2 0"].

(** A new object loads [filename]; the graph it holds afterwards. *)
Definition load_new (filename : string) (fs : disk) : outcome GrafoDisperso :=
  let* r := cargarDatos filename fs GrafoDisperso_new in Ok (snd r).

(** A new object loads [filename] and answers one query. *)
Definition query {A : Type} (filename : string) (fs : disk) (m : method A) : outcome A :=
  let* g := load_new filename fs in
  let* r := m g in Ok (fst r).

Definition tri_graph : GrafoDisperso := mkGrafo [0; 1; 2; 3] [1; 2; 0] 3 3.
Definition tri_disk : disk := disk_of [("tri.txt"%string, tri_txt)].
Definition tri_disk_cached : disk :=
  disk_of [("tri.txt.bin"%string, cache_image tri_graph); ("tri.txt"%string, tri_txt)].

Definition chain_disk : disk := disk_of [("chain.txt"%string, chain_txt)].
Definition comment_disk : disk := disk_of [("empty.txt"%string, comment_txt)].

(** The cache of the triangle alone: the text is gone. *)
Definition tri_cache_only : disk :=
  disk_of [("tri.txt.bin"%string, cache_image tri_graph)].

(** A cache that parses cleanly and holds a decreasing [row_ptr]. *)
Definition odd_graph : GrafoDisperso := mkGrafo [5; 3] [] 1 0.
Definition odd_disk : disk := disk_of [("odd.txt.bin"%string, cache_image odd_graph)].

Definition neg_target_txt := text_of_lines ["0 -1"].
Definition neg_target_disk : disk := disk_of [("neg.txt"%string, neg_target_txt)].
Definition neg_source_txt := text_of_lines ["-1 0"].

(** A cache cut after its two header words, next to a one-edge text. *)
Definition one_edge_txt := text_of_lines ["0 1"].
Definition cut_cache : list ascii := int_bytes 3 ++ int_bytes 3.
Definition one_edge_disk : disk := disk_of [("one.txt"%string, one_edge_txt)].
Definition cut_cache_disk : disk :=
  disk_of [("one.txt.bin"%string, cut_cache); ("one.txt"%string, one_edge_txt)].

(** A graph with two vertices of maximal out-degree. *)
Definition tie_graph : GrafoDisperso := mkGrafo [0; 1; 3; 5; 5] [1; 0; 2; 0; 3] 4 5.

(** What a text without pairs loads as. *)
Definition one_vertex : GrafoDisperso := mkGrafo [0; 0] [] 1 0.

(** The cut cache alone: there is no text next to it. *)
Definition cut_cache_only : disk := disk_of [("one.txt.bin"%string, cut_cache)].

(** A cache whose header announces 3 vertices and -1 edges. *)
Definition neg_cache : list ascii := int_bytes 3 ++ int_bytes (-1).
Definition neg_cache_disk : disk :=
  disk_of [("neg.txt.bin"%string, neg_cache); ("neg.txt"%string, tri_txt)].

(** The pairs of [tri_txt]. *)
Definition tri_edges : list (Z * Z) := [(0, 1); (1, 2); (2, 0)].

(** The code points of the name [tri.txt], and a [PyGraph] that holds the
    triangle. *)
Definition tri_name : list N := [116; 114; 105; 46; 116; 120; 116]%N.
Definition tri_py : PyGraph := {| c_graph := tri_graph |}.

(** * Proofs *)

(** ** Outcomes and loops *)

Lemma bind_Ok {A B : Type} (m : outcome A) (k : A -> outcome B) (b : B) :
  bind m k = Ok b -> exists a, m = Ok a /\ k a = Ok b.
Proof. destruct m; simpl; intros H; try discriminate. eauto. Qed.

Lemma for_each_app {S A : Type} (body : S -> A -> outcome S) (l1 l2 : list A) (s : S) :
  for_each body (l1 ++ l2) s = bind (for_each body l1 s) (for_each body l2).
Proof.
  revert s. induction l1 as [|a l1 IH]; intros s; simpl; [reflexivity|].
  destruct (body s a); simpl; auto.
Qed.

(** Inverts the hypotheses [bind m k = Ok r]. *)
Ltac inv_bind :=
  repeat match goal with
  | H : bind _ _ = Ok _ |- _ =>
    let a := fresh "a" in
    let E := fresh "E" in
    apply bind_Ok in H as (a & E & H)
  end.

(** ** [int] and vectors *)

Lemma is_int_spec (z : Z) : is_int z = true <-> INT_MIN <= z <= INT_MAX.
Proof. unfold is_int. rewrite andb_true_iff, !Z.leb_le. tauto. Qed.

Lemma int_add_Ok (a b r : Z) : int_add a b = Ok r -> r = a + b /\ is_int r = true.
Proof.
  unfold int_add. destruct (is_int (a + b)) eqn:E; intros H; inversion H; subst; auto.
Qed.

Lemma int_add_in (a b : Z) :
  INT_MIN <= a + b <= INT_MAX -> int_add a b = Ok (a + b).
Proof. intros H. unfold int_add. apply is_int_spec in H. now rewrite H. Qed.

Lemma int_sub_in (a b : Z) :
  INT_MIN <= a - b <= INT_MAX -> int_sub a b = Ok (a - b).
Proof. intros H. unfold int_sub. apply is_int_spec in H. now rewrite H. Qed.

Lemma vec_at_Ok (v : list Z) (i x : Z) :
  vec_at v i = Ok x <-> 0 <= i /\ v !! Z.to_nat i = Some x.
Proof.
  unfold vec_at. destruct (Z.leb_spec 0 i).
  - destruct (v !! Z.to_nat i); split; intros H'; try discriminate.
    + inversion H'; subst; auto.
    + destruct H' as [_ H']. inversion H'; subst; auto.
    + destruct H' as [_ H']. discriminate.
  - split; [discriminate | lia].
Qed.

Lemma vec_at_in (v : list Z) (i : Z) :
  0 <= i < Z.of_nat (length v) -> vec_at v i = Ok (nth_Z v i).
Proof.
  intros H. unfold vec_at, nth_Z.
  destruct (Z.leb_spec 0 i); [|lia].
  destruct (lookup_lt_is_Some_2 v (Z.to_nat i)) as [x Hx]; [lia|].
  now rewrite Hx.
Qed.

Lemma vec_at_cases (v : list Z) (i : Z) :
  vec_at v i = Undefined \/ exists x, vec_at v i = Ok x.
Proof. unfold vec_at. destruct (0 <=? i); [destruct (v !! Z.to_nat i)|]; eauto. Qed.

Lemma vec_store_Ok (v : list Z) (i x : Z) (v' : list Z) :
  vec_store v i x = Ok v' ->
  0 <= i < Z.of_nat (length v) /\ v' = <[Z.to_nat i := x]> v.
Proof.
  unfold vec_store.
  destruct (Z.leb_spec 0 i); destruct (Z.ltb_spec i (Z.of_nat (length v))); simpl;
    intros H'; inversion H'; subst; auto.
Qed.

Lemma vec_store_in (v : list Z) (i x : Z) :
  0 <= i < Z.of_nat (length v) -> vec_store v i x = Ok (<[Z.to_nat i := x]> v).
Proof.
  intros H. unfold vec_store.
  destruct (Z.leb_spec 0 i); destruct (Z.ltb_spec i (Z.of_nat (length v))); simpl;
    auto; lia.
Qed.

Lemma vec_store_neg (v : list Z) (i x : Z) : i < 0 -> vec_store v i x = Undefined.
Proof. intros H. unfold vec_store. destruct (Z.leb_spec 0 i); [lia | reflexivity]. Qed.

Lemma vec_new_Ok (n x : Z) (v : list Z) :
  vec_new n x = Ok v -> 0 <= n /\ v = replicate (Z.to_nat n) x.
Proof.
  unfold vec_new. destruct (Z.ltb_spec n 0); intros H'; inversion H'; auto.
Qed.

Lemma nth_Z_lookup (l : list Z) (i : nat) (x : Z) :
  l !! i = Some x -> nth_Z l (Z.of_nat i) = x.
Proof. intros H. unfold nth_Z. now rewrite Nat2Z.id, H. Qed.

(** ** Non-decreasing vectors *)

Lemma nondecreasing_adj (l : list Z) (i : nat) (a b : Z) :
  nondecreasing l = true -> l !! i = Some a -> l !! S i = Some b -> a <= b.
Proof.
  revert i. induction l as [|x l IH]; intros i Hn Hi Hj; [discriminate|].
  destruct l as [|y l]; [discriminate|].
  simpl in Hn. apply andb_true_iff in Hn as [Hxy Hn]. apply Z.leb_le in Hxy.
  destruct i as [|i]; simpl in *.
  - inversion Hi; inversion Hj; subst; auto.
  - eapply IH; eauto.
Qed.

Lemma nondecreasing_le (l : list Z) (i j : nat) (a b : Z) :
  nondecreasing l = true -> (i <= j)%nat ->
  l !! i = Some a -> l !! j = Some b -> a <= b.
Proof.
  intros Hn Hij. revert b. induction Hij as [|j Hij IH]; intros b Hi Hj.
  - rewrite Hi in Hj. inversion Hj; lia.
  - destruct (lookup_lt_is_Some_2 l j) as [c Hc].
    { apply lookup_lt_Some in Hj. lia. }
    specialize (IH c Hi Hc).
    pose proof (nondecreasing_adj l j c b Hn Hc Hj). lia.
Qed.

(** ** What [row_ptr_ok] gives *)

Section RowPtr.
Variable g : GrafoDisperso.
Hypothesis Hok : row_ptr_ok g = true.

Lemma row_ptr_ok_spec :
  Z.of_nat (length (row_ptr g)) = num_nodos g + 1
  /\ nondecreasing (row_ptr g) = true
  /\ nth_Z (row_ptr g) 0 = 0
  /\ nth_Z (row_ptr g) (num_nodos g) <= INT_MAX
  /\ 0 <= num_nodos g < INT_MAX.
Proof using Hok.
  unfold row_ptr_ok in Hok. rewrite !andb_true_iff in Hok.
  destruct Hok as [[[[[H1 H2] H3] H4] H5] H6].
  rewrite Z.eqb_eq in H1, H3. rewrite Z.leb_le in H4, H5.
  rewrite Z.ltb_lt in H6. auto 10.
Qed.

Lemma row_ptr_length : Z.of_nat (length (row_ptr g)) = num_nodos g + 1.
Proof using Hok. apply row_ptr_ok_spec. Qed.

Lemma row_ptr_mono (i j : Z) :
  0 <= i <= j -> j <= num_nodos g ->
  nth_Z (row_ptr g) i <= nth_Z (row_ptr g) j.
Proof using Hok.
  intros Hij Hj. destruct row_ptr_ok_spec as (Hlen & Hn & _).
  destruct (lookup_lt_is_Some_2 (row_ptr g) (Z.to_nat i)) as [a Ha]; [lia|].
  destruct (lookup_lt_is_Some_2 (row_ptr g) (Z.to_nat j)) as [b Hb]; [lia|].
  unfold nth_Z. rewrite Ha, Hb. simpl.
  apply (nondecreasing_le (row_ptr g) (Z.to_nat i) (Z.to_nat j) a b Hn);
    [lia | exact Ha | exact Hb].
Qed.

Lemma row_ptr_first : nth_Z (row_ptr g) 0 = 0.
Proof using Hok. apply row_ptr_ok_spec. Qed.

Lemma num_nodos_int : 0 <= num_nodos g < INT_MAX.
Proof using Hok. apply row_ptr_ok_spec. Qed.

Lemma row_ptr_range (i : Z) :
  0 <= i <= num_nodos g -> 0 <= nth_Z (row_ptr g) i <= INT_MAX.
Proof using Hok.
  intros Hi. destruct row_ptr_ok_spec as (_ & _ & _ & Hmax & _).
  pose proof (row_ptr_mono 0 i). pose proof (row_ptr_mono i (num_nodos g)).
  rewrite row_ptr_first in *. lia.
Qed.

Lemma out_degree_nonneg (u : Z) : 0 <= u < num_nodos g -> 0 <= out_degree g u.
Proof using Hok.
  intros Hu. unfold out_degree.
  pose proof (row_ptr_mono u (u + 1)). lia.
Qed.

(** One iteration of the loop of [obtenerNodoCritico]. *)
Lemma critico_body_in (st : Z * Z) (i : Z) :
  0 <= i < num_nodos g ->
  critico_body g st i = Ok (if out_degree g i >? fst st then (out_degree g i, i) else st).
Proof using Hok.
  intros Hi. unfold critico_body. pose proof row_ptr_length as Hlen.
  rewrite !vec_at_in by lia. simpl.
  pose proof (row_ptr_range i). pose proof (row_ptr_range (i + 1)).
  unfold INT_MAX in *.
  rewrite int_sub_in by (unfold INT_MIN, INT_MAX; lia). reflexivity.
Qed.

Lemma critico_loop (k : nat) :
  Z.of_nat k <= num_nodos g ->
  exists st, for_each (critico_body g) (seqZ 0 (Z.of_nat k)) (-1, -1) = Ok st
             /\ critico_inv g (Z.of_nat k) st.
Proof using Hok.
  induction k as [|k IH]; intros Hk.
  - exists (-1, -1). split; [reflexivity | left; auto].
  - destruct IH as (st & Hst & Hinv); [lia|].
    rewrite seqZ_S, for_each_app, Hst, Z.add_0_l. simpl.
    rewrite critico_body_in by lia. simpl.
    eexists; split; [reflexivity|].
    right. pose proof (out_degree_nonneg (Z.of_nat k)) as Hnn.
    destruct st as [md id]. simpl.
    destruct Hinv as [[H0 Heq] | (Hid & Hmd & Hall & Hlow)]; simpl in *.
    + inversion Heq; subst md id.
      destruct (Z.gtb_spec (out_degree g (Z.of_nat k)) (-1)); [|lia]. simpl.
      split; [lia|]. split; [reflexivity|]. split.
      * intros w Hw. assert (w = Z.of_nat k) by lia. subst w. lia.
      * intros w Hw. lia.
    + destruct (Z.gtb_spec (out_degree g (Z.of_nat k)) md); simpl.
      * split; [lia|]. split; [reflexivity|]. split.
        -- intros w Hw. destruct (Z.eq_dec w (Z.of_nat k)); [subst; lia|].
           specialize (Hall w). lia.
        -- intros w Hw. specialize (Hall w). lia.
      * split; [lia|]. split; [assumption|]. split; [|assumption].
        intros w Hw. destruct (Z.eq_dec w (Z.of_nat k)); [subst; lia|].
        apply Hall. lia.
Qed.
End RowPtr.

Lemma critical_node_empty (g : GrafoDisperso) :
  num_nodos g = 0 -> obtenerNodoCritico g = Ok (-1, g).
Proof. intros Hn. unfold obtenerNodoCritico. rewrite Hn. reflexivity. Qed.

(** ** The traversal *)

Lemma visited_lt (vs : list Z) (x : Z) :
  visited vs x -> 0 <= x < Z.of_nat (length vs).
Proof.
  intros (Hx & l & Hl & _). apply lookup_lt_Some in Hl. lia.
Qed.

(** Distinct vertices with a level are at most as many as the vector is long. *)
Lemma visited_NoDup_length (vs : list Z) (l : list Z) :
  NoDup l -> Forall (visited vs) l -> (length l <= length vs)%nat.
Proof.
  intros Hnd Hall.
  assert (Hsub : l ⊆+ seqZ 0 (Z.of_nat (length vs))).
  { apply NoDup_submseteq; [assumption|].
    intros x Hx. apply elem_of_seqZ.
    rewrite Forall_forall in Hall. apply Hall, visited_lt in Hx. lia. }
  apply submseteq_length in Hsub. rewrite length_seqZ in Hsub. lia.
Qed.

Lemma bfs_visit_inv (g : GrafoDisperso) (done : list Z) (u i : Z) (st st' : bfs_state) :
  bfs_inv done st -> u ∈ done ->
  bfs_visit g u st i = Ok st' ->
  bfs_inv done st' /\ length (vis st') = length (vis st)
  /\ vis st' !! Z.to_nat u = vis st !! Z.to_nat u.
Proof.
  intros [Hnd Hall] Hu H. unfold bfs_visit in H. inv_bind.
  rename a into v, a0 into lv.
  destruct (Z.eqb_spec lv (-1)) as [->|Hlv].
  - inv_bind. rename a into lu, a1 into vs'. inversion H; subst st'; clear H. unfold bfs_inv. simpl.
    apply vec_store_Ok in E3 as [Hv ->]. apply int_add_Ok in E2 as [-> _].
    apply vec_at_Ok in E0 as [Hv0 Hlv]. apply vec_at_Ok in E1 as [Hu0 Hlu].
    rewrite Forall_forall in Hall.
    assert (Hfresh : v ∉ done ++ q st).
    { intros Hin. apply Hall in Hin as (_ & l & Hl & Hl0). rewrite Hlv in Hl.
      inversion Hl; lia. }
    assert (Hne : forall x, x ∈ done ++ q st -> Z.to_nat v <> Z.to_nat x).
    { intros x Hx Heq. apply Hfresh.
      pose proof (Hall x Hx) as (Hx0 & _).
      assert (v = x) by lia. now subst. }
    assert (Hlu0 : 0 <= lu).
    { assert (Hin : u ∈ done ++ q st) by (apply elem_of_app; auto).
      apply Hall in Hin as (_ & l & Hl & Hl0). rewrite Hlu in Hl.
      inversion Hl; lia. }
    split; [split|split].
    + rewrite app_assoc. apply NoDup_app. split; [assumption|]. split.
      * intros x Hx Hxv. apply list_elem_of_singleton in Hxv. now subst.
      * apply NoDup_singleton.
    + rewrite app_assoc. apply Forall_app. split.
      * apply Forall_forall. intros x Hx.
        pose proof (Hall x Hx) as (Hx0 & l & Hl & Hl0).
        split; [assumption|]. exists l. split; [|assumption].
        rewrite list_lookup_insert_ne; auto.
      * apply Forall_singleton. split; [lia|]. exists (lu + 1). split; [|lia].
        apply list_lookup_insert_eq. lia.
    + apply length_insert.
    + apply list_lookup_insert_ne. apply Hne. apply elem_of_app; auto.
  - inversion H; subst st'; clear H. unfold bfs_inv. simpl. repeat split; auto.
Qed.

Lemma bfs_row_inv (g : GrafoDisperso) (done : list Z) (u : Z) (l : list Z) :
  u ∈ done ->
  forall st st', bfs_inv done st ->
  for_each (bfs_visit g u) l st = Ok st' ->
  bfs_inv done st' /\ length (vis st') = length (vis st).
Proof.
  intros Hu. induction l as [|i l IH]; simpl; intros st st' Hinv H.
  - inversion H; subst. auto.
  - inv_bind. destruct (bfs_visit_inv g done u i st a Hinv Hu E) as (Hinv' & Hlen & _).
    destruct (IH a st' Hinv' H) as [H1 H2]. split; [assumption | congruence].
Qed.

(** No vector operation and no body of the traversal runs out of fuel. *)
Lemma bfs_visit_no_timeout (g : GrafoDisperso) (u i : Z) (st : bfs_state) :
  bfs_visit g u st i <> OutOfFuel.
Proof.
  unfold bfs_visit, vec_at, vec_store, int_add.
  repeat (match goal with
          | |- context [if ?b then _ else _] => destruct b
          | |- context [match ?o with Some _ => _ | None => _ end] => destruct o
          end; simpl); discriminate.
Qed.

Lemma for_each_no_timeout {S A : Type} (body : S -> A -> outcome S) (l : list A) :
  (forall s a, body s a <> OutOfFuel) -> forall s, for_each body l s <> OutOfFuel.
Proof.
  intros Hb. induction l as [|a l IH]; simpl; intros s; [discriminate|].
  specialize (Hb s a). destruct (body s a); simpl; auto; discriminate.
Qed.

(** The fuel given by [bfs] is never used up, whatever the graph holds. *)
Lemma bfs_loop_no_timeout (g : GrafoDisperso) (depth : Z) (fuel : nat) :
  forall done st,
  bfs_inv done st ->
  (length (vis st) < fuel + length done)%nat ->
  bfs_loop fuel g depth st <> OutOfFuel.
Proof.
  induction fuel as [|fuel IH]; intros done st Hinv Hfuel.
  - destruct Hinv as [Hnd Hall].
    pose proof (visited_NoDup_length _ _ Hnd Hall) as Hlen.
    rewrite length_app in Hlen. simpl.
    destruct (q st) eqn:Hq; [discriminate|]. simpl in *. lia.
  - simpl. destruct st as [vs qs rs]. simpl in *.
    destruct qs as [|u qs]; [discriminate|].
    assert (Hinv1 : bfs_inv (done ++ [u]) {| vis := vs; q := qs; res := rs |}).
    { destruct Hinv as [Hnd Hall]. simpl in *.
      split; simpl; rewrite <- app_assoc; assumption. }
    assert (Hfuel1 : (length vs < fuel + length (done ++ [u]))%nat).
    { rewrite length_app. simpl. lia. }
    destruct (vec_at vs u) as [lu| | |] eqn:Elu; simpl; try discriminate.
    2:{ destruct (vec_at_cases vs u) as [H|[x H]]; congruence. }
    destruct (lu >=? depth).
    + eapply IH; eauto.
    + destruct (vec_at (row_ptr g) u) as [lo| | |] eqn:Elo; simpl; try discriminate.
      2:{ destruct (vec_at_cases (row_ptr g) u) as [H|[x H]]; congruence. }
      destruct (vec_at (row_ptr g) (u + 1)) as [hi| | |] eqn:Ehi; simpl; try discriminate.
      2:{ destruct (vec_at_cases (row_ptr g) (u + 1)) as [H|[x H]]; congruence. }
      destruct (for_each (bfs_visit g u) (seqZ lo (hi - lo))
                  {| vis := vs; q := qs; res := rs |}) as [st2| | |] eqn:Erow;
        simpl; try discriminate.
      * assert (Hu : u ∈ done ++ [u]) by (apply elem_of_app; right; constructor).
        destruct (bfs_row_inv g _ u _ Hu _ _ Hinv1 Erow) as [Hinv2 Hlen2].
        eapply IH; eauto. simpl in Hlen2. lia.
      * exfalso. revert Erow. apply for_each_no_timeout. intros s a.
        apply bfs_visit_no_timeout.
Qed.

Theorem bfs_no_timeout (startNode depth : Z) (g : GrafoDisperso) :
  bfs startNode depth g <> OutOfFuel.
Proof.
  unfold bfs. destruct (startNode >=? num_nodos g); [discriminate|].
  destruct (vec_new (num_nodos g) (-1)) as [vis0| | |] eqn:E0; cbn [bind]; try discriminate.
  2:{ unfold vec_new in E0. destruct (num_nodos g <? 0); discriminate. }
  destruct (vec_store vis0 startNode 0) as [vis1| | |] eqn:E1; cbn [bind]; try discriminate.
  2:{ unfold vec_store in E1. destruct (_ && _); discriminate. }
  apply vec_store_Ok in E1 as [Hs ->].
  match goal with |- bind ?m _ <> _ => destruct m eqn:El end; cbn [bind]; try discriminate.
  exfalso. revert El. apply (bfs_loop_no_timeout g depth _ []).
  - split; simpl.
    + apply NoDup_singleton.
    + apply Forall_singleton. split; [lia|]. exists 0. split; [|lia].
      apply list_lookup_insert_eq. lia.
  - simpl. rewrite length_insert. lia.
Qed.

Section Traversal.
Variable g : GrafoDisperso.
Hypothesis Hok : csr_ok g = true.

Lemma csr_row_ptr_ok : row_ptr_ok g = true.
Proof using Hok. unfold csr_ok in Hok. now apply andb_true_iff in Hok as [H _]. Qed.

Lemma row_ptr_last : nth_Z (row_ptr g) (num_nodos g) = num_aristas g.
Proof using Hok.
  unfold csr_ok, col_indices_ok in Hok. rewrite !andb_true_iff in Hok.
  destruct Hok as [_ [[H _] _]]. now apply Z.eqb_eq in H.
Qed.

Lemma num_aristas_int : num_aristas g <= INT_MAX.
Proof using Hok.
  rewrite <- row_ptr_last. apply (row_ptr_ok_spec g csr_row_ptr_ok).
Qed.

Lemma row_ptr_bounds (i : Z) :
  0 <= i <= num_nodos g -> 0 <= nth_Z (row_ptr g) i <= num_aristas g.
Proof using Hok.
  intros Hi. rewrite <- (row_ptr_first g csr_row_ptr_ok) at 1. rewrite <- row_ptr_last.
  split; apply (row_ptr_mono g csr_row_ptr_ok); lia.
Qed.

Lemma col_indices_length : Z.of_nat (length (col_indices g)) = num_aristas g.
Proof using Hok.
  unfold csr_ok, col_indices_ok in Hok. rewrite !andb_true_iff in Hok.
  destruct Hok as [_ [[_ H] _]]. now apply Z.eqb_eq in H.
Qed.

Lemma col_indices_range (i : Z) :
  0 <= i < num_aristas g -> 0 <= nth_Z (col_indices g) i < num_nodos g.
Proof using Hok.
  intros Hi. pose proof col_indices_length as Hlen.
  unfold csr_ok, col_indices_ok in Hok. rewrite !andb_true_iff in Hok.
  destruct Hok as [_ [_ H]]. rewrite forallb_forall in H.
  destruct (lookup_lt_is_Some_2 (col_indices g) (Z.to_nat i)) as [v Hv]; [lia|].
  unfold nth_Z. rewrite Hv. simpl.
  apply list_elem_of_lookup_2, list_elem_of_In, H in Hv.
  apply andb_true_iff in Hv as [H1 H2].
  apply Z.leb_le in H1. apply Z.ltb_lt in H2. lia.
Qed.

Lemma row_positions_range (u i : Z) :
  0 <= u < num_nodos g -> i ∈ row_positions g u ->
  nth_Z (row_ptr g) u <= i < nth_Z (row_ptr g) (u + 1) /\ 0 <= i < num_aristas g.
Proof using Hok.
  intros Hu Hi. unfold row_positions, out_degree in Hi. apply elem_of_seqZ in Hi.
  pose proof (row_ptr_bounds u). pose proof (row_ptr_bounds (u + 1)).
  lia.
Qed.

(** One position of the row of [u]. *)
Lemma bfs_visit_ok (done : list Z) (u i lu : Z) (st : bfs_state) :
  bfs_inv done st -> u ∈ done ->
  Z.of_nat (length (vis st)) = num_nodos g ->
  vis st !! Z.to_nat u = Some lu -> lu < INT_MAX ->
  0 <= i < num_aristas g ->
  exists st', bfs_visit g u st i = Ok st' /\ res st' = res st ++ [edge_at g u i].
Proof using Hok.
  intros Hinv Hu Hlen Hlu Hmax Hi.
  pose proof (col_indices_range i Hi) as Hv. pose proof col_indices_length as Hcl.
  destruct Hinv as [Hnd Hall]. rewrite Forall_forall in Hall.
  assert (Hud : u ∈ done ++ q st) by (apply elem_of_app; auto).
  pose proof (Hall u Hud) as (Hu0 & l & Hl & Hl0).
  rewrite Hlu in Hl. inversion Hl; subst l; clear Hl.
  unfold bfs_visit. rewrite vec_at_in by lia. cbn [bind].
  set (v := nth_Z (col_indices g) i) in *.
  rewrite (vec_at_in (vis st) v) by lia. cbn [bind].
  destruct (nth_Z (vis st) v =? -1).
  - assert (Hatu : vec_at (vis st) u = Ok lu) by (apply vec_at_Ok; auto).
    rewrite Hatu. cbn [bind].
    rewrite int_add_in by (unfold INT_MIN, INT_MAX in *; lia). cbn [bind].
    rewrite vec_store_in by lia. cbn [bind].
    eexists; split; reflexivity.
  - eexists; split; reflexivity.
Qed.

(** The inner [for] loop over positions of the row of [u]. *)
Lemma bfs_row_ok (done : list Z) (u lu : Z) (l : list Z) :
  u ∈ done -> lu < INT_MAX ->
  Forall (fun i => 0 <= i < num_aristas g) l ->
  forall st,
  bfs_inv done st ->
  Z.of_nat (length (vis st)) = num_nodos g ->
  vis st !! Z.to_nat u = Some lu ->
  exists st', for_each (bfs_visit g u) l st = Ok st'
              /\ res st' = res st ++ map (edge_at g u) l.
Proof using Hok.
  intros Hu Hmax. induction 1 as [|i l Hi Hl IH]; intros st Hinv Hlen Hlu; simpl.
  - exists st. rewrite app_nil_r. auto.
  - destruct (bfs_visit_ok done u i lu st) as (st1 & H1 & Hr1); auto.
    rewrite H1. cbn [bind].
    destruct (bfs_visit_inv g done u i st st1 Hinv Hu H1) as (Hinv1 & Hlen1 & Hvu).
    destruct (IH st1) as (st2 & H2 & Hr2); auto; try congruence.
    exists st2. split; [assumption|].
    rewrite Hr2, Hr1, <- app_assoc. reflexivity.
Qed.

(** The [while] loop: [ex] are the vertices expanded so far. *)
Lemma bfs_loop_ok (depth : Z) (fuel : nat) :
  depth <= INT_MAX ->
  forall done ex st,
  bfs_inv done st ->
  Z.of_nat (length (vis st)) = num_nodos g ->
  (length (vis st) < fuel + length done)%nat ->
  NoDup ex -> (forall x, x ∈ ex -> x ∈ done) ->
  res st = ex ≫= (fun u => map (edge_at g u) (row_positions g u)) ->
  exists st' ex',
    bfs_loop fuel g depth st = Ok st'
    /\ NoDup ex' /\ (forall x, x ∈ ex' -> 0 <= x < num_nodos g)
    /\ res st' = ex' ≫= (fun u => map (edge_at g u) (row_positions g u)).
Proof using Hok.
  intros Hd. induction fuel as [|fuel IH]; intros done ex st Hinv Hlen Hfuel Hex Hsub Hres.
  - exfalso. destruct Hinv as [Hnd Hall].
    pose proof (visited_NoDup_length _ _ Hnd Hall) as Hl.
    rewrite length_app in Hl. lia.
  - destruct st as [vs qs rs]. simpl in Hlen, Hfuel, Hres.
    assert (Hrange : forall x, x ∈ done -> 0 <= x < num_nodos g).
    { intros x Hx. destruct Hinv as [_ Hall]. rewrite Forall_forall in Hall.
      assert (Hin : x ∈ done ++ qs) by (apply elem_of_app; auto).
      apply Hall, visited_lt in Hin. simpl in Hin. lia. }
    destruct qs as [|u qs].
    { exists {| vis := vs; q := []; res := rs |}, ex. simpl.
      split; [reflexivity|]. split; [assumption|]. split; [|assumption].
      intros x Hx; apply Hrange; auto. }
    cbn [bfs_loop q vis res].
    assert (Hinv1 : bfs_inv (done ++ [u]) {| vis := vs; q := qs; res := rs |}).
    { destruct Hinv as [Hnd Hall]. simpl in *.
      split; simpl; rewrite <- app_assoc; assumption. }
    assert (Hfuel1 : (length vs < fuel + length (done ++ [u]))%nat).
    { rewrite length_app. simpl. lia. }
    assert (Hu : u ∈ done ++ [u]) by (apply elem_of_app; right; constructor).
    assert (Hvu : visited vs u).
    { destruct Hinv1 as [_ Hall]. rewrite Forall_forall in Hall.
      apply (Hall u). apply elem_of_app. auto. }
    pose proof (visited_lt _ _ Hvu) as Hu0.
    destruct Hvu as (_ & lu & Hlu & Hlu0).
    assert (Hatu : vec_at vs u = Ok lu) by (apply vec_at_Ok; split; [lia | auto]).
    rewrite Hatu. cbn [bind].
    destruct (Z.geb_spec lu depth) as [Hge|Hlt].
    + apply (IH (done ++ [u]) ex); auto.
      intros x Hx. apply elem_of_app. auto.
    + pose proof (row_ptr_length g csr_row_ptr_ok) as Hrl.
      rewrite !vec_at_in by lia. cbn [bind].
      destruct (bfs_row_ok (done ++ [u]) u lu (row_positions g u) Hu ltac:(lia))
        with (st := {| vis := vs; q := qs; res := rs |}) as (st2 & H2 & Hr2); auto.
      { apply Forall_forall. intros i Hi.
        apply row_positions_range in Hi; [tauto | lia]. }
      unfold row_positions, out_degree in H2. rewrite H2. cbn [bind].
      destruct (bfs_row_inv g _ u _ Hu _ _ Hinv1 H2) as [Hinv2 Hlen2].
      simpl in Hlen2.
      assert (Hnew : u ∉ ex).
      { intros Hin. apply Hsub in Hin. destruct Hinv as [Hnd _]. simpl in Hnd.
        apply NoDup_app in Hnd as (_ & Hdis & _).
        apply (Hdis u Hin). constructor. }
      apply (IH (done ++ [u]) (ex ++ [u])); auto; try congruence; try lia.
      * apply NoDup_app. split; [assumption|]. split; [|apply NoDup_singleton].
        intros x Hx Hxu. apply list_elem_of_singleton in Hxu. now subst.
      * intros x Hx. apply elem_of_app in Hx as [Hx|Hx]; apply elem_of_app; auto.
      * rewrite Hr2. simpl. rewrite Hres, bind_app. simpl.
        rewrite app_nil_r. reflexivity.
Qed.
End Traversal.

Lemma row_positions_disjoint (g : GrafoDisperso) (x1 x2 y : Z) :
  row_ptr_ok g = true ->
  0 <= x1 < num_nodos g -> 0 <= x2 < num_nodos g ->
  y ∈ row_positions g x1 -> y ∈ row_positions g x2 -> x1 = x2.
Proof.
  intros Hok H1 H2 Hy1 Hy2. unfold row_positions, out_degree in *.
  apply elem_of_seqZ in Hy1, Hy2.
  destruct (Z.lt_trichotomy x1 x2) as [Hlt|[Heq|Hgt]]; [exfalso|assumption|exfalso].
  - pose proof (row_ptr_mono g Hok (x1 + 1) x2). lia.
  - pose proof (row_ptr_mono g Hok (x2 + 1) x1). lia.
Qed.

Lemma emitted_row (g : GrafoDisperso) (u : Z) (l : list Z) :
  Forall (fun i => nth_Z (row_ptr g) u <= i < nth_Z (row_ptr g) (u + 1)) l ->
  Forall2 (emitted_at g) l (map (edge_at g u) l).
Proof.
  induction 1 as [|i l Hi Hl IH]; simpl; constructor; auto.
  split; simpl; auto.
Qed.

Lemma emitted_rows (g : GrafoDisperso) (ex : list Z) :
  Forall2 (emitted_at g) (ex ≫= row_positions g)
          (ex ≫= (fun u => map (edge_at g u) (row_positions g u))).
Proof.
  induction ex as [|u ex IH]; simpl; [constructor|].
  apply Forall2_app; [|assumption].
  apply emitted_row. apply Forall_forall. intros i Hi.
  unfold row_positions, out_degree in Hi. apply elem_of_seqZ in Hi. lia.
Qed.

(** ** Arguments of [bfs] outside their range *)

Lemma bfs_loop_empty_queue (fuel : nat) (g : GrafoDisperso) (depth : Z) (st : bfs_state) :
  q st = [] -> bfs_loop fuel g depth st = Ok st.
Proof. intros Hq. destruct fuel; simpl; rewrite Hq; reflexivity. Qed.

Lemma bfs_start_beyond (g : GrafoDisperso) (startNode depth : Z) :
  num_nodos g <= startNode -> bfs startNode depth g = Ok ([], g).
Proof.
  intros H. unfold bfs. destruct (Z.geb_spec startNode (num_nodos g)); [reflexivity | lia].
Qed.

Lemma bfs_depth_not_positive (g : GrafoDisperso) (startNode depth : Z) :
  0 <= startNode < num_nodos g -> depth <= 0 ->
  bfs startNode depth g = Ok ([], g).
Proof.
  intros Hs Hd. unfold bfs.
  destruct (Z.geb_spec startNode (num_nodos g)); [lia|].
  unfold vec_new. destruct (Z.ltb_spec (num_nodos g) 0); [lia|]. cbn [bind].
  rewrite vec_store_in by (rewrite length_replicate; lia). cbn [bind].
  cbn [bfs_loop q vis res].
  rewrite vec_at_in by (rewrite length_insert, length_replicate; lia). cbn [bind].
  unfold nth_Z. rewrite list_lookup_insert_eq by (rewrite length_replicate; lia).
  simpl default. destruct (Z.geb_spec 0 depth); [|lia].
  rewrite bfs_loop_empty_queue by reflexivity. reflexivity.
Qed.

(** ** The text stream *)

(** Unfolds the stream operations down to record fields. *)
Ltac stream_cases :=
  repeat match goal with
  | |- context [if ?b then _ else _] => destruct b eqn:?
  | |- context [match ?l with [] => _ | _ :: _ => _ end] => destruct l eqn:?
  | |- context [match ?n with O => _ | S _ => _ end] => destruct n eqn:?
  | |- context [match ?o with Some _ => _ | None => _ end] => destruct o eqn:?
  end; simpl; try reflexivity.

Lemma buf_ws (s : istream) : buf (ws s) = buf s.
Proof. unfold ws, mark_eof. stream_cases. Qed.

Lemma buf_peek (s : istream) : buf (fst (peek s)) = buf s.
Proof. unfold peek. stream_cases. Qed.

Lemma buf_getline (s : istream) : buf (getline s) = buf s.
Proof. unfold getline. stream_cases. Qed.

Lemma buf_tellg (s : istream) : buf (fst (tellg s)) = buf s.
Proof. unfold tellg. stream_cases. Qed.

Lemma buf_num_get (s : istream) : buf (fst (num_get s)) = buf s.
Proof. unfold num_get, mark_eof. stream_cases. Qed.

Lemma buf_extract_int (s : istream) : buf (fst (extract_int s)) = buf s.
Proof.
  unfold extract_int. destruct (good s); [|reflexivity].
  destruct (rest _); [reflexivity|]. now rewrite buf_num_get.
Qed.

Lemma buf_extract_pair (s : istream) : buf (fst (extract_pair s)) = buf s.
Proof.
  unfold extract_pair.
  pose proof (buf_extract_int s) as H1. destruct (extract_int s) as [s1 ou].
  pose proof (buf_extract_int s1) as H2. destruct (extract_int s1) as [s2 ov].
  simpl in *. congruence.
Qed.

Lemma buf_while_extract {S : Type} (body : S -> Z * Z -> outcome S) (fuel : nat) :
  forall file st file' st',
  while_extract body fuel file st = Ok (file', st') -> buf file' = buf file.
Proof.
  induction fuel as [|fuel IH]; intros file st file' st' H; [discriminate|].
  simpl in H. pose proof (buf_extract_pair file) as Hb.
  destruct (extract_pair file) as [f1 [e|]]; simpl in Hb.
  - inv_bind. apply IH in H. congruence.
  - inversion H; subst. assumption.
Qed.

Lemma buf_skip_comments (fuel : nat) :
  forall file file', skip_comments fuel file = Ok file' -> buf file' = buf file.
Proof.
  induction fuel as [|fuel IH]; intros file file' H; [discriminate|].
  simpl in H. pose proof (buf_ws file) as Hw.
  destruct (failbit (ws file)); [inversion H; subst; assumption|].
  pose proof (buf_peek (ws file)) as Hp.
  destruct (peek (ws file)) as [f2 [c|]]; simpl in Hp.
  - destruct (Ascii.eqb c HASH).
    + apply IH in H. rewrite buf_getline in H. congruence.
    + inversion H; subst. congruence.
  - inversion H; subst. congruence.
Qed.

(** Nothing is extracted from a stream whose [failbit] is set. *)
Lemma extract_int_failed (s : istream) :
  failbit s = true -> extract_int s = (set_fail s, None).
Proof.
  intros H. unfold extract_int, good. rewrite H, andb_false_r. reflexivity.
Qed.

Lemma extract_pair_failed (s : istream) :
  failbit s = true -> snd (extract_pair s) = None.
Proof.
  intros H. unfold extract_pair. rewrite extract_int_failed by assumption.
  rewrite extract_int_failed by reflexivity. reflexivity.
Qed.

Lemma pairs_failed (fuel : nat) (s : istream) : failbit s = true -> pairs fuel s = [].
Proof.
  intros H. destruct fuel; [reflexivity|]. simpl.
  pose proof (extract_pair_failed s H) as Hn.
  destruct (extract_pair s) as [s' [e|]]; [discriminate | reflexivity].
Qed.

(** What is extracted is an [int]. *)
Lemma num_get_int (s s' : istream) (z : Z) :
  num_get s = (s', Some z) -> is_int z = true.
Proof.
  unfold num_get.
  destruct (match rest s with
            | [] => (false, s)
            | c :: _ => if Ascii.eqb c MINUS then (true, advance 1 s)
                        else if Ascii.eqb c PLUS then (false, advance 1 s)
                        else (false, s)
            end) as [neg s1].
  destruct (take _ _); [discriminate|].
  destruct (is_int _) eqn:E; [|discriminate].
  intros H. inversion H; subst. assumption.
Qed.

Lemma extract_int_int (s s' : istream) (z : Z) :
  extract_int s = (s', Some z) -> is_int z = true.
Proof.
  unfold extract_int. destruct (good s); [|discriminate].
  destruct (rest _); [discriminate|]. apply num_get_int.
Qed.

Lemma extract_pair_int (s s' : istream) (e : Z * Z) :
  extract_pair s = (s', Some e) -> int_pair e.
Proof.
  unfold extract_pair.
  destruct (extract_int s) as [s1 ou] eqn:E1.
  destruct (extract_int s1) as [s2 ov] eqn:E2.
  destruct ou as [u|]; [|discriminate]. destruct ov as [v|]; [|discriminate].
  intros H. inversion H; subst. split; simpl; eapply extract_int_int; eauto.
Qed.

Lemma pairs_int (fuel : nat) : forall s, Forall int_pair (pairs fuel s).
Proof.
  induction fuel as [|fuel IH]; intros s; simpl; [constructor|].
  destruct (extract_pair s) as [s' [e|]] eqn:E; constructor; eauto using extract_pair_int.
Qed.

(** The loop is a [for_each] over the pairs of the stream. *)
Lemma while_extract_pairs {S : Type} (body : S -> Z * Z -> outcome S) (fuel : nat) :
  forall file st file' st',
  while_extract body fuel file st = Ok (file', st') ->
  for_each body (pairs fuel file) st = Ok st'.
Proof.
  induction fuel as [|fuel IH]; intros file st file' st' H; [discriminate|].
  simpl in *. destruct (extract_pair file) as [f1 [e|]]; simpl.
  - inv_bind. rewrite E. simpl. eauto.
  - inversion H; subst. reflexivity.
Qed.

(** [file.clear(); file.seekg(start)] puts the stream back where [tellg]
    found it; when [tellg] failed, no pass reads anything. *)
Lemma rewind_pairs (fuel : nat) (f1 f2 f' : istream) (start : option nat) :
  tellg f1 = (f2, start) -> buf f' = buf f2 ->
  pairs fuel (seekg (clear f') start) = pairs fuel f2.
Proof.
  unfold tellg. destruct (good f1) eqn:Hg; intros H Hb; inversion H; subst; clear H.
  - unfold good in Hg. apply andb_true_iff in Hg as [He Hf].
    apply negb_true_iff in He, Hf.
    destruct f2 as [b p e f]. simpl in *. subst. reflexivity.
  - rewrite !pairs_failed; reflexivity.
Qed.

(** ** The three passes of the builder *)

Lemma total_app (l k : list Z) : total (l ++ k) = total l + total k.
Proof. induction l as [|x l IH]; simpl; [reflexivity|]. unfold total in *. simpl. lia. Qed.

Lemma total_insert (l : list Z) (i : nat) (x y : Z) :
  l !! i = Some x -> total (<[i := y]> l) = total l - x + y.
Proof.
  revert i. induction l as [|a l IH]; intros i H; [discriminate|].
  destruct i as [|i]; simpl in *.
  - inversion H; subst. unfold total; simpl. lia.
  - apply IH in H. unfold total in *; simpl. lia.
Qed.

Lemma total_replicate_0 (n : nat) : total (replicate n 0) = 0.
Proof. induction n as [|n IH]; simpl; [reflexivity|]. unfold total in *. simpl. lia. Qed.

Lemma elem_of_insert_inv (l : list Z) (i : nat) (x y : Z) :
  x ∈ <[i := y]> l -> x = y \/ x ∈ l.
Proof.
  revert i. induction l as [|a l IH]; intros i H; simpl in *; [auto|].
  destruct i as [|i]; simpl in *.
  - apply elem_of_cons in H as [->|H]; [auto|]. right. now constructor.
  - apply elem_of_cons in H as [->|H]; [right; constructor|].
    apply IH in H as [->|H]; [auto|]. right. now constructor.
Qed.

Lemma nondecreasing_intro (l : list Z) :
  (forall i a b, l !! i = Some a -> l !! S i = Some b -> a <= b) ->
  nondecreasing l = true.
Proof.
  induction l as [|x l IH]; intros H; [reflexivity|].
  destruct l as [|y l]; [reflexivity|].
  change (((x <=? y) && nondecreasing (y :: l)) = true).
  apply andb_true_iff. split.
  - apply Z.leb_le. apply (H O); reflexivity.
  - apply IH. intros i a b Ha Hb. apply (H (S i)); assumption.
Qed.

(** Pasada 1 counts the pairs and bounds every identifier by [max_id]. *)
Lemma pasada1_spec (es : list (Z * Z)) :
  forall m0 a0 m a,
  for_each pasada1 es (m0, a0) = Ok (m, a) ->
  a = a0 + Z.of_nat (length es) /\ m0 <= m
  /\ Forall (fun e => fst e <= m /\ snd e <= m) es
  /\ (is_int a0 = true -> is_int a = true).
Proof.
  induction es as [|[u v] es IH]; intros m0 a0 m a H; simpl in H.
  - inversion H; subst. simpl. split; [lia|]. split; [lia|]. split; [constructor | auto].
  - inv_bind. destruct a1 as [m1 a1]. unfold pasada1 in E. inv_bind.
    inversion E; subst; clear E. apply int_add_Ok in E0 as [-> Hint].
    apply IH in H as (Ha & Hm & Hall & Hi).
    assert (Hb : m0 <= m /\ u <= m /\ v <= m).
    { revert Hm. destruct (Z.gtb_spec u m0);
        [destruct (Z.gtb_spec v u) | destruct (Z.gtb_spec v m0)]; lia. }
    destruct Hb as (Hm0 & Hu & Hv).
    split; [simpl length; lia|]. split; [assumption|].
    split; [constructor; auto|]. auto.
Qed.

(** Pasada 2 adds one to a counter for each pair. *)
Lemma pasada2_spec (es : list (Z * Z)) :
  forall c0 c,
  for_each pasada2 es c0 = Ok c ->
  length c = length c0
  /\ total c = total c0 + Z.of_nat (length es)
  /\ (Forall (fun z => 0 <= z) c0 -> Forall (fun z => 0 <= z) c).
Proof.
  induction es as [|[u v] es IH]; intros c0 c H; simpl in H.
  - inversion H; subst. simpl. split; [reflexivity|]. split; [lia | auto].
  - inv_bind. unfold pasada2 in E. simpl in E. inv_bind.
    apply vec_at_Ok in E0 as [Hu Hx]. apply int_add_Ok in E1 as [-> _].
    apply vec_store_Ok in E as [_ ->].
    apply IH in H as (Hl & Ht & Hp).
    rewrite length_insert in Hl. rewrite (total_insert _ _ _ _ Hx) in Ht.
    split; [assumption|]. split; [simpl length; lia|].
    intros H0. apply Hp. apply Forall_insert; [assumption|].
    rewrite Forall_forall in H0. apply list_elem_of_lookup_2 in Hx.
    apply H0 in Hx. lia.
Qed.

Lemma suma_prefija_spec (counts rp0 : list Z) (k : nat) :
  forall rp,
  (k <= length counts)%nat ->
  rp0 !! O = Some 0 ->
  for_each (suma_prefija counts) (seqZ 0 (Z.of_nat k)) rp0 = Ok rp ->
  length rp = length rp0 /\ prefix_inv counts rp k
  /\ (ints rp0 -> ints rp).
Proof.
  induction k as [|k IH]; intros rp Hk H0 H.
  - simpl in H. inversion H; subst. split; [reflexivity|]. split; [|auto].
    intros j Hj. assert (j = O) by lia. subst j. simpl. assumption.
  - rewrite seqZ_S, for_each_app, Z.add_0_l in H. inv_bind. simpl in H. inv_bind.
    inversion H; subst a0; clear H.
    destruct (IH a) as (Hl & Hp & Hi); [lia|assumption|assumption|].
    unfold suma_prefija in E0. inv_bind.
    apply vec_at_Ok in E1 as [_ Ha]. apply vec_at_Ok in E2 as [_ Hc].
    apply int_add_Ok in E3 as [-> Hint]. apply vec_store_Ok in E0 as [Hb ->].
    rewrite Nat2Z.id in Ha, Hc.
    replace (Z.to_nat (Z.of_nat k + 1)) with (S k) by lia.
    rewrite (Hp k) in Ha by lia. inversion Ha; subst a0; clear Ha.
    split; [rewrite length_insert; assumption|]. split.
    + intros j Hj. destruct (Nat.eq_dec j (S k)) as [->|Hne].
      * rewrite list_lookup_insert_eq by lia.
        rewrite (take_S_r _ _ _ Hc), total_app.
        f_equal. unfold total. simpl. lia.
      * rewrite list_lookup_insert_ne by lia. apply Hp. lia.
    + intros Hr. apply Forall_insert; auto. apply Hi; auto.
Qed.

(** Pasada 3 only writes second components into [col_indices]. *)
Lemma pasada3_spec (es : list (Z * Z)) :
  forall cur0 ci0 cur ci,
  for_each pasada3 es (cur0, ci0) = Ok (cur, ci) ->
  length ci = length ci0
  /\ (forall x, x ∈ ci -> x ∈ ci0 \/ exists e, e ∈ es /\ x = snd e).
Proof.
  induction es as [|[u v] es IH]; intros cur0 ci0 cur ci H; simpl in H.
  - inversion H; subst. split; auto.
  - inv_bind. destruct a as [cur1 ci1]. unfold pasada3 in E. inv_bind.
    inversion E; subst; clear E. apply vec_store_Ok in E1 as [_ ->].
    apply IH in H as (Hl & Hin). rewrite length_insert in Hl.
    split; [assumption|]. intros x Hx.
    destruct (Hin x Hx) as [Hx'|(e & He & ->)].
    + apply elem_of_insert_inv in Hx' as [->|Hx']; [|auto].
      right. exists (u, v). split; [constructor | reflexivity].
    + right. exists e. split; [now constructor | reflexivity].
Qed.

(** What the text branch computes, pass by pass. *)
Lemma construir_Ok (text : list ascii) (g0 g : GrafoDisperso) :
  construir (open_stream text) g0 = Ok g ->
  exists max_id counts cur rp0 ci0,
    for_each pasada1 (edge_stream text) (0, num_aristas g0) = Ok (max_id, num_aristas g)
    /\ int_add max_id 1 = Ok (num_nodos g)
    /\ is_int (num_nodos g + 1) = true
    /\ vec_resize (col_indices g0) (num_aristas g) = Ok ci0
    /\ for_each pasada2 (edge_stream text) (replicate (Z.to_nat (num_nodos g)) 0) = Ok counts
    /\ rp0 = <[O := 0]> (replicate (Z.to_nat (num_nodos g + 1)) 0)
    /\ for_each (suma_prefija counts) (seqZ 0 (num_nodos g)) rp0 = Ok (row_ptr g)
    /\ for_each pasada3 (edge_stream text) (row_ptr g, ci0) = Ok (cur, col_indices g).
Proof.
  unfold construir, edge_stream. simpl buf. intros H.
  set (fuel := S (length text)) in *.
  inv_bind. rename a into f1. rewrite E.
  pose proof (buf_skip_comments _ _ _ E) as Hb1. simpl in Hb1.
  destruct (tellg f1) as [f2 start] eqn:Et.
  pose proof (buf_tellg f1) as Hb2. rewrite Et in Hb2. simpl in Hb2.
  inv_bind. destruct a as [f3 [max_id na]]. inv_bind.
  rename a into nn, a0 into n1, a1 into rp00, a2 into ci0, a3 into counts0.
  destruct a4 as [f5 counts]. inv_bind. rename a into rp0, a0 into rp.
  destruct a1 as [f7 [cur ci]]. inversion H; subst g; clear H. simpl.
  pose proof (buf_while_extract _ _ _ _ _ _ E0) as Hb3.
  pose proof (while_extract_pairs _ _ _ _ _ _ E0) as P1.
  pose proof (buf_while_extract _ _ _ _ _ _ E6) as Hb5.
  pose proof (while_extract_pairs _ _ _ _ _ _ E6) as P2.
  pose proof (while_extract_pairs _ _ _ _ _ _ E9) as P3.
  rewrite (rewind_pairs fuel f1 f2 f3 start Et Hb3) in P2.
  assert (Hb5' : buf f5 = buf f2).
  { rewrite Hb5. unfold seekg, clear. simpl.
    destruct start; simpl; assumption. }
  rewrite (rewind_pairs fuel f1 f2 f5 start Et Hb5') in P3.
  apply int_add_Ok in E2 as [-> Hn1]. apply vec_new_Ok in E3 as [_ ->].
  apply vec_new_Ok in E5 as [_ ->]. apply vec_store_Ok in E7 as [_ ->].
  exists max_id, counts, cur, (<[O := 0]> (replicate (Z.to_nat (nn + 1)) 0)), ci0.
  simpl. repeat split; auto.
Qed.

Lemma edge_stream_int (text : list ascii) : Forall int_pair (edge_stream text).
Proof.
  unfold edge_stream. destruct (skip_comments _ _); try constructor.
  apply pairs_int.
Qed.

Lemma vec_resize_nil (n : Z) (v : list Z) :
  vec_resize [] n = Ok v -> 0 <= n /\ v = replicate (Z.to_nat n) 0.
Proof.
  unfold vec_resize. destruct (Z.ltb_spec n 0); intros Hv; inversion Hv.
  split; [assumption|]. rewrite take_nil. simpl. f_equal. lia.
Qed.

(** The text branch gives [row_ptr] its shape, whatever the object held. *)
Lemma construir_row_ptr_ok (text : list ascii) (g0 g : GrafoDisperso) :
  construir (open_stream text) g0 = Ok g -> row_ptr_ok g = true.
Proof.
  intros H. apply construir_Ok in H
    as (max_id & counts & cur & rp0 & ci0 & P1 & Hnn & Hn1 & _ & P2 & Hrp0 & Ppre & _).
  apply pasada1_spec in P1 as (_ & Hmax & _ & _).
  apply int_add_Ok in Hnn as [Hnn _].
  apply pasada2_spec in P2 as (Hcl & _ & Hcp).
  rewrite length_replicate in Hcl.
  specialize (Hcp ltac:(apply Forall_replicate; lia)).
  assert (Hnn0 : 0 < num_nodos g) by lia.
  replace (num_nodos g) with (Z.of_nat (Z.to_nat (num_nodos g))) in Ppre at 1 by lia.
  apply suma_prefija_spec in Ppre as (Hrl & Hpre & Hri); [|lia|].
  2:{ subst rp0. apply list_lookup_insert_eq. rewrite length_replicate. lia. }
  assert (Hrl' : Z.of_nat (length (row_ptr g)) = num_nodos g + 1).
  { rewrite Hrl. subst rp0. rewrite length_insert, length_replicate. lia. }
  assert (Hrints : ints (row_ptr g)).
  { apply Hri. subst rp0. apply Forall_insert; [|reflexivity].
    apply Forall_replicate. reflexivity. }
  apply is_int_spec in Hn1 as Hn1b.
  unfold row_ptr_ok. rewrite !andb_true_iff. repeat split.
  - apply Z.eqb_eq. assumption.
  - apply nondecreasing_intro. intros i a b Ha Hb.
    assert (Hi : (S i <= Z.to_nat (num_nodos g))%nat).
    { apply lookup_lt_Some in Hb. lia. }
    rewrite (Hpre i) in Ha by lia. rewrite (Hpre (S i)) in Hb by lia.
    destruct (lookup_lt_is_Some_2 counts i) as [c Hc]; [lia|].
    rewrite (take_S_r _ _ _ Hc), total_app in Hb.
    assert (Hc1 : total [c] = c) by (unfold total; simpl; lia).
    rewrite Hc1 in Hb. inversion Ha; inversion Hb; subst.
    rewrite Forall_forall in Hcp. apply list_elem_of_lookup_2, Hcp in Hc. lia.
  - apply Z.eqb_eq. unfold nth_Z. change (Z.to_nat 0) with O.
    rewrite (Hpre O) by lia. reflexivity.
  - apply Z.leb_le.
    destruct (lookup_lt_is_Some_2 (row_ptr g) (Z.to_nat (num_nodos g))) as [x Hx]; [lia|].
    unfold nth_Z. rewrite Hx. simpl.
    unfold ints in Hrints. rewrite Forall_forall in Hrints.
    apply list_elem_of_lookup_2, Hrints, is_int_spec in Hx. lia.
  - apply Z.leb_le. lia.
  - apply Z.ltb_lt. unfold INT_MAX in *. lia.
Qed.

(** The state built from a text by a new object. *)
Lemma construir_new (text : list ascii) (g : GrafoDisperso) :
  construir (open_stream text) GrafoDisperso_new = Ok g ->
  row_ptr_ok g = true
  /\ (forallb (fun e => 0 <=? snd e) (edge_stream text) = true -> col_indices_ok g = true)
  /\ storable g.
Proof.
  intros H. pose proof (construir_row_ptr_ok _ _ _ H) as Hrow.
  apply construir_Ok in H
    as (max_id & counts & cur & rp0 & ci0 & P1 & Hnn & Hn1 & Hci0 & P2 & Hrp0 & Ppre & P3).
  simpl in P1, Hci0.
  apply pasada1_spec in P1 as (Hna & Hmax & Hbound & Hnai).
  specialize (Hnai eq_refl). simpl in Hna.
  apply int_add_Ok in Hnn as [Hnn Hnni].
  apply vec_resize_nil in Hci0 as [Hna0 Hci0].
  apply pasada2_spec in P2 as (Hcl & Hct & Hcp).
  rewrite length_replicate in Hcl. rewrite total_replicate_0 in Hct.
  specialize (Hcp ltac:(apply Forall_replicate; lia)).
  assert (Hnn0 : 0 < num_nodos g) by lia.
  replace (num_nodos g) with (Z.of_nat (Z.to_nat (num_nodos g))) in Ppre at 1 by lia.
  apply suma_prefija_spec in Ppre as (Hrl & Hpre & Hri); [|lia|].
  2:{ subst rp0. apply list_lookup_insert_eq. rewrite length_replicate. lia. }
  assert (Hrl' : Z.of_nat (length (row_ptr g)) = num_nodos g + 1).
  { rewrite Hrl. subst rp0. rewrite length_insert, length_replicate. lia. }
  assert (Hrints : ints (row_ptr g)).
  { apply Hri. subst rp0. apply Forall_insert; [|reflexivity].
    apply Forall_replicate. reflexivity. }
  apply pasada3_spec in P3 as (Hcil & Hcin).
  assert (Hcil' : Z.of_nat (length (col_indices g)) = num_aristas g).
  { rewrite Hcil, Hci0, length_replicate. lia. }
  apply is_int_spec in Hnai as Hnab. apply is_int_spec in Hn1 as Hn1b.
  split; [|split].
  - exact Hrow.
  - intros Hpos. unfold col_indices_ok. rewrite !andb_true_iff. split; [split|].
    + apply Z.eqb_eq. unfold nth_Z. rewrite (Hpre (Z.to_nat (num_nodos g))) by lia.
      simpl. rewrite take_ge by lia. lia.
    + apply Z.eqb_eq. assumption.
    + apply forallb_forall. intros x Hx. apply list_elem_of_In in Hx.
      rewrite forallb_forall in Hpos. rewrite Forall_forall in Hbound.
      apply andb_true_iff. rewrite Z.leb_le, Z.ltb_lt.
      destruct (Hcin x Hx) as [H0|(e & He & ->)].
      * subst ci0. apply elem_of_replicate in H0 as [-> _]. lia.
      * pose proof (Hbound e He) as [_ Hv].
        apply list_elem_of_In, Hpos, Z.leb_le in He. lia.
  - unfold storable. repeat split; auto.
    apply Forall_forall. intros x Hx.
    destruct (Hcin x Hx) as [H0|(e & He & ->)].
    + subst ci0. apply elem_of_replicate in H0 as [-> _]. reflexivity.
    + pose proof (edge_stream_int text) as Hint. rewrite Forall_forall in Hint.
      apply (Hint e He).
Qed.

(** A state that passes the checks can be stored. *)
Lemma csr_ok_storable (g : GrafoDisperso) : csr_ok g = true -> storable g.
Proof.
  intros Hok. pose proof (csr_row_ptr_ok g Hok) as Hr.
  pose proof (row_ptr_length g Hr) as Hrl. pose proof (col_indices_length g Hok) as Hcl.
  pose proof (num_aristas_int g Hok) as Hna.
  pose proof (row_ptr_bounds g Hok 0) as Hb0.
  pose proof (num_nodos_int g Hr) as Hnn.
  unfold INT_MAX in *.
  unfold storable. repeat split; auto; try (apply is_int_spec; unfold INT_MIN, INT_MAX; lia).
  - apply Forall_forall. intros x Hx. apply list_elem_of_lookup in Hx as [i Hi].
    pose proof (lookup_lt_Some _ _ _ Hi) as Hlt.
    pose proof (row_ptr_bounds g Hok (Z.of_nat i) ltac:(lia)) as Hb.
    rewrite (nth_Z_lookup _ _ _ Hi) in Hb.
    apply is_int_spec; unfold INT_MIN, INT_MAX; lia.
  - apply Forall_forall. intros x Hx. apply list_elem_of_lookup in Hx as [i Hi].
    pose proof (lookup_lt_Some _ _ _ Hi) as Hlt.
    pose proof (col_indices_range g Hok (Z.of_nat i) ltac:(lia)) as Hb.
    rewrite (nth_Z_lookup _ _ _ Hi) in Hb.
    apply is_int_spec; unfold INT_MIN, INT_MAX; lia.
Qed.

(** ** The cache codec *)

Lemma byte_val_of (z : Z) : byte_val (byte_of z) = z mod 256.
Proof.
  unfold byte_val, byte_of.
  pose proof (Z.mod_pos_bound z 256 ltac:(lia)) as Hb.
  rewrite N_ascii_embedding by lia. lia.
Qed.

Lemma int_bytes_inv (z : Z) (post : list ascii) :
  is_int z = true -> int_of_bytes (int_bytes z ++ post) = z.
Proof.
  intros Hz. apply is_int_spec in Hz. unfold INT_MIN, INT_MAX in Hz.
  unfold int_of_bytes, int_bytes. cbn [app]. cbn [firstn]. rewrite take_0.
  cbn [fold_right foldr].
  rewrite !byte_val_of.
  replace (z / 65536) with (z / 256 / 256) by (rewrite Z.div_div by lia; reflexivity).
  replace (z / 16777216) with (z / 256 / 256 / 256)
    by (rewrite !Z.div_div by lia; reflexivity).
  match goal with |- (if ?w >=? _ then _ else _) = _ => destruct (Z.geb_spec w 2147483648) end;
    Z.div_mod_to_equations; lia.
Qed.

Lemma length_vec_bytes (v : list Z) : length (vec_bytes v) = (length v * 4)%nat.
Proof.
  unfold vec_bytes. induction v as [|z v IH]; simpl; [reflexivity|].
  rewrite IH. reflexivity.
Qed.

Lemma vec_bytes_inv (v : list Z) (post : list ascii) :
  ints v -> vec_of_bytes (length v) (vec_bytes v ++ post) = v.
Proof.
  induction 1 as [|z v Hz Hv IH]; [reflexivity|].
  change (vec_bytes (z :: v)) with (int_bytes z ++ vec_bytes v).
  rewrite <- app_assoc. cbn [length vec_of_bytes]. f_equal.
  - apply int_bytes_inv. assumption.
  - exact IH.
Qed.

Lemma overlay_full (got old : list ascii) :
  (length old <= length got)%nat -> overlay got old = got.
Proof. intros H. unfold overlay. rewrite drop_ge by assumption. apply app_nil_r. Qed.

(** Reading exactly the bytes that are there. *)
Lemma read_exact (n : nat) (s : istream) (data post : list ascii) :
  good s = true -> rest s = data ++ post -> length data = n ->
  read n s = (advance n s, data)
  /\ good (advance n s) = true /\ rest (advance n s) = post.
Proof.
  intros Hg Hr Hn. unfold read. rewrite Hg, Hr.
  rewrite take_app_length' by (symmetry; assumption). rewrite Hn, Nat.ltb_irrefl.
  split; [reflexivity|]. split; [exact Hg|].
  unfold rest in *. simpl. rewrite <- drop_drop, Hr.
  apply drop_app_length'. symmetry; assumption.
Qed.

(** Reading back what [guardarCache] wrote, into a new object. *)
Lemma cargarDesdeCache_image (cacheFile : string) (fs : disk) (g : GrafoDisperso) :
  storable g ->
  files fs !! cacheFile = Some (cache_image g) ->
  cargarDesdeCache cacheFile fs GrafoDisperso_new = Ok (true, g).
Proof.
  intros (Hrp & Hci & Hnn & Hn1 & Hna & Hrl & Hcl) Hf.
  unfold cargarDesdeCache. rewrite Hf. unfold cache_image.
  set (in0 := open_stream _).
  destruct (read_exact 4 in0 (int_bytes (num_nodos g))
              (int_bytes (num_aristas g) ++ vec_bytes (row_ptr g) ++ vec_bytes (col_indices g)))
    as (R1 & G1 & T1); [reflexivity | reflexivity | reflexivity |].
  rewrite R1. clear R1.
  destruct (read_exact 4 (advance 4 in0) (int_bytes (num_aristas g))
              (vec_bytes (row_ptr g) ++ vec_bytes (col_indices g)))
    as (R2 & G2 & T2); [assumption | assumption | reflexivity |].
  rewrite R2. clear R2.
  cbn [num_nodos num_aristas row_ptr col_indices GrafoDisperso_new].
  rewrite !overlay_full by reflexivity.
  rewrite <- (app_nil_r (int_bytes (num_nodos g))), int_bytes_inv by assumption.
  rewrite <- (app_nil_r (int_bytes (num_aristas g))), int_bytes_inv by assumption.
  unfold int_add. rewrite Hn1. cbn [bind].
  apply is_int_spec in Hna as Hnab. apply is_int_spec in Hn1 as Hn1b.
  unfold vec_resize.
  destruct (Z.ltb_spec (num_nodos g + 1) 0); [lia|]. cbn [bind].
  destruct (Z.ltb_spec (num_aristas g) 0); [lia|]. cbn [bind].
  rewrite !take_nil. cbn [app length]. rewrite !Nat.sub_0_r, !length_replicate.
  assert (L1 : Z.to_nat (num_nodos g + 1) = length (row_ptr g)) by lia.
  assert (L2 : Z.to_nat (num_aristas g) = length (col_indices g)) by lia.
  rewrite L1, L2.
  destruct (read_exact (length (row_ptr g) * 4) (advance 4 (advance 4 in0))
              (vec_bytes (row_ptr g)) (vec_bytes (col_indices g)))
    as (R3 & G3 & T3); [assumption | assumption | apply length_vec_bytes |].
  rewrite R3. clear R3.
  destruct (read_exact (length (col_indices g) * 4)
              (advance (length (row_ptr g) * 4) (advance 4 (advance 4 in0)))
              (vec_bytes (col_indices g)) [])
    as (R4 & G4 & T4);
    [assumption | rewrite app_nil_r; assumption | apply length_vec_bytes |].
  rewrite R4. clear R4. rewrite G4.
  rewrite !overlay_full by (rewrite !length_vec_bytes, length_replicate; lia).
  rewrite <- (app_nil_r (vec_bytes (row_ptr g))), vec_bytes_inv by assumption.
  rewrite <- (app_nil_r (vec_bytes (col_indices g))), vec_bytes_inv by assumption.
  destruct g; reflexivity.
Qed.

(** ** [cargarDatos] *)

Lemma cargarDatos_text (filename : string) (fs : disk) (text : list ascii)
    (g0 : GrafoDisperso) :
  files fs !! (filename ++ ".bin")%string = None ->
  files fs !! filename = Some text ->
  cargarDatos filename fs g0 =
    bind (construir (open_stream text) g0)
         (fun g => Ok (snd (guardarCache (filename ++ ".bin") fs g), g)).
Proof.
  intros Hc Ht. unfold cargarDatos, fileExists. rewrite Hc. cbn [bind].
  rewrite Ht. reflexivity.
Qed.

Lemma cargarDatos_cache (filename : string) (fs : disk) (g : GrafoDisperso) :
  storable g ->
  files fs !! (filename ++ ".bin")%string = Some (cache_image g) ->
  cargarDatos filename fs GrafoDisperso_new = Ok (fs, g).
Proof.
  intros Hs Hc. unfold cargarDatos, fileExists. rewrite Hc.
  rewrite (cargarDesdeCache_image _ _ _ Hs Hc). reflexivity.
Qed.

(** Every load by a new object that is not served from the cache leaves
    [row_ptr] with that shape. *)
Lemma text_load_row_ptr_ok (filename : string) (fs fs' : disk) (text : list ascii)
    (g : GrafoDisperso) :
  (forall g', cargarDesdeCache (filename ++ ".bin") fs GrafoDisperso_new <> Ok (true, g')) ->
  files fs !! filename = Some text ->
  cargarDatos filename fs GrafoDisperso_new = Ok (fs', g) ->
  row_ptr_ok g = true.
Proof.
  intros Hmiss Ht Hload. unfold cargarDatos in Hload. inv_bind.
  destruct a as [hit g0].
  destruct hit.
  - exfalso. destruct (fileExists fs (filename ++ ".bin")).
    + apply (Hmiss g0). assumption.
    + discriminate.
  - rewrite Ht in Hload. inv_bind. inversion Hload; subst.
    eapply construir_row_ptr_ok; eauto.
Qed.

Lemma byte_val_bound (c : ascii) : 0 <= byte_val c < 256.
Proof. unfold byte_val. pose proof (N_ascii_bounded c). lia. Qed.

(** Four bytes always hold an [int]. *)
Lemma int_of_bytes_int (b : list ascii) : is_int (int_of_bytes b) = true.
Proof.
  apply is_int_spec. unfold int_of_bytes, INT_MIN, INT_MAX.
  assert (H : 0 <= fold_right (fun c acc => byte_val c + 256 * acc) 0 (take 4 b)
              < 4294967296).
  { destruct b as [|b0 [|b1 [|b2 [|b3 b]]]]; cbn [firstn fold_right]; rewrite ?take_0;
      cbn [fold_right];
      repeat match goal with
             | |- context [byte_val ?c] =>
               let H := fresh in pose proof (byte_val_bound c) as H;
               generalize dependent (byte_val c); intros
             end; lia. }
  match goal with |- _ <= (if ?w >=? ?k then _ else _) <= _ =>
    destruct (Z.geb_spec w k) end; lia.
Qed.

Lemma vec_of_bytes_ints (n : nat) : forall b, ints (vec_of_bytes n b).
Proof.
  induction n as [|n IH]; intros b; simpl; constructor; [apply int_of_bytes_int | apply IH].
Qed.

(** Whatever the cache holds, the object is left with [int]s. *)
Lemma cargarDesdeCache_ints (cacheFile : string) (fs : disk) (g0 g : GrafoDisperso)
    (hit : bool) :
  ints (col_indices g0) -> is_int (num_aristas g0) = true ->
  cargarDesdeCache cacheFile fs g0 = Ok (hit, g) ->
  ints (col_indices g) /\ is_int (num_aristas g) = true.
Proof.
  intros Hc Hn. unfold cargarDesdeCache. destruct (files fs !! cacheFile).
  - destruct (read 4 _) as [in1 b1]. destruct (read 4 in1) as [in2 b2].
    intros H. inv_bind.
    destruct (read _ in2) as [in3 b3]. destruct (read _ in3) as [in4 b4].
    inversion H; subst; clear H. simpl.
    split; [apply vec_of_bytes_ints | apply int_of_bytes_int].
  - intros H. inversion H; subst. auto.
Qed.

(** The text branch leaves a state that can be stored, whatever a failed
    cache read left in the object. *)
Lemma construir_storable (text : list ascii) (g0 g : GrafoDisperso) :
  ints (col_indices g0) -> is_int (num_aristas g0) = true ->
  construir (open_stream text) g0 = Ok g -> storable g.
Proof.
  intros Hc0 Hn0 H. apply construir_Ok in H
    as (max_id & counts & cur & rp0 & ci0 & P1 & Hnn & Hn1 & Hci0 & P2 & Hrp0 & Ppre & P3).
  apply pasada1_spec in P1 as (Hna & Hmax & Hbound & Hnai).
  specialize (Hnai Hn0).
  apply int_add_Ok in Hnn as [Hnn Hnni].
  assert (Hci : 0 <= num_aristas g /\ length ci0 = Z.to_nat (num_aristas g) /\ ints ci0).
  { unfold vec_resize in Hci0. destruct (Z.ltb_spec (num_aristas g) 0); [discriminate|].
    inversion Hci0; subst ci0. split; [assumption|]. split.
    - rewrite length_app, length_take, length_replicate. lia.
    - apply Forall_app. split; [apply Forall_take; assumption|].
      apply Forall_replicate. reflexivity. }
  destruct Hci as (Hna0 & Hcl0 & Hci0i).
  apply pasada2_spec in P2 as (Hcl & _ & _). rewrite length_replicate in Hcl.
  assert (Hnn0 : 0 < num_nodos g) by lia.
  replace (num_nodos g) with (Z.of_nat (Z.to_nat (num_nodos g))) in Ppre at 1 by lia.
  apply suma_prefija_spec in Ppre as (Hrl & _ & Hri); [|lia|].
  2:{ subst rp0. apply list_lookup_insert_eq. rewrite length_replicate. lia. }
  apply pasada3_spec in P3 as (Hcil & Hcin).
  apply is_int_spec in Hn1 as Hn1b.
  unfold storable. repeat split; auto.
  - apply Hri. subst rp0. apply Forall_insert; [|reflexivity].
    apply Forall_replicate. reflexivity.
  - apply Forall_forall. intros x Hx.
    destruct (Hcin x Hx) as [H0|(e & He & ->)].
    + unfold ints in Hci0i. rewrite Forall_forall in Hci0i. auto.
    + pose proof (edge_stream_int text) as Hint. rewrite Forall_forall in Hint.
      apply (Hint e He).
  - rewrite Hrl. subst rp0. rewrite length_insert, length_replicate. lia.
  - rewrite Hcil, Hcl0. lia.
Qed.

(** ** The loops of the text branch end: the fuel is enough *)

Lemma remaining_le_buf (s : istream) : (remaining s <= length (buf s))%nat.
Proof. unfold remaining, rest. rewrite length_drop. lia. Qed.

Lemma rest_advance (n : nat) (s : istream) : rest (advance n s) = drop n (rest s).
Proof. unfold rest. simpl. now rewrite drop_drop. Qed.

Lemma remaining_advance (n : nat) (s : istream) :
  remaining (advance n s) = (remaining s - n)%nat.
Proof. unfold remaining. rewrite rest_advance. apply length_drop. Qed.

Lemma remaining_mark_eof (s : istream) : remaining (mark_eof s) = remaining s.
Proof. unfold mark_eof. destruct (rest s) eqn:E; reflexivity. Qed.

Lemma remaining_ws (s : istream) : (remaining (ws s) <= remaining s)%nat.
Proof.
  unfold ws. destruct (good s); [|reflexivity].
  rewrite remaining_mark_eof, remaining_advance. lia.
Qed.

Lemma remaining_getline (s : istream) :
  good s = true -> rest s <> [] -> (remaining (getline s) < remaining s)%nat.
Proof.
  intros Hg Hr. unfold getline. rewrite Hg.
  set (n := span _ _).
  assert (Hpos : (0 < remaining s)%nat).
  { unfold remaining. destruct (rest s); [congruence | simpl; lia]. }
  destruct (drop n (rest s)) eqn:Ed.
  - assert (Hn : (remaining s <= n)%nat).
    { unfold remaining. apply (f_equal length) in Ed. rewrite length_drop in Ed.
      simpl in Ed. lia. }
    assert (Hz : remaining (set_eof (advance n s)) = O).
    { change (remaining (advance n s) = O). rewrite remaining_advance. lia. }
    destruct n; [lia|]. lia.
  - rewrite remaining_advance. lia.
Qed.

Lemma skip_comments_total (fuel : nat) :
  forall s, (remaining s < fuel)%nat -> exists s', skip_comments fuel s = Ok s'.
Proof.
  induction fuel as [|fuel IH]; intros s Hf; [lia|]. simpl.
  pose proof (remaining_ws s) as Hw.
  destruct (failbit (ws s)); [eauto|].
  unfold peek. destruct (good (ws s)) eqn:Hg; [|eauto].
  destruct (rest (ws s)) as [|c r] eqn:Hr; [eauto|].
  destruct (Ascii.eqb c HASH); [|eauto].
  apply IH.
  assert (remaining (getline (ws s)) < remaining (ws s))%nat; [|lia].
  apply remaining_getline; [assumption | congruence].
Qed.

Lemma remaining_num_get (s : istream) :
  (remaining (fst (num_get s)) <= remaining s)%nat
  /\ (forall z, snd (num_get s) = Some z -> (remaining (fst (num_get s)) < remaining s)%nat).
Proof.
  unfold num_get.
  set (p := match rest s with
            | [] => (false, s)
            | c :: _ => if Ascii.eqb c MINUS then (true, advance 1 s)
                        else if Ascii.eqb c PLUS then (false, advance 1 s)
                        else (false, s)
            end).
  assert (Hp : (remaining (snd p) <= remaining s)%nat).
  { unfold p. destruct (rest s); [reflexivity|].
    destruct (Ascii.eqb _ _); [simpl; rewrite remaining_advance; lia|].
    destruct (Ascii.eqb _ _); [simpl; rewrite remaining_advance; lia | reflexivity]. }
  destruct p as [neg s1]. simpl in Hp.
  set (n := span isdigit (rest s1)).
  assert (Hs2 : remaining (mark_eof (advance n s1)) = (remaining s1 - n)%nat).
  { rewrite remaining_mark_eof. apply remaining_advance. }
  destruct (take n (rest s1)) eqn:Et.
  - simpl. change (remaining (set_fail ?x)) with (remaining x).
    split; [lia | discriminate].
  - assert (Hn : (0 < n)%nat /\ (0 < remaining s1)%nat).
    { unfold remaining. destruct n; [discriminate|].
      destruct (rest s1); [discriminate | simpl; lia]. }
    destruct (is_int _); simpl; [|change (remaining (set_fail ?x)) with (remaining x)];
      (split; [lia | intros; try discriminate; lia]).
Qed.

Lemma remaining_extract_int (s : istream) :
  (remaining (fst (extract_int s)) <= remaining s)%nat
  /\ (forall z, snd (extract_int s) = Some z ->
        (remaining (fst (extract_int s)) < remaining s)%nat).
Proof.
  unfold extract_int. destruct (good s); [|split; [reflexivity | discriminate]].
  set (s1 := advance _ s).
  assert (H1 : (remaining s1 <= remaining s)%nat).
  { unfold s1. rewrite remaining_advance. lia. }
  destruct (rest s1) eqn:Er.
  - simpl. split; [exact H1 | discriminate].
  - destruct (remaining_num_get s1) as [Hle Hlt]. split; [lia|].
    intros z Hz. specialize (Hlt z Hz). lia.
Qed.

Lemma remaining_extract_pair (s s' : istream) (e : Z * Z) :
  extract_pair s = (s', Some e) -> (remaining s' < remaining s)%nat.
Proof.
  unfold extract_pair.
  destruct (remaining_extract_int s) as [_ H1].
  destruct (extract_int s) as [s1 ou].
  destruct (remaining_extract_int s1) as [H2 _].
  destruct (extract_int s1) as [s2 ov]. simpl in *.
  destruct ou as [u|]; [|discriminate]. destruct ov as [v|]; [|discriminate].
  intros H. inversion H; subst. specialize (H1 u eq_refl). lia.
Qed.

Lemma benign_bind {A B : Type} (m : outcome A) (k : A -> outcome B) :
  benign m -> (forall a, m = Ok a -> benign (k a)) -> benign (bind m k).
Proof. destruct m; simpl; auto. Qed.

Lemma for_each_benign {S A : Type} (body : S -> A -> outcome S) (l : list A) :
  (forall s a, benign (body s a)) -> forall s, benign (for_each body l s).
Proof.
  intros Hb. induction l as [|a l IH]; intros s; simpl; [exact I|].
  apply benign_bind; auto.
Qed.

Lemma while_extract_benign {S : Type} (body : S -> Z * Z -> outcome S) (fuel : nat) :
  (forall s e, benign (body s e)) ->
  forall file st, (remaining file < fuel)%nat ->
  benign (while_extract body fuel file st).
Proof.
  intros Hb. induction fuel as [|fuel IH]; intros file st Hf; [lia|]. simpl.
  destruct (extract_pair file) as [f1 [e|]] eqn:E; [|exact I].
  apply remaining_extract_pair in E.
  apply benign_bind; [apply Hb|]. intros st' _. apply IH. lia.
Qed.

(** The bodies of the loops only use [int] arithmetic and element access. *)
Ltac benign_cases :=
  repeat match goal with
  | |- context [if ?b then _ else _] => destruct b
  | |- context [match ?o with Some _ => _ | None => _ end] => destruct o
  end; simpl; try exact I.

Lemma pasada1_benign (st : Z * Z) (e : Z * Z) : benign (pasada1 st e).
Proof. destruct st, e. unfold pasada1, int_add. benign_cases. Qed.

Lemma pasada2_benign (c : list Z) (e : Z * Z) : benign (pasada2 c e).
Proof. unfold pasada2, vec_at, vec_store, int_add, bind. benign_cases. Qed.

Lemma suma_prefija_benign (c rp : list Z) (i : Z) : benign (suma_prefija c rp i).
Proof. unfold suma_prefija, vec_at, vec_store, int_add, bind. benign_cases. Qed.

Lemma pasada3_benign (st : list Z * list Z) (e : Z * Z) : benign (pasada3 st e).
Proof.
  destruct st, e. unfold pasada3, vec_at, vec_store, int_add, bind. benign_cases.
Qed.

(** On a new object the text branch returns or has undefined behaviour. *)
Lemma construir_new_benign (text : list ascii) :
  benign (construir (open_stream text) GrafoDisperso_new).
Proof.
  unfold construir. simpl buf. set (fuel := S (length text)).
  destruct (skip_comments_total fuel (open_stream text)) as [f1 E1].
  { pose proof (remaining_le_buf (open_stream text)). simpl in *. unfold fuel. lia. }
  rewrite E1. cbn [bind].
  pose proof (buf_skip_comments _ _ _ E1) as Hb1. simpl in Hb1.
  destruct (tellg f1) as [f2 start] eqn:Et.
  pose proof (buf_tellg f1) as Hb2. rewrite Et in Hb2. simpl in Hb2.
  assert (Hfuel : forall f, buf f = text -> (remaining f < fuel)%nat).
  { intros f Hf. pose proof (remaining_le_buf f). rewrite Hf in *. unfold fuel. lia. }
  assert (Hseek : forall f, buf f = text -> buf (seekg (clear f) start) = text).
  { intros f Hf. unfold seekg, clear. simpl. destruct start; simpl; assumption. }
  apply benign_bind.
  { apply while_extract_benign; [apply pasada1_benign | apply Hfuel; congruence]. }
  intros [f3 [max_id na]] E0.
  pose proof (buf_while_extract _ _ _ _ _ _ E0) as Hb3.
  apply while_extract_pairs, pasada1_spec in E0 as (Hna & Hmax & _). simpl in Hna.
  apply benign_bind; [unfold int_add; benign_cases|]. intros nn Hnn.
  apply int_add_Ok in Hnn as [-> _].
  apply benign_bind; [unfold int_add; benign_cases|]. intros n1 Hn1.
  apply int_add_Ok in Hn1 as [-> _].
  unfold vec_new at 1. destruct (Z.ltb_spec (max_id + 1 + 1) 0); [lia|]. cbn [bind].
  unfold vec_resize. destruct (Z.ltb_spec na 0); [lia|]. cbn [bind].
  unfold vec_new at 1. destruct (Z.ltb_spec (max_id + 1) 0); [lia|]. cbn [bind].
  apply benign_bind.
  { apply while_extract_benign; [apply pasada2_benign|].
    apply Hfuel, Hseek. congruence. }
  intros [f5 counts] E5.
  pose proof (buf_while_extract _ _ _ _ _ _ E5) as Hb5.
  apply benign_bind; [unfold vec_store; benign_cases|]. intros rp0 _.
  apply benign_bind; [apply for_each_benign, suma_prefija_benign|]. intros rp _.
  apply benign_bind.
  { apply while_extract_benign; [apply pasada3_benign|].
    apply Hfuel, Hseek. rewrite Hb5. apply Hseek. congruence. }
  intros [f7 [cur ci]] _. exact I.
Qed.

(** The histogram pass reads [counts[u]] for every pair. *)
Lemma pasada2_sources (es : list (Z * Z)) :
  forall c0 c, for_each pasada2 es c0 = Ok c -> Forall (fun e => 0 <= fst e) es.
Proof.
  induction es as [|e es IH]; intros c0 c H; [constructor|].
  simpl in H. inv_bind. constructor; [|eauto].
  unfold pasada2 in E. inv_bind. apply vec_at_Ok in E0. tauto.
Qed.

(** ** The builder is correct *)

Lemma targets_app (u : Z) (l k : list (Z * Z)) :
  targets u (l ++ k) = targets u l ++ targets u k.
Proof. unfold targets. now rewrite filter_app, map_app. Qed.

Lemma targets_cons_eq (u v : Z) (l : list (Z * Z)) :
  targets u ((u, v) :: l) = v :: targets u l.
Proof. unfold targets. rewrite filter_cons_True by reflexivity. reflexivity. Qed.

Lemma targets_cons_ne (u u' v : Z) (l : list (Z * Z)) :
  u' <> u -> targets u ((u', v) :: l) = targets u l.
Proof. intros H. unfold targets. rewrite filter_cons_False by (simpl; congruence). reflexivity. Qed.

Lemma occ_nonneg (u : Z) (es : list (Z * Z)) : 0 <= occ u es.
Proof. unfold occ. lia. Qed.

Lemma occ_app (u : Z) (l k : list (Z * Z)) : occ u (l ++ k) = occ u l + occ u k.
Proof. unfold occ. rewrite targets_app, length_app. lia. Qed.

Lemma occ_single_eq (u v : Z) : occ u [(u, v)] = 1.
Proof. unfold occ. rewrite targets_cons_eq. reflexivity. Qed.

Lemma occ_single_ne (u u' v : Z) : u' <> u -> occ u [(u', v)] = 0.
Proof. intros H. unfold occ. rewrite targets_cons_ne by assumption. reflexivity. Qed.

(** *** Pasada 1 *)

Lemma pasada1_run (es : list (Z * Z)) :
  forall m0 a0,
  0 <= a0 -> a0 + Z.of_nat (length es) <= INT_MAX ->
  for_each pasada1 es (m0, a0) =
    Ok (fold_left (fun m e => Z.max (Z.max m (fst e)) (snd e)) es m0,
        a0 + Z.of_nat (length es)).
Proof.
  induction es as [|[u v] es IH]; intros m0 a0 H0 Hmax.
  - simpl. f_equal. f_equal. lia.
  - cbn [for_each pasada1 length fold_left fst snd].
    rewrite int_add_in by (unfold INT_MIN, INT_MAX in *; simpl length in Hmax; lia).
    cbn [bind]. rewrite IH by (simpl length in Hmax; lia).
    simpl length. f_equal. f_equal; [|lia]. f_equal.
    destruct (Z.gtb_spec u m0); [destruct (Z.gtb_spec v u) | destruct (Z.gtb_spec v m0)]; lia.
Qed.

Lemma max_ident_bound (es : list (Z * Z)) (B : Z) :
  forall m0, m0 <= B -> Forall (fun e => fst e <= B /\ snd e <= B) es ->
  m0 <= fold_left (fun m e => Z.max (Z.max m (fst e)) (snd e)) es m0 <= B.
Proof.
  induction es as [|e es IH]; intros m0 Hm Hall; simpl; [lia|].
  inversion Hall as [|? ? [H1 H2] Hr]; subst.
  specialize (IH (Z.max (Z.max m0 (fst e)) (snd e)) ltac:(lia) Hr). lia.
Qed.

(** *** Pasada 2: [counts[u]] is the number of pairs with first component [u] *)

Lemma pasada2_counts (es : list (Z * Z)) :
  forall c0 c, for_each pasada2 es c0 = Ok c ->
  forall j, c !! j = (fun x => x + occ (Z.of_nat j) es) <$> (c0 !! j).
Proof.
  induction es as [|[u v] es IH]; intros c0 c H j.
  - simpl in H. inversion H; subst. unfold occ. simpl.
    destruct (c !! j); simpl; [f_equal; lia | reflexivity].
  - simpl in H. inv_bind. unfold pasada2 in E. simpl in E. inv_bind.
    apply vec_at_Ok in E0 as [Hu Hx]. apply int_add_Ok in E1 as [-> _].
    apply vec_store_Ok in E as [Hb ->]. rewrite (IH _ _ H j).
    destruct (Z.eq_dec u (Z.of_nat j)) as [->|Hne].
    + rewrite Nat2Z.id in *. rewrite list_lookup_insert_eq by lia. rewrite Hx. simpl.
      unfold occ. rewrite targets_cons_eq. simpl length. f_equal. lia.
    + rewrite list_lookup_insert_ne by lia.
      unfold occ. rewrite targets_cons_ne by assumption. reflexivity.
Qed.

Lemma pasada2_run (es : list (Z * Z)) :
  forall c0 B,
  Forall (fun x => 0 <= x <= B) c0 ->
  B + Z.of_nat (length es) <= INT_MAX ->
  Forall (fun e => 0 <= fst e < Z.of_nat (length c0)) es ->
  exists c, for_each pasada2 es c0 = Ok c.
Proof.
  induction es as [|[u v] es IH]; intros c0 B Hc HB Hes; simpl; [eauto|].
  inversion Hes as [|? ? Hu Hr]; subst. simpl in Hu. simpl length in HB.
  unfold pasada2. simpl fst. rewrite vec_at_in by lia. cbn [bind].
  assert (Hx : 0 <= nth_Z c0 u <= B).
  { destruct (lookup_lt_is_Some_2 c0 (Z.to_nat u)) as [x Hx]; [lia|].
    unfold nth_Z. rewrite Hx. simpl. rewrite Forall_forall in Hc.
    apply (Hc x). eapply list_elem_of_lookup_2; eauto. }
  rewrite int_add_in by (unfold INT_MIN, INT_MAX in *; lia). cbn [bind].
  rewrite vec_store_in by lia. cbn [bind].
  apply (IH _ (B + 1)).
  - apply Forall_insert; [|lia]. eapply Forall_impl; [exact Hc|]. simpl. intros; lia.
  - lia.
  - rewrite length_insert. assumption.
Qed.

(** *** The prefix sums *)

Lemma total_take_le (l : list Z) (k : nat) :
  Forall (fun x => 0 <= x) l -> 0 <= total (take k l) <= total l.
Proof.
  intros H. revert k. induction H as [|x l Hx Hl IH]; intros k.
  - rewrite take_nil. unfold total; simpl; lia.
  - destruct k as [|k]; simpl.
    + specialize (IH O). rewrite take_0 in IH. unfold total in *; simpl in *. lia.
    + specialize (IH k). unfold total in *; simpl in *. lia.
Qed.

Lemma suma_prefija_run (counts rp0 : list Z) (k : nat) :
  (k <= length counts)%nat -> (k < length rp0)%nat ->
  rp0 !! O = Some 0 ->
  Forall (fun x => 0 <= x) counts -> total counts <= INT_MAX ->
  exists rp, for_each (suma_prefija counts) (seqZ 0 (Z.of_nat k)) rp0 = Ok rp.
Proof.
  intros Hk Hl H0 Hc Ht. induction k as [|k IH]; [simpl; eauto|].
  destruct IH as [rp Hrp]; [lia|lia|].
  rewrite seqZ_S, for_each_app, Hrp, Z.add_0_l. cbn [bind for_each].
  destruct (suma_prefija_spec counts rp0 k rp ltac:(lia) H0 Hrp) as (Hlen & Hpre & _).
  destruct (lookup_lt_is_Some_2 counts k) as [c Hck]; [lia|].
  unfold suma_prefija.
  assert (Ha : vec_at rp (Z.of_nat k) = Ok (total (take k counts))).
  { apply vec_at_Ok. split; [lia|]. rewrite Nat2Z.id. apply Hpre. lia. }
  assert (Hcc : vec_at counts (Z.of_nat k) = Ok c).
  { apply vec_at_Ok. split; [lia|]. now rewrite Nat2Z.id. }
  rewrite Ha, Hcc. cbn [bind].
  pose proof (total_take_le counts (S k) Hc) as Hb.
  rewrite (take_S_r _ _ _ Hck), total_app in Hb.
  assert (Hc1 : total [c] = c) by (unfold total; simpl; lia). rewrite Hc1 in Hb.
  rewrite int_add_in by (unfold INT_MIN, INT_MAX in *; lia). cbn [bind].
  rewrite vec_store_in by lia. cbn [bind]. eauto.
Qed.

(** *** Pasada 3 *)

Section Scatter.
Variable es : list (Z * Z).
Variable rp : list Z.
Variables nn na : Z.
Hypothesis Hr0 : nth_Z rp 0 = 0.
Hypothesis Hstep : forall u, 0 <= u < nn -> nth_Z rp (u + 1) = nth_Z rp u + occ u es.
Hypothesis Hlast : nth_Z rp nn = na.
Hypothesis Hna : na <= INT_MAX.

Lemma rows_mono_from (d : nat) :
  forall i, 0 <= i -> i + Z.of_nat d <= nn -> nth_Z rp i <= nth_Z rp (i + Z.of_nat d).
Proof using Hstep.
  induction d as [|d IH]; intros i Hi Hd.
  - rewrite Z.add_0_r. lia.
  - specialize (IH i Hi ltac:(lia)).
    replace (i + Z.of_nat (S d)) with (i + Z.of_nat d + 1) by lia.
    rewrite Hstep by lia. pose proof (occ_nonneg (i + Z.of_nat d) es). lia.
Qed.

Lemma rows_mono (i j : Z) : 0 <= i <= j -> j <= nn -> nth_Z rp i <= nth_Z rp j.
Proof using Hstep.
  intros Hij Hj. replace j with (i + Z.of_nat (Z.to_nat (j - i))) by lia.
  apply rows_mono_from; lia.
Qed.

Lemma rows_bounds (i : Z) : 0 <= i <= nn -> 0 <= nth_Z rp i <= na.
Proof using Hr0 Hstep Hlast.
  intros Hi. rewrite <- Hr0 at 1. rewrite <- Hlast. split; apply rows_mono; lia.
Qed.

Lemma pasada3_run (later : list (Z * Z)) :
  forall done st,
  es = done ++ later ->
  Forall (fun e => 0 <= fst e < nn) later ->
  scatter_inv rp nn na done st ->
  exists st', for_each pasada3 later st = Ok st' /\ scatter_inv rp nn na es st'.
Proof using Hr0 Hstep Hlast Hna.
  induction later as [|[u0 v0] later IH]; intros done [cur ci] Hes Hall Hinv.
  - rewrite app_nil_r in Hes. subst done. simpl. eauto.
  - inversion Hall as [|? ? Hu0 Hrest]; subst x l. simpl in Hu0.
    destruct Hinv as (Hlc & Hli & Hcur & Hci). simpl in Hlc, Hli, Hcur, Hci.
    set (k0 := nth_Z rp u0 + occ u0 done).
    assert (Hocc : forall u, occ u es = occ u done + occ u [(u0, v0)] + occ u later).
    { intros u. rewrite Hes. change ((u0, v0) :: later) with ([(u0, v0)] ++ later).
      rewrite !occ_app. lia. }
    pose proof (occ_single_eq u0 v0) as Hone.
    pose proof (rows_bounds u0 ltac:(lia)) as Hb0.
    pose proof (rows_bounds (u0 + 1) ltac:(lia)) as Hb1.
    pose proof (Hstep u0 Hu0) as Hs0.
    pose proof (occ_nonneg u0 done). pose proof (occ_nonneg u0 later).
    assert (Hk0 : 0 <= k0 < na) by (unfold k0; rewrite Hocc, Hone in Hs0; lia).
    cbn [for_each pasada3].
    assert (Hat : vec_at cur u0 = Ok k0).
    { apply vec_at_Ok. split; [lia|]. apply Hcur. assumption. }
    rewrite Hat. cbn [bind]. rewrite vec_store_in by lia. cbn [bind].
    rewrite int_add_in by (unfold INT_MIN, INT_MAX in *; lia). cbn [bind].
    rewrite vec_store_in by lia. cbn [bind].
    apply (IH (done ++ [(u0, v0)])).
    + rewrite <- app_assoc. exact Hes.
    + assumption.
    + unfold scatter_inv. cbn [fst snd]. rewrite !length_insert.
      split; [assumption|]. split; [assumption|]. split.
      * intros u Hu. rewrite occ_app.
        destruct (Z.eq_dec u u0) as [->|Hne].
        -- rewrite list_lookup_insert_eq by lia. rewrite Hone. f_equal. unfold k0. lia.
        -- rewrite list_lookup_insert_ne by lia. rewrite (Hcur u Hu). f_equal.
           rewrite (occ_single_ne u u0 v0) by congruence. lia.
      * intros u k v Hu Hk. rewrite targets_app in Hk.
        apply lookup_app_Some in Hk as [Hold|[Hlen Hnew]].
        -- assert (Hkl : Z.of_nat k < occ u done).
           { apply lookup_lt_Some in Hold. unfold occ. lia. }
           pose proof (rows_bounds u ltac:(lia)) as Hbu.
           pose proof (Hstep u Hu) as Hsu. rewrite Hocc in Hsu.
           pose proof (occ_nonneg u [(u0, v0)]). pose proof (occ_nonneg u later).
           rewrite list_lookup_insert_ne; [apply Hci; assumption|].
           destruct (Z.lt_trichotomy u u0) as [Hlt|[->|Hgt]].
           ++ pose proof (rows_mono (u + 1) u0 ltac:(lia) ltac:(lia)). unfold k0. lia.
           ++ unfold k0. lia.
           ++ pose proof (rows_mono (u0 + 1) u ltac:(lia) ltac:(lia)).
              rewrite Hocc, Hone in Hs0. unfold k0. lia.
        -- destruct (Z.eq_dec u u0) as [->|Hne].
           ++ rewrite targets_cons_eq in Hnew. simpl in Hnew.
              destruct (k - length (targets u0 done))%nat eqn:Hd; [|discriminate].
              simpl in Hnew. inversion Hnew; subst v.
              replace (Z.to_nat (nth_Z rp u0) + k)%nat with (Z.to_nat k0)
                by (unfold k0, occ; lia).
              apply list_lookup_insert_eq. lia.
           ++ rewrite targets_cons_ne in Hnew by congruence.
              destruct (k - length (targets u done))%nat; discriminate Hnew.
Qed.

(** Once all pairs are scattered, row [u] of [col_indices] is [targets u]. *)
Lemma scatter_rows (st : list Z * list Z) (u : Z) :
  scatter_inv rp nn na es st -> 0 <= u < nn ->
  take (Z.to_nat (occ u es)) (drop (Z.to_nat (nth_Z rp u)) (snd st)) = targets u es.
Proof using Hr0 Hstep Hlast.
  intros (_ & Hli & _ & Hci) Hu.
  pose proof (rows_bounds u ltac:(lia)) as Hbu.
  pose proof (rows_bounds (u + 1) ltac:(lia)) as Hb1.
  pose proof (Hstep u Hu) as Hsu.
  apply list_eq. intros i.
  destruct (targets u es !! i) as [v|] eqn:Hi.
  - pose proof (lookup_lt_Some _ _ _ Hi) as Hlt.
    rewrite lookup_take_lt by (unfold occ; lia).
    rewrite lookup_drop. apply Hci; assumption.
  - apply lookup_ge_None in Hi. apply lookup_ge_None.
    rewrite length_take. unfold occ. lia.
Qed.
End Scatter.

(** With enough fuel the loop does what [for_each] does on the pairs. *)
Lemma while_extract_run {S : Type} (body : S -> Z * Z -> outcome S) (fuel : nat) :
  forall file st st',
  (remaining file < fuel)%nat ->
  for_each body (pairs fuel file) st = Ok st' ->
  exists file', while_extract body fuel file st = Ok (file', st').
Proof.
  induction fuel as [|fuel IH]; intros file st st' Hf H; [lia|].
  simpl in *. destruct (extract_pair file) as [f1 [e|]] eqn:E.
  - apply remaining_extract_pair in E. simpl in H. inv_bind. rewrite E0. cbn [bind].
    apply IH; [lia | assumption].
  - simpl in H. inversion H; subst. eauto.
Qed.

(** The builder is correct on a new object: a text whose first components
    are not negative and whose identifiers and length leave room in [int]
    is loaded, and row [u] of the CSR lists the second components of the
    pairs of [u] in the order of the text. *)
Theorem construir_correct (text : list ascii) :
  Forall (fun e => 0 <= fst e) (edge_stream text) ->
  Forall (fun e => fst e <= INT_MAX - 2 /\ snd e <= INT_MAX - 2) (edge_stream text) ->
  Z.of_nat (length (edge_stream text)) <= INT_MAX ->
  exists g, construir (open_stream text) GrafoDisperso_new = Ok g
    /\ num_nodos g = max_ident (edge_stream text) + 1
    /\ num_aristas g = Z.of_nat (length (edge_stream text))
    /\ forall u, 0 <= u < num_nodos g -> neighbours g u = targets u (edge_stream text).
Proof.
  unfold edge_stream, construir. simpl buf. set (fuel := S (length text)).
  destruct (skip_comments_total fuel (open_stream text)) as [f1 E1].
  { pose proof (remaining_le_buf (open_stream text)). simpl in *. unfold fuel. lia. }
  rewrite E1. cbn [bind].
  pose proof (buf_skip_comments _ _ _ E1) as Hb1. simpl in Hb1.
  destruct (tellg f1) as [f2 start] eqn:Et. cbn [fst].
  pose proof (buf_tellg f1) as Hb2. rewrite Et in Hb2. simpl in Hb2.
  set (es := pairs fuel f2). intros Hsrc Hbound Hlen.
  assert (Hfuel : forall f, buf f = text -> (remaining f < fuel)%nat).
  { intros f Hf. pose proof (remaining_le_buf f). rewrite Hf in *. unfold fuel. lia. }
  assert (Hseek : forall f, buf f = text -> buf (seekg (clear f) start) = text).
  { intros f Hf. unfold seekg, clear. simpl. destruct start; simpl; assumption. }
  (* Pasada 1 *)
  pose proof (pasada1_run es 0 0 ltac:(lia) ltac:(lia)) as P1.
  fold (max_ident es) in P1. rewrite Z.add_0_l in P1.
  assert (F1 : (remaining f2 < fuel)%nat) by (apply Hfuel; congruence).
  destruct (while_extract_run pasada1 fuel f2 _ _ F1 P1) as [f3 W1].
  cbn [num_aristas GrafoDisperso_new col_indices]. rewrite W1. cbn [bind].
  pose proof (buf_while_extract _ _ _ _ _ _ W1) as Hb3.
  pose proof (max_ident_bound es (INT_MAX - 2) 0 ltac:(unfold INT_MAX; lia) Hbound) as HM.
  fold (max_ident es) in HM.
  apply pasada1_spec in P1 as (_ & _ & Hle & _).
  set (M := max_ident es) in *. set (na := Z.of_nat (length es)) in *.
  rewrite (int_add_in M 1) by (unfold INT_MIN, INT_MAX in *; lia). cbn [bind].
  rewrite (int_add_in (M + 1) 1) by (unfold INT_MIN, INT_MAX in *; lia). cbn [bind].
  unfold vec_new at 1. destruct (Z.ltb_spec (M + 1 + 1) 0); [lia|]. cbn [bind].
  unfold vec_resize. destruct (Z.ltb_spec na 0); [lia|]. cbn [bind].
  rewrite take_nil. cbn [app length]. rewrite Nat.sub_0_r.
  unfold vec_new at 1. destruct (Z.ltb_spec (M + 1) 0); [lia|]. cbn [bind].
  (* Pasada 2 *)
  assert (R2 : pairs fuel (seekg (clear f3) start) = es)
    by (apply (rewind_pairs fuel f1 f2 f3 start Et); congruence).
  destruct (pasada2_run es (replicate (Z.to_nat (M + 1)) 0) 0) as [counts P2].
  { apply Forall_replicate. lia. }
  { lia. }
  { rewrite length_replicate. rewrite Forall_forall in Hsrc, Hle.
    apply Forall_forall. intros e He. specialize (Hsrc e He).
    specialize (Hle e He). lia. }
  rewrite <- R2 in P2.
  assert (F2 : (remaining (seekg (clear f3) start) < fuel)%nat)
    by (apply Hfuel, Hseek; congruence).
  destruct (while_extract_run pasada2 fuel _ _ _ F2 P2) as [f5 W2].
  rewrite W2. cbn [bind]. rewrite R2 in P2.
  pose proof (buf_while_extract _ _ _ _ _ _ W2) as Hb5.
  pose proof (pasada2_counts _ _ _ P2) as Hcnt.
  apply pasada2_spec in P2 as (Hcl & Hct & Hcp).
  rewrite length_replicate in Hcl. rewrite total_replicate_0 in Hct.
  specialize (Hcp ltac:(apply Forall_replicate; lia)).
  (* the prefix sums *)
  rewrite vec_store_in by (rewrite length_replicate; lia). cbn [bind].
  set (rp0 := <[Z.to_nat 0 := 0]> (replicate (Z.to_nat (M + 1 + 1)) 0)).
  assert (H00 : rp0 !! O = Some 0).
  { unfold rp0. apply list_lookup_insert_eq. rewrite length_replicate. lia. }
  assert (Hl0 : length rp0 = Z.to_nat (M + 1 + 1)).
  { unfold rp0. rewrite length_insert, length_replicate. reflexivity. }
  replace (seqZ 0 (M + 1)) with (seqZ 0 (Z.of_nat (Z.to_nat (M + 1))))
    by (f_equal; lia).
  destruct (suma_prefija_run counts rp0 (Z.to_nat (M + 1))) as [rp PS];
    [lia | lia | assumption | assumption | fold na in Hct; lia |].
  rewrite PS. cbn [bind].
  destruct (suma_prefija_spec counts rp0 (Z.to_nat (M + 1)) rp ltac:(lia) H00 PS)
    as (Hrl & Hpre & _).
  assert (HR : forall u, 0 <= u <= M + 1 ->
                 nth_Z rp u = total (take (Z.to_nat u) counts)).
  { intros u Hu. unfold nth_Z. rewrite (Hpre (Z.to_nat u)) by lia. reflexivity. }
  assert (HR0 : nth_Z rp 0 = 0) by (rewrite HR by lia; reflexivity).
  assert (HRs : forall u, 0 <= u < M + 1 -> nth_Z rp (u + 1) = nth_Z rp u + occ u es).
  { intros u Hu. rewrite !HR by lia.
    replace (Z.to_nat (u + 1)) with (S (Z.to_nat u)) by lia.
    assert (Hcu : counts !! Z.to_nat u = Some (occ u es)).
    { rewrite Hcnt. rewrite lookup_replicate_2 by lia. simpl.
      rewrite Z2Nat.id by lia. reflexivity. }
    rewrite (take_S_r _ _ _ Hcu), total_app. f_equal. unfold total. simpl. lia. }
  assert (HRl : nth_Z rp (M + 1) = na).
  { rewrite HR by lia. rewrite take_ge by lia. fold na in Hct. lia. }
  (* Pasada 3 *)
  assert (R3 : pairs fuel (seekg (clear f5) start) = es).
  { apply (rewind_pairs fuel f1 f2 f5 start Et). rewrite Hb5. rewrite Hseek; congruence. }
  destruct (pasada3_run es rp (M + 1) na HR0 HRs HRl ltac:(lia) es []
              (rp, replicate (Z.to_nat na) 0)) as [[cur ci] [P3 Hinv]].
  { reflexivity. }
  { rewrite Forall_forall in Hsrc, Hle. apply Forall_forall. intros e He.
    specialize (Hsrc e He). specialize (Hle e He). lia. }
  { unfold scatter_inv. cbn [fst snd]. split; [lia|].
    split; [rewrite length_replicate; lia|]. split.
    - intros u Hu. unfold occ. simpl. rewrite Z.add_0_r. unfold nth_Z.
      destruct (lookup_lt_is_Some_2 rp (Z.to_nat u)) as [x Hx]; [lia|].
      rewrite Hx. reflexivity.
    - intros u k v _ Hk. discriminate Hk. }
  rewrite <- R3 in P3.
  assert (F3 : (remaining (seekg (clear f5) start) < fuel)%nat)
    by (apply Hfuel, Hseek; rewrite Hb5; apply Hseek; congruence).
  destruct (while_extract_run pasada3 fuel _ _ _ F3 P3) as [f7 W3].
  rewrite W3. cbn [bind].
  eexists. split; [reflexivity|]. cbn [num_nodos num_aristas].
  split; [reflexivity|]. split; [reflexivity|].
  intros u Hu. unfold neighbours, out_degree. cbn [row_ptr col_indices].
  rewrite HRs by lia.
  replace (nth_Z rp u + occ u es - nth_Z rp u) with (occ u es) by lia.
  apply (scatter_rows es rp (M + 1) na HR0 HRs HRl (cur, ci) u Hinv Hu).
Qed.

Lemma neighbours_stored (g : GrafoDisperso) (u x : Z) :
  x ∈ neighbours g u -> x ∈ col_indices g.
Proof.
  unfold neighbours. intros H. apply subseteq_take in H. now apply subseteq_drop in H.
Qed.

Lemma targets_elem (es : list (Z * Z)) (e : Z * Z) : e ∈ es -> snd e ∈ targets (fst e) es.
Proof.
  intros H. unfold targets. apply list_elem_of_In, in_map, list_elem_of_In.
  apply list_elem_of_filter. split; [reflexivity | assumption].
Qed.

Lemma max_ident_ge (es : list (Z * Z)) (e : Z * Z) :
  e ∈ es -> fst e <= max_ident es /\ snd e <= max_ident es.
Proof.
  unfold max_ident. generalize 0. induction es as [|a es IH]; intros m H; [inversion H|].
  simpl. apply elem_of_cons in H as [->|H].
  - pose proof (max_ident_bound es
      (fold_left (fun m e => Z.max (Z.max m (fst e)) (snd e)) es
         (Z.max (Z.max m (fst a)) (snd a))) (Z.max (Z.max m (fst a)) (snd a))).
    assert (Hm : forall l m0,
      m0 <= fold_left (fun m e => Z.max (Z.max m (fst e)) (snd e)) l m0).
    { clear. induction l as [|b l IHl]; intros m0; simpl; [lia|].
      specialize (IHl (Z.max (Z.max m0 (fst b)) (snd b))). lia. }
    specialize (Hm es (Z.max (Z.max m (fst a)) (snd a))). lia.
  - apply IH. assumption.
Qed.

(** * The claims *)

(** ** Empty input *)

(** Claim C1, on the code.  A text without pairs (comment lines only),
    loaded by a new object without a cache, leaves [num_nodos = 1] and
    [row_ptr = [0; 0]] (not 0 and [0]), [num_aristas = 0] and an empty
    [col_indices]; [obtenerNodoCritico] then returns 0 (not -1) and
    [bfs 0 5] the empty sequence. *)
Theorem empty_input_load (filename : string) (fs : disk) (text : list ascii) :
  files fs !! (filename ++ ".bin")%string = None ->
  files fs !! filename = Some text ->
  edge_stream text = [] ->
  load_new filename fs = Ok one_vertex
  /\ query filename fs obtenerNodoCritico = Ok 0
  /\ query filename fs (bfs 0 5) = Ok [].
Proof.
  intros Hc Ht Hes.
  assert (Hload : load_new filename fs = Ok one_vertex).
  { unfold load_new. rewrite (cargarDatos_text _ _ _ _ Hc Ht).
    assert (Hsrc : Forall (fun e => 0 <= fst e) (edge_stream text))
      by (rewrite Hes; constructor).
    assert (Hroom : Forall (fun e => fst e <= INT_MAX - 2 /\ snd e <= INT_MAX - 2)
                      (edge_stream text)) by (rewrite Hes; constructor).
    assert (Hlen : Z.of_nat (length (edge_stream text)) <= INT_MAX)
      by (rewrite Hes; unfold INT_MAX; simpl; lia).
    destruct (construir_correct text Hsrc Hroom Hlen) as (g & Hg & Hnn & Hna & _).
    rewrite Hes in Hnn, Hna. simpl in Hnn, Hna.
    rewrite Hg. cbn [bind snd]. f_equal.
    destruct (construir_new text g Hg) as (Hr & Hci & Hs).
    assert (Hok : csr_ok g = true).
    { unfold csr_ok. rewrite Hr, Hci; [reflexivity | rewrite Hes; reflexivity]. }
    destruct (row_ptr_ok_spec g Hr) as (Hl & _ & H0 & _).
    pose proof (row_ptr_last g Hok) as H1. clear Hok Hr Hci.
    destruct Hs as (_ & _ & _ & _ & _ & _ & Hcl).
    destruct g as [rp ci nn na]. simpl in *. subst nn na.
    destruct ci; [|discriminate].
    destruct rp as [|a [|b [|c rp]]];
      try (exfalso; unfold max_ident in Hl; simpl in Hl; lia).
    unfold nth_Z in H0, H1. simpl in H0, H1. subst. reflexivity. }
  unfold query. rewrite Hload. repeat split.
Qed.

Lemma empty_input_load_witness :
  load_new "empty.txt" comment_disk = Ok one_vertex
  /\ query "empty.txt" comment_disk obtenerNodoCritico = Ok 0
  /\ query "empty.txt" comment_disk (bfs 0 5) = Ok [].
Proof.
  apply (empty_input_load "empty.txt" comment_disk comment_txt);
    vm_compute; reflexivity.
Defined.

(** ** Depth cap *)

(** Claim C2 fails as stated: on the chain, [bfs 0 2] is not
    [(0,1); (1,2); (2,3)]. *)
Theorem chain_depth_two_spec_value :
  query "chain.txt" chain_disk (bfs 0 2) <> Ok [(0, 1); (1, 2); (2, 3)].
Proof. vm_compute. discriminate. Qed.

(** Claim C2, amended.  On the chain [0 1; 1 2; 2 3; 3 4], [bfs 0 2]
    returns exactly [(0,1); (1,2)]: vertex 2 has level 2, which is not
    below the depth, so neither (2,3) nor (3,4) is emitted; (2,3) is
    emitted from depth 3 on. *)
Theorem chain_depth_two :
  query "chain.txt" chain_disk (bfs 0 2) = Ok [(0, 1); (1, 2)]
  /\ query "chain.txt" chain_disk (bfs 0 3) = Ok [(0, 1); (1, 2); (2, 3)].
Proof. split; vm_compute; reflexivity. Qed.

(** ** CSR invariants after a load *)

(** Claim C3 fails as stated: a cache that parses cleanly is taken as it
    is, here with a decreasing [row_ptr]; and a text with a negative second
    component puts it into [col_indices]. *)
Theorem csr_invariants_not_checked :
  (load_new "odd.txt" odd_disk = Ok odd_graph /\ nondecreasing (row_ptr odd_graph) = false)
  /\ (load_new "neg.txt" neg_target_disk = Ok (mkGrafo [0; 1] [-1] 1 1)
      /\ col_indices_ok (mkGrafo [0; 1] [-1] 1 1) = false).
Proof. repeat split; vm_compute; reflexivity. Qed.

(** Claim C3, amended.  A load by a new object establishes the CSR
    invariants when it is built from a text file, no cache file being
    present, whose pairs have no negative second component, and when it
    reads a cache file holding the image of a state that satisfies them.
    Nothing is validated in either case. *)
Theorem load_establishes_csr (filename : string) (fs fs' : disk) (g : GrafoDisperso) :
  cargarDatos filename fs GrafoDisperso_new = Ok (fs', g) ->
  (files fs !! (filename ++ ".bin")%string = None
   /\ exists text, files fs !! filename = Some text
        /\ forallb (fun e => 0 <=? snd e) (edge_stream text) = true)
  \/ (exists g0, files fs !! (filename ++ ".bin")%string = Some (cache_image g0)
        /\ csr_ok g0 = true) ->
  csr_ok g = true.
Proof.
  intros Hload [(Hc & text & Ht & Hpos) | (g0 & Hc & Hok)].
  - rewrite (cargarDatos_text _ _ _ _ Hc Ht) in Hload. inv_bind.
    inversion Hload; subst; clear Hload.
    apply construir_new in E as (Hr & Hci & _).
    unfold csr_ok. rewrite Hr, (Hci Hpos). reflexivity.
  - rewrite (cargarDatos_cache _ _ _ (csr_ok_storable _ Hok) Hc) in Hload.
    inversion Hload; subst. assumption.
Qed.

Lemma load_establishes_csr_witness :
  cargarDatos "tri.txt" tri_disk GrafoDisperso_new = Ok (tri_disk_cached, tri_graph)
  /\ csr_ok tri_graph = true.
Proof.
  assert (Hload : cargarDatos "tri.txt" tri_disk GrafoDisperso_new
                  = Ok (tri_disk_cached, tri_graph)) by (vm_compute; reflexivity).
  split; [exact Hload|].
  apply (load_establishes_csr "tri.txt" tri_disk tri_disk_cached tri_graph Hload).
  left. split; [vm_compute; reflexivity|].
  exists tri_txt. split; vm_compute; reflexivity.
Defined.

(** ** Arguments of [bfs] out of range *)

(** Claim C4, where the code departs from it.  The guard of [bfs] compares
    [startNode] with [num_nodos] only: a negative start vertex passes it
    and reaches [vis[startNode] = 0], an access outside [vis], instead of
    returning the empty sequence.  ([bfs_start_beyond] and
    [bfs_depth_not_positive] are the two cases in which the claim holds.) *)
Theorem bfs_negative_start_undefined (g : GrafoDisperso) (startNode depth : Z) :
  startNode < 0 -> 0 <= num_nodos g ->
  bfs startNode depth g = Undefined.
Proof.
  intros Hs Hn. unfold bfs.
  destruct (Z.geb_spec startNode (num_nodos g)); [lia|].
  unfold vec_new. destruct (Z.ltb_spec (num_nodos g) 0); [lia|]. cbn [bind].
  rewrite vec_store_neg by assumption. reflexivity.
Qed.

Lemma bfs_negative_start_undefined_witness : bfs (-1) 5 tri_graph = Undefined.
Proof. apply bfs_negative_start_undefined; simpl; lia. Defined.

(** ** Negative integers in the text *)

(** Claim C5 fails as stated: the text [0 -1] is loaded, not rejected, and
    -1 is stored in [col_indices]. *)
Theorem negative_target_stored :
  edge_stream neg_target_txt = [(0, -1)]
  /\ load_new "neg.txt" neg_target_disk = Ok (mkGrafo [0; 1] [-1] 1 1).
Proof. split; vm_compute; reflexivity. Qed.

Example negative_source_load :
  load_new "neg.txt" (disk_of [("neg.txt"%string, neg_source_txt)]) = Undefined.
Proof. vm_compute. reflexivity. Qed.

(** Claim C5, amended.  The builder checks no sign and rejects nothing.
    For a text loaded by a new object without a cache: a pair with a
    negative first component makes the histogram pass index [counts] with
    it, which is undefined behaviour and no abort; and when no first
    component is negative (identifiers and length leaving room in [int])
    the load returns and every second component, negative or not, is in
    [col_indices]. *)
Theorem builder_checks_no_sign (filename : string) (fs : disk) (text : list ascii) :
  files fs !! (filename ++ ".bin")%string = None ->
  files fs !! filename = Some text ->
  (Exists (fun e => fst e < 0) (edge_stream text) ->
     cargarDatos filename fs GrafoDisperso_new = Undefined)
  /\ (Forall (fun e => 0 <= fst e) (edge_stream text) ->
      Forall (fun e => fst e <= INT_MAX - 2 /\ snd e <= INT_MAX - 2) (edge_stream text) ->
      Z.of_nat (length (edge_stream text)) <= INT_MAX ->
      exists fs' g, cargarDatos filename fs GrafoDisperso_new = Ok (fs', g)
        /\ forall e, e ∈ edge_stream text -> snd e ∈ col_indices g).
Proof.
  intros Hc Ht. rewrite (cargarDatos_text _ _ _ _ Hc Ht). split.
  - intros Hneg. pose proof (construir_new_benign text) as Hb.
    destruct (construir (open_stream text) GrafoDisperso_new) as [g| | |] eqn:E;
      try reflexivity; try contradiction.
    exfalso. apply construir_Ok in E
      as (max_id & counts & cur & rp0 & ci0 & _ & _ & _ & _ & P2 & _).
    apply pasada2_sources in P2. apply Exists_exists in Hneg as (e & He & Hlt).
    rewrite Forall_forall in P2. apply P2 in He. lia.
  - intros Hsrc Hroom Hlen.
    destruct (construir_correct text Hsrc Hroom Hlen) as (g & Hg & Hnn & _ & Hrows).
    rewrite Hg. cbn [bind]. eexists _, g. split; [reflexivity|].
    intros e He. apply (neighbours_stored g (fst e)). rewrite Hrows.
    + apply targets_elem. assumption.
    + rewrite Forall_forall in Hsrc. pose proof (Hsrc e He).
      pose proof (max_ident_ge _ _ He). lia.
Qed.

Lemma builder_checks_no_sign_witness :
  exists fs' g, cargarDatos "neg.txt" neg_target_disk GrafoDisperso_new = Ok (fs', g)
    /\ forall e, e ∈ edge_stream neg_target_txt -> snd e ∈ col_indices g.
Proof.
  assert (Hes : edge_stream neg_target_txt = [(0, -1)]) by (vm_compute; reflexivity).
  destruct (builder_checks_no_sign "neg.txt" neg_target_disk neg_target_txt) as [_ H].
  - vm_compute. reflexivity.
  - vm_compute. reflexivity.
  - apply H; rewrite Hes.
    + repeat constructor. simpl. lia.
    + repeat constructor; unfold INT_MAX; simpl; lia.
    + unfold INT_MAX; simpl; lia.
Defined.

(** ** A cache that fails to load *)

(** Claim C6, on the code.  A cache cut after its header fails to load,
    but [num_aristas] and [col_indices] keep what the failed read left in
    them: the text load that follows counts its one edge on top of the
    stale 3 and ends with [num_aristas = 4] and [col_indices = [1;0;0;0]],
    where the same text without a cache gives 1 and [[1]]. *)
Theorem cut_cache_leaks_into_text_load :
  cargarDesdeCache "one.txt.bin" cut_cache_disk GrafoDisperso_new
    = Ok (false, mkGrafo [0; 0; 0; 0] [0; 0; 0] 3 3)
  /\ load_new "one.txt" cut_cache_disk = Ok (mkGrafo [0; 1; 1] [1; 0; 0; 0] 2 4)
  /\ load_new "one.txt" one_edge_disk = Ok (mkGrafo [0; 1; 1] [1] 2 1).
Proof. repeat split; vm_compute; reflexivity. Qed.

(** ** Cache round trip *)

(** Claim C7. Round trip: when a new object loads a text file, the cache
    (if any) failing to load and the cache path being writable, the load
    leaves the image of its state in [filename ++ ".bin"].  On every disk
    that holds this cache under that name - the disk the first load left,
    or one where the text is gone or has changed - another new object
    reads the cache with success, and its load of the same name ends in
    the same [num_nodos], [num_aristas], [row_ptr] and [col_indices]
    without touching the disk. *)
Theorem cache_round_trip (filename : string) (fs fs1 : disk) (text : list ascii)
    (g1 : GrafoDisperso) :
  (forall g, cargarDesdeCache (filename ++ ".bin") fs GrafoDisperso_new <> Ok (true, g)) ->
  files fs !! filename = Some text ->
  (filename ++ ".bin")%string ∉ locked fs ->
  cargarDatos filename fs GrafoDisperso_new = Ok (fs1, g1) ->
  files fs1 !! (filename ++ ".bin")%string = Some (cache_image g1)
  /\ forall fs2 : disk,
       files fs2 !! (filename ++ ".bin")%string = files fs1 !! (filename ++ ".bin")%string ->
       cargarDesdeCache (filename ++ ".bin") fs2 GrafoDisperso_new = Ok (true, g1)
       /\ cargarDatos filename fs2 GrafoDisperso_new = Ok (fs2, g1).
Proof.
  intros Hmiss Ht Hw Hload. unfold cargarDatos in Hload.
  assert (Hnew : ints (col_indices GrafoDisperso_new)
                 /\ is_int (num_aristas GrafoDisperso_new) = true)
    by (split; [constructor | reflexivity]).
  assert (Htext : exists g0, ints (col_indices g0) /\ is_int (num_aristas g0) = true
                    /\ construir (open_stream text) g0 = Ok g1
                    /\ fs1 = snd (guardarCache (filename ++ ".bin") fs g1)).
  { destruct (fileExists fs (filename ++ ".bin")).
    - inv_bind. destruct a as [hit g0].
      destruct hit; [exfalso; apply (Hmiss g0); assumption|].
      rewrite Ht in Hload. inv_bind. inversion Hload; subst.
      destruct Hnew as [Hn1 Hn2].
      destruct (cargarDesdeCache_ints _ _ _ _ _ Hn1 Hn2 E) as [Hi1 Hi2].
      exists g0. auto.
    - cbn [bind] in Hload. rewrite Ht in Hload. inv_bind.
      inversion Hload; subst. exists GrafoDisperso_new. destruct Hnew. auto. }
  destruct Htext as (g0 & Hi1 & Hi2 & Hbuild & ->).
  pose proof (construir_storable text g0 g1 Hi1 Hi2 Hbuild) as Hs.
  unfold guardarCache. destruct (decide _) as [Hin|_]; [contradiction|]. cbn [snd files].
  assert (Hf : <[(filename ++ ".bin")%string := cache_image g1]> (files fs)
                 !! (filename ++ ".bin")%string = Some (cache_image g1))
    by apply lookup_insert_eq.
  split; [assumption|].
  intros fs2 H2. rewrite Hf in H2. split.
  - apply cargarDesdeCache_image; assumption.
  - apply cargarDatos_cache; assumption.
Qed.

Lemma cache_round_trip_witness :
  files tri_disk_cached !! "tri.txt.bin"%string = Some (cache_image tri_graph)
  /\ cargarDesdeCache "tri.txt.bin" tri_cache_only GrafoDisperso_new = Ok (true, tri_graph)
  /\ cargarDatos "tri.txt" tri_cache_only GrafoDisperso_new = Ok (tri_cache_only, tri_graph)
  /\ cargarDatos "tri.txt" tri_disk_cached GrafoDisperso_new = Ok (tri_disk_cached, tri_graph).
Proof.
  destruct (cache_round_trip "tri.txt" tri_disk tri_disk_cached tri_txt tri_graph)
    as [Hc Hre].
  - intros g. vm_compute. discriminate.
  - vm_compute. reflexivity.
  - apply not_elem_of_empty.
  - vm_compute. reflexivity.
  - split; [exact Hc|].
    destruct (Hre tri_cache_only) as [H1 H2]; [vm_compute; reflexivity|].
    destruct (Hre tri_disk_cached) as [_ H3]; [reflexivity|].
    auto.
Defined.

(** ** Critical node *)

(** Claim C8 fails as stated: a cache that parses cleanly is loaded as it
    is, here with one vertex and the decreasing [row_ptr = [5; 3]].  The
    only out-degree is -2, which is not above the initial [max_d = -1], so
    [obtenerNodoCritico] returns -1 on a loaded graph with
    [num_nodos > 0]: no vertex of [[0, num_nodos)]. *)
Theorem critical_node_odd_cache :
  load_new "odd.txt" odd_disk = Ok odd_graph
  /\ 0 < num_nodos odd_graph
  /\ obtenerNodoCritico odd_graph = Ok (-1, odd_graph)
  /\ query "odd.txt" odd_disk obtenerNodoCritico = Ok (-1).
Proof. repeat split; vm_compute; reflexivity. Qed.

(** Claim C8, amended.  On a graph whose [row_ptr] has the shape of the
    invariants: [num_nodos + 1] entries, all [int]s, the first 0, none
    below the one before it (every load built from text by a new object
    leaves it so: [text_load_row_ptr_ok]; a cache is not checked for it),
    [obtenerNodoCritico] returns -1 when [num_nodos = 0]; otherwise it
    returns a vertex [u] in range whose out-degree is at least that of
    every vertex and strictly above that of every lower vertex: the
    lowest vertex of maximal out-degree. *)
Theorem critical_node_spec (g : GrafoDisperso) :
  row_ptr_ok g = true ->
  exists u, obtenerNodoCritico g = Ok (u, g)
    /\ ((num_nodos g = 0 /\ u = -1)
        \/ (0 <= u < num_nodos g
            /\ (forall w, 0 <= w < num_nodos g -> out_degree g w <= out_degree g u)
            /\ (forall w, 0 <= w < u -> out_degree g w < out_degree g u))).
Proof.
  intros Hok. pose proof (num_nodos_int g Hok) as Hn.
  destruct (Z.eq_dec (num_nodos g) 0) as [H0|H0].
  - exists (-1). split; [apply critical_node_empty; assumption | left; auto].
  - destruct (critico_loop g Hok (Z.to_nat (num_nodos g))) as (st & Hst & Hinv); [lia|].
    rewrite Z2Nat.id in Hst, Hinv by lia.
    unfold obtenerNodoCritico. rewrite Hst. cbn [bind].
    exists (snd st). split; [reflexivity|]. right.
    destruct Hinv as [[Hz _] | (Hid & Hmd & Hall & Hlow)]; [lia|].
    rewrite <- Hmd. auto.
Qed.

Lemma critical_node_spec_witness :
  exists u, obtenerNodoCritico tie_graph = Ok (u, tie_graph)
    /\ ((num_nodos tie_graph = 0 /\ u = -1)
        \/ (0 <= u < num_nodos tie_graph
            /\ (forall w, 0 <= w < num_nodos tie_graph ->
                  out_degree tie_graph w <= out_degree tie_graph u)
            /\ (forall w, 0 <= w < u -> out_degree tie_graph w < out_degree tie_graph u))).
Proof. apply (critical_node_spec tie_graph). vm_compute. reflexivity. Defined.

(** ** Queries are read-only *)

(** Claim C9 fails as stated: the text [0 -1] is loaded with -1 in
    [col_indices], and [bfs 0 1] on the graph that this load leaves reads
    [vis[-1]], outside the vector: the behaviour is undefined, and
    nothing is known of the fields afterwards. *)
Theorem bfs_undefined_after_load :
  load_new "neg.txt" neg_target_disk = Ok (mkGrafo [0; 1] [-1] 1 1)
  /\ bfs 0 1 (mkGrafo [0; 1] [-1] 1 1) = Undefined
  /\ query "neg.txt" neg_target_disk (bfs 0 1) = Undefined.
Proof. repeat split; vm_compute; reflexivity. Qed.

(** [bfs] returns on a graph that satisfies the invariants, and leaves it
    as it was. *)
Lemma bfs_returns (g : GrafoDisperso) (startNode depth : Z) :
  csr_ok g = true -> 0 <= startNode -> is_int depth = true ->
  exists r, bfs startNode depth g = Ok (r, g).
Proof.
  intros Hok Hs Hd.
  destruct (Z_lt_ge_dec startNode (num_nodos g)) as [Hlt|Hge];
    [|exists []; apply bfs_start_beyond; lia].
  apply is_int_spec in Hd. pose proof (csr_row_ptr_ok g Hok) as Hrow.
  unfold bfs. destruct (Z.geb_spec startNode (num_nodos g)); [lia|].
  unfold vec_new. destruct (Z.ltb_spec (num_nodos g) 0); [lia|]. cbn [bind].
  set (vis0 := replicate (Z.to_nat (num_nodos g)) (-1)).
  assert (Hl0 : Z.of_nat (length vis0) = num_nodos g).
  { unfold vis0. rewrite length_replicate. lia. }
  rewrite vec_store_in by lia. cbn [bind].
  destruct (bfs_loop_ok g Hok depth (S (length vis0)) ltac:(lia) [] []
              {| vis := <[Z.to_nat startNode := 0]> vis0; q := [startNode]; res := [] |})
    as (st' & ex & Hloop & _).
  { split; simpl.
    - apply NoDup_singleton.
    - apply Forall_singleton. split; [lia|]. exists 0. split; [|lia].
      apply list_lookup_insert_eq. lia. }
  { simpl. rewrite length_insert. assumption. }
  { simpl. rewrite length_insert. lia. }
  { constructor. }
  { intros x Hx. inversion Hx. }
  { reflexivity. }
  rewrite Hloop. cbn [bind]. eauto.
Qed.

(** Claim C9, amended.  On a graph that satisfies the CSR invariants, for
    every start vertex that is not negative and every [int] depth, the
    four queries return and do not modify the graph: [getNumNodos] and
    [getNumAristas] hand back the field, [obtenerNodoCritico] and [bfs]
    hand back a result, and each of them leaves [num_nodos],
    [num_aristas], [row_ptr] and [col_indices] as they were.  The queries
    check nothing of this themselves. *)
Theorem queries_preserve_graph (g : GrafoDisperso) (startNode depth : Z) :
  csr_ok g = true -> 0 <= startNode -> is_int depth = true ->
  getNumNodos g = Ok (num_nodos g, g)
  /\ getNumAristas g = Ok (num_aristas g, g)
  /\ (exists u, obtenerNodoCritico g = Ok (u, g))
  /\ (exists r, bfs startNode depth g = Ok (r, g)).
Proof.
  intros Hok Hs Hd. split; [reflexivity|]. split; [reflexivity|]. split.
  - pose proof (csr_row_ptr_ok g Hok) as Hrow. pose proof (num_nodos_int g Hrow) as Hn.
    destruct (Z.eq_dec (num_nodos g) 0) as [H0|H0].
    + exists (-1). apply critical_node_empty; assumption.
    + destruct (critico_loop g Hrow (Z.to_nat (num_nodos g))) as (st & Hst & _); [lia|].
      rewrite Z2Nat.id in Hst by lia.
      unfold obtenerNodoCritico. rewrite Hst. cbn [bind]. eauto.
  - apply bfs_returns; assumption.
Qed.

Lemma queries_preserve_graph_witness :
  getNumNodos tri_graph = Ok (num_nodos tri_graph, tri_graph)
  /\ getNumAristas tri_graph = Ok (num_aristas tri_graph, tri_graph)
  /\ (exists u, obtenerNodoCritico tri_graph = Ok (u, tri_graph))
  /\ (exists r, bfs 2 10 tri_graph = Ok (r, tri_graph)).
Proof.
  apply (queries_preserve_graph tri_graph 2 10).
  - vm_compute. reflexivity.
  - lia.
  - vm_compute. reflexivity.
Defined.

(** ** Each stored edge is emitted at most once *)

(** Claim C10. On a graph that satisfies the CSR invariants, for every
    start vertex in range and every [int] depth, [bfs] returns, and its
    result lists pairs coming from pairwise distinct positions [ps] of
    [col_indices]: each position contributes at most one pair, so the
    result is at most [num_aristas] long. *)
Theorem bfs_edges_once (g : GrafoDisperso) (startNode depth : Z) :
  csr_ok g = true ->
  0 <= startNode < num_nodos g ->
  is_int depth = true ->
  exists (r : list (Z * Z)) (ps : list Z),
    bfs startNode depth g = Ok (r, g)
    /\ NoDup ps
    /\ Forall (fun i => 0 <= i < num_aristas g) ps
    /\ Forall2 (emitted_at g) ps r
    /\ Z.of_nat (length r) <= num_aristas g.
Proof.
  intros Hok Hs Hd. apply is_int_spec in Hd.
  pose proof (csr_row_ptr_ok g Hok) as Hrow.
  unfold bfs. destruct (Z.geb_spec startNode (num_nodos g)); [lia|].
  unfold vec_new. destruct (Z.ltb_spec (num_nodos g) 0); [lia|]. cbn [bind].
  set (vis0 := replicate (Z.to_nat (num_nodos g)) (-1)).
  assert (Hl0 : Z.of_nat (length vis0) = num_nodos g).
  { unfold vis0. rewrite length_replicate. lia. }
  rewrite vec_store_in by lia. cbn [bind].
  destruct (bfs_loop_ok g Hok depth (S (length vis0)) ltac:(lia) [] []
              {| vis := <[Z.to_nat startNode := 0]> vis0; q := [startNode]; res := [] |})
    as (st' & ex & Hloop & Hnd & Hrange & Hres).
  { split; simpl.
    - apply NoDup_singleton.
    - apply Forall_singleton. split; [lia|]. exists 0. split; [|lia].
      apply list_lookup_insert_eq. lia. }
  { simpl. rewrite length_insert. assumption. }
  { simpl. rewrite length_insert. lia. }
  { constructor. }
  { intros x Hx. inversion Hx. }
  { reflexivity. }
  rewrite Hloop. cbn [bind].
  exists (res st'), (ex ≫= row_positions g).
  assert (Hps : Forall (fun i => 0 <= i < num_aristas g) (ex ≫= row_positions g)).
  { apply Forall_forall. intros i Hi. apply list_elem_of_bind in Hi as (u & Hi & Hu).
    apply (row_positions_range g Hok u i); auto. }
  assert (Hndps : NoDup (ex ≫= row_positions g)).
  { apply NoDup_bind; [| |assumption].
    - intros x1 x2 y Hx1 Hx2 Hy1 Hy2.
      apply (row_positions_disjoint g x1 x2 y); auto.
    - intros x _. apply NoDup_seqZ. }
  assert (Hem : Forall2 (emitted_at g) (ex ≫= row_positions g) (res st')).
  { rewrite Hres. apply emitted_rows. }
  split; [reflexivity|]. split; [assumption|]. split; [assumption|].
  split; [assumption|].
  apply Forall2_length in Hem. rewrite <- Hem.
  assert (Hsub : ex ≫= row_positions g ⊆+ seqZ 0 (num_aristas g)).
  { apply NoDup_submseteq; [assumption|].
    intros i Hi. apply elem_of_seqZ. rewrite Forall_forall in Hps.
    apply Hps in Hi. lia. }
  apply submseteq_length in Hsub. rewrite length_seqZ in Hsub.
  pose proof (row_ptr_bounds g Hok 0). lia.
Qed.

Lemma bfs_edges_once_witness :
  exists (r : list (Z * Z)) (ps : list Z),
    bfs 0 10 tri_graph = Ok (r, tri_graph)
    /\ NoDup ps
    /\ Forall (fun i => 0 <= i < num_aristas tri_graph) ps
    /\ Forall2 (emitted_at tri_graph) ps r
    /\ Z.of_nat (length r) <= num_aristas tri_graph.
Proof.
  apply (bfs_edges_once tri_graph 0 10).
  - vm_compute. reflexivity.
  - simpl. lia.
  - vm_compute. reflexivity.
Defined.

(** * Further properties of the code *)

(** ** Reading and writing the cache *)

Lemma read_enough (n : nat) (s : istream) :
  good s = true -> (n <= length (rest s))%nat ->
  read n s = (advance n s, take n (rest s))
  /\ good (advance n s) = true /\ rest (advance n s) = drop n (rest s).
Proof.
  intros Hg Hn. unfold read. rewrite Hg.
  rewrite length_take, Nat.min_l by assumption. rewrite Nat.ltb_irrefl.
  split; [reflexivity|]. split; [exact Hg | apply rest_advance].
Qed.

Lemma read_short (n : nat) (s : istream) :
  (length (rest s) < n)%nat -> good (fst (read n s)) = false.
Proof.
  intros Hn. unfold read. destruct (good s) eqn:Hg.
  - rewrite length_take, Nat.min_r by lia.
    destruct (Nat.ltb_spec (length (rest s)) n); [|lia].
    unfold good. simpl. reflexivity.
  - unfold good in *. simpl. rewrite andb_false_r. reflexivity.
Qed.

Lemma read_not_good (n : nat) (s : istream) :
  good s = false -> good (fst (read n s)) = false.
Proof.
  intros Hg. unfold read. rewrite Hg. unfold good. simpl. apply andb_false_r.
Qed.

Lemma int_of_bytes_take (n : nat) (b : list ascii) :
  (4 <= n)%nat -> int_of_bytes (take n b) = int_of_bytes b.
Proof.
  intros Hn. unfold int_of_bytes. rewrite take_take, Nat.min_l by assumption. reflexivity.
Qed.

Lemma vec_of_bytes_take (n : nat) : forall (m : nat) (b : list ascii),
  (4 * n <= m)%nat -> vec_of_bytes n (take m b) = vec_of_bytes n b.
Proof.
  induction n as [|n IH]; intros m b Hm; [reflexivity|].
  cbn [vec_of_bytes]. f_equal.
  - apply int_of_bytes_take. lia.
  - rewrite <- (IH (m - 4)%nat (drop 4 b)) by lia.
    f_equal. rewrite take_drop_commute. replace (4 + (m - 4))%nat with m by lia. reflexivity.
Qed.

Lemma vec_resize_Ok (v : list Z) (n : Z) :
  0 <= n -> exists v', vec_resize v n = Ok v' /\ length v' = Z.to_nat n.
Proof.
  intros Hn. unfold vec_resize. destruct (Z.ltb_spec n 0); [lia|].
  eexists; split; [reflexivity|].
  rewrite length_app, length_take, length_replicate. lia.
Qed.

Lemma length_int_bytes (z : Z) : length (int_bytes z) = 4%nat.
Proof. reflexivity. Qed.

Lemma cargarDesdeCache_header (cacheFile : string) (fs : disk) (data : list ascii)
    (g0 : GrafoDisperso) :
  files fs !! cacheFile = Some data ->
  (8 <= length data)%nat ->
  -1 <= int_of_bytes data < INT_MAX ->
  0 <= int_of_bytes (drop 4 data) ->
  exists rp ci,
    length rp = Z.to_nat (int_of_bytes data + 1)
    /\ length ci = Z.to_nat (int_of_bytes (drop 4 data))
    /\ cargarDesdeCache cacheFile fs g0 =
       (let in2 := advance 4 (advance 4 (open_stream data)) in
        let '(in3, b3) := read (length rp * 4) in2 in
        let rp' := vec_of_bytes (length rp) (overlay b3 (vec_bytes rp)) in
        let '(in4, b4) := read (length ci * 4) in3 in
        let ci' := vec_of_bytes (length ci) (overlay b4 (vec_bytes ci)) in
        Ok (good in4,
            {| row_ptr := rp'; col_indices := ci';
               num_nodos := int_of_bytes data;
               num_aristas := int_of_bytes (drop 4 data) |})).
Proof.
  intros Hf Hlen Hnn Hna. unfold cargarDesdeCache. rewrite Hf.
  set (in0 := open_stream data).
  assert (Hr0 : rest in0 = data) by reflexivity.
  destruct (read_enough 4 in0) as (R1 & G1 & T1); [reflexivity | rewrite Hr0; lia |].
  rewrite R1. clear R1.
  destruct (read_enough 4 (advance 4 in0)) as (R2 & G2 & T2);
    [assumption | rewrite T1, Hr0, length_drop; lia |].
  rewrite R2. clear R2.
  rewrite !overlay_full
    by (rewrite length_int_bytes, length_take; rewrite ?T1, ?Hr0, ?length_drop; lia).
  rewrite T1, Hr0. rewrite !int_of_bytes_take by lia.
  rewrite int_add_in by (unfold INT_MIN, INT_MAX in *; lia). cbn [bind].
  destruct (vec_resize_Ok (row_ptr g0) (int_of_bytes data + 1)) as (rp & Hrp & Lrp); [lia|].
  destruct (vec_resize_Ok (col_indices g0) (int_of_bytes (drop 4 data)))
    as (ci & Hci & Lci); [lia|].
  rewrite Hrp, Hci. cbn [bind].
  exists rp, ci. split; [assumption|]. split; [assumption|]. reflexivity.
Qed.

(** The length of the file decides whether a cache is accepted. *)
Lemma cargarDesdeCache_by_length (cacheFile : string) (fs : disk) (data : list ascii)
    (g0 : GrafoDisperso) :
  files fs !! cacheFile = Some data ->
  (8 <= length data)%nat ->
  -1 <= int_of_bytes data < INT_MAX ->
  0 <= int_of_bytes (drop 4 data) ->
  exists g,
    cargarDesdeCache cacheFile fs g0 =
      Ok (bool_decide (cache_size (int_of_bytes data) (int_of_bytes (drop 4 data))
                       <= length data)%nat, g)
    /\ num_nodos g = int_of_bytes data
    /\ num_aristas g = int_of_bytes (drop 4 data)
    /\ ((cache_size (int_of_bytes data) (int_of_bytes (drop 4 data)) <= length data)%nat ->
        g = decode_cache data).
Proof.
  intros Hf Hlen Hnn Hna.
  destruct (cargarDesdeCache_header cacheFile fs data g0 Hf Hlen Hnn Hna)
    as (rp & ci & Lrp & Lci & ->).
  set (nn := int_of_bytes data) in *. set (na := int_of_bytes (drop 4 data)) in *.
  set (in2 := advance 4 (advance 4 (open_stream data))).
  assert (G2 : good in2 = true) by reflexivity.
  assert (T2 : rest in2 = drop 8 data).
  { unfold in2. rewrite !rest_advance. unfold rest. simpl. rewrite drop_0, drop_drop.
    reflexivity. }
  cbv zeta. unfold cache_size.
  destruct (le_lt_dec (length rp * 4) (length (rest in2))) as [H3|H3].
  - destruct (read_enough (length rp * 4) in2 G2 H3) as (R3 & G3 & T3).
    rewrite R3. clear R3.
    destruct (le_lt_dec (length ci * 4) (length (rest (advance (length rp * 4) in2))))
      as [H4|H4].
    + destruct (read_enough (length ci * 4) _ G3 H4) as (R4 & G4 & T4).
      rewrite R4, G4. clear R4.
      rewrite T3, T2, length_drop, length_drop in H4. rewrite T2, length_drop in H3.
      assert (Hyes : (8 + 4 * Z.to_nat (nn + 1) + 4 * Z.to_nat na <= length data)%nat)
        by lia.
      rewrite (bool_decide_eq_true_2 _ Hyes).
      eexists. split; [reflexivity|]. split; [reflexivity|]. split; [reflexivity|].
      intros _. unfold decode_cache. fold nn na.
      rewrite !overlay_full by (rewrite length_vec_bytes, length_take;
                                rewrite ?T3, ?T2, ?length_drop; lia).
      rewrite T3, T2. rewrite !vec_of_bytes_take by lia.
      rewrite drop_drop. rewrite Lrp, Lci. f_equal. f_equal. f_equal. lia.
    + pose proof (read_short (length ci * 4) _ H4) as B4.
      destruct (read (length ci * 4) (advance (length rp * 4) in2)) as [in4 b4].
      simpl in B4. rewrite B4.
      rewrite T3, T2, length_drop, length_drop in H4. rewrite T2, length_drop in H3.
      assert (Hno : ~ (8 + 4 * Z.to_nat (nn + 1) + 4 * Z.to_nat na <= length data)%nat)
        by lia.
      rewrite (bool_decide_eq_false_2 _ Hno).
      eexists. split; [reflexivity|]. split; [reflexivity|]. split; [reflexivity|].
      intros Hle. contradiction.
  - pose proof (read_short (length rp * 4) _ H3) as B3.
    destruct (read (length rp * 4) in2) as [in3 b3]. simpl in B3.
    pose proof (read_not_good (length ci * 4) _ B3) as B4.
    destruct (read (length ci * 4) in3) as [in4 b4]. simpl in B4. rewrite B4.
    rewrite T2, length_drop in H3.
    assert (Hno : ~ (8 + 4 * Z.to_nat (nn + 1) + 4 * Z.to_nat na <= length data)%nat)
      by lia.
    rewrite (bool_decide_eq_false_2 _ Hno).
    eexists. split; [reflexivity|]. split; [reflexivity|]. split; [reflexivity|].
    intros Hle. contradiction.
Qed.

(** Property X1.
    [cargarDesdeCache] on a file of at least 8 bytes whose header holds a
    [num_nodos] from -1 to [INT_MAX - 1] and a [num_aristas] that is not
    negative: the two fields are overwritten with the header, and the
    call returns true exactly when the file holds the bytes that the
    header announces.  It then leaves the state that these bytes stand
    for: bytes after them are not looked at, and what the object held
    before does not matter. *)
Theorem cache_accepted_by_length (cacheFile : string) (fs : disk) (data : list ascii)
    (g0 : GrafoDisperso) :
  files fs !! cacheFile = Some data ->
  (8 <= length data)%nat ->
  -1 <= int_of_bytes data < INT_MAX ->
  0 <= int_of_bytes (drop 4 data) ->
  exists g,
    cargarDesdeCache cacheFile fs g0 =
      Ok (bool_decide (cache_size (int_of_bytes data) (int_of_bytes (drop 4 data))
                       <= length data)%nat, g)
    /\ num_nodos g = int_of_bytes data
    /\ num_aristas g = int_of_bytes (drop 4 data)
    /\ ((cache_size (int_of_bytes data) (int_of_bytes (drop 4 data)) <= length data)%nat ->
        g = decode_cache data).
Proof.
  apply cargarDesdeCache_by_length.
Qed.

Lemma cache_accepted_by_length_witness :
  exists g,
    cargarDesdeCache "tri.txt.bin" tri_disk_cached odd_graph =
      Ok (bool_decide
            (cache_size (int_of_bytes (cache_image tri_graph))
                        (int_of_bytes (drop 4 (cache_image tri_graph)))
             <= length (cache_image tri_graph))%nat, g)
    /\ num_nodos g = int_of_bytes (cache_image tri_graph)
    /\ num_aristas g = int_of_bytes (drop 4 (cache_image tri_graph))
    /\ ((cache_size (int_of_bytes (cache_image tri_graph))
                    (int_of_bytes (drop 4 (cache_image tri_graph)))
         <= length (cache_image tri_graph))%nat ->
        g = decode_cache (cache_image tri_graph)).
Proof.
  apply (cache_accepted_by_length "tri.txt.bin" tri_disk_cached
           (cache_image tri_graph) odd_graph).
  - vm_compute. reflexivity.
  - simpl. lia.
  - vm_compute. split; [discriminate | reflexivity].
  - vm_compute. discriminate.
Defined.

Lemma cargarDesdeCache_sizes (cacheFile : string) (fs : disk) (data : list ascii)
    (g0 : GrafoDisperso) :
  files fs !! cacheFile = Some data ->
  (8 <= length data)%nat ->
  (int_of_bytes data = INT_MAX -> cargarDesdeCache cacheFile fs g0 = Undefined)
  /\ (int_of_bytes data < -1 -> cargarDesdeCache cacheFile fs g0 = Thrown)
  /\ (-1 <= int_of_bytes data < INT_MAX -> int_of_bytes (drop 4 data) < 0 ->
      cargarDesdeCache cacheFile fs g0 = Thrown).
Proof.
  intros Hf Hlen.
  assert (Hgen : cargarDesdeCache cacheFile fs g0 =
    let* n1 := int_add (int_of_bytes data) 1 in
    let* rp := vec_resize (row_ptr g0) n1 in
    let* ci := vec_resize (col_indices g0) (int_of_bytes (drop 4 data)) in
    let in2 := advance 4 (advance 4 (open_stream data)) in
    let '(in3, b3) := read (length rp * 4) in2 in
    let rp' := vec_of_bytes (length rp) (overlay b3 (vec_bytes rp)) in
    let '(in4, b4) := read (length ci * 4) in3 in
    let ci' := vec_of_bytes (length ci) (overlay b4 (vec_bytes ci)) in
    Ok (good in4,
        {| row_ptr := rp'; col_indices := ci';
           num_nodos := int_of_bytes data;
           num_aristas := int_of_bytes (drop 4 data) |})).
  { unfold cargarDesdeCache. rewrite Hf.
    set (in0 := open_stream data).
    assert (Hr0 : rest in0 = data) by reflexivity.
    destruct (read_enough 4 in0) as (R1 & G1 & T1); [reflexivity | rewrite Hr0; lia |].
    rewrite R1. clear R1.
    destruct (read_enough 4 (advance 4 in0)) as (R2 & G2 & T2);
      [assumption | rewrite T1, Hr0, length_drop; lia |].
    rewrite R2. clear R2.
    rewrite !overlay_full
      by (rewrite length_int_bytes, length_take; rewrite ?T1, ?Hr0, ?length_drop; lia).
    rewrite T1, Hr0. rewrite !int_of_bytes_take by lia. reflexivity. }
  rewrite Hgen. clear Hgen. split; [|split].
  - intros ->. reflexivity.
  - intros Hneg. pose proof (int_of_bytes_int data) as Hi. apply is_int_spec in Hi.
    rewrite int_add_in by (unfold INT_MIN, INT_MAX in *; lia). cbn [bind].
    unfold vec_resize. destruct (Z.ltb_spec (int_of_bytes data + 1) 0); [|lia].
    reflexivity.
  - intros Hnn Hna.
    rewrite int_add_in by (unfold INT_MIN, INT_MAX in *; lia). cbn [bind].
    destruct (vec_resize_Ok (row_ptr g0) (int_of_bytes data + 1)) as (rp & -> & _); [lia|].
    cbn [bind]. unfold vec_resize.
    destruct (Z.ltb_spec (int_of_bytes (drop 4 data)) 0); [|lia]. reflexivity.
Qed.

(** Property X2.
    The sizes in the header of a cache are not checked.  With a cache of
    at least 8 bytes, [cargarDatos] does not fall back on the text when
    the header is out of range: [num_nodos = INT_MAX] overflows
    [num_nodos + 1] (undefined behaviour), and a [num_nodos] below -1 or a
    negative [num_aristas] makes [resize] throw out of [cargarDatos]. *)
Theorem cache_header_sizes_not_checked (filename : string) (fs : disk)
    (data : list ascii) (g0 : GrafoDisperso) :
  files fs !! (filename ++ ".bin")%string = Some data ->
  (8 <= length data)%nat ->
  (int_of_bytes data = INT_MAX -> cargarDatos filename fs g0 = Undefined)
  /\ (int_of_bytes data < -1 -> cargarDatos filename fs g0 = Thrown)
  /\ (-1 <= int_of_bytes data < INT_MAX -> int_of_bytes (drop 4 data) < 0 ->
      cargarDatos filename fs g0 = Thrown).
Proof.
  intros Hf Hlen.
  destruct (cargarDesdeCache_sizes _ fs data g0 Hf Hlen) as (H1 & H2 & H3).
  unfold cargarDatos, fileExists. rewrite Hf.
  split; [|split].
  - intros H. rewrite (H1 H). reflexivity.
  - intros H. rewrite (H2 H). reflexivity.
  - intros Ha Hb. rewrite (H3 Ha Hb). reflexivity.
Qed.

Lemma cache_header_sizes_not_checked_witness :
  (int_of_bytes neg_cache = INT_MAX ->
   cargarDatos "neg.txt" neg_cache_disk GrafoDisperso_new = Undefined)
  /\ (int_of_bytes neg_cache < -1 ->
      cargarDatos "neg.txt" neg_cache_disk GrafoDisperso_new = Thrown)
  /\ (-1 <= int_of_bytes neg_cache < INT_MAX -> int_of_bytes (drop 4 neg_cache) < 0 ->
      cargarDatos "neg.txt" neg_cache_disk GrafoDisperso_new = Thrown).
Proof.
  apply (cache_header_sizes_not_checked "neg.txt" neg_cache_disk neg_cache
           GrafoDisperso_new).
  - vm_compute. reflexivity.
  - simpl. lia.
Defined.

Lemma decode_cache_image (g : GrafoDisperso) (junk : list ascii) :
  storable g -> decode_cache (cache_image g ++ junk) = g.
Proof.
  intros (Hrp & Hci & Hnn & Hn1 & Hna & Hrl & Hcl).
  unfold decode_cache, cache_image. rewrite <- !app_assoc.
  rewrite int_bytes_inv by assumption.
  change 8%nat with (4 + 4)%nat. rewrite <- !drop_drop.
  rewrite (drop_app_length' (int_bytes (num_nodos g))) by reflexivity.
  rewrite int_bytes_inv by assumption.
  rewrite (drop_app_length' (int_bytes (num_aristas g))) by reflexivity.
  replace (Z.to_nat (num_nodos g + 1)) with (length (row_ptr g)) by lia.
  replace (Z.to_nat (num_aristas g)) with (length (col_indices g)) by lia.
  rewrite vec_bytes_inv by assumption.
  rewrite drop_app_length' by (rewrite length_vec_bytes; lia).
  rewrite vec_bytes_inv by assumption.
  destruct g; reflexivity.
Qed.

Lemma length_cache_image (g : GrafoDisperso) :
  length (cache_image g)
  = (8 + 4 * length (row_ptr g) + 4 * length (col_indices g))%nat.
Proof.
  unfold cache_image. rewrite !length_app, !length_vec_bytes, !length_int_bytes. lia.
Qed.

Lemma cargarDesdeCache_image_any (cacheFile : string) (fs : disk) (g g0 : GrafoDisperso)
    (junk : list ascii) :
  storable g ->
  files fs !! cacheFile = Some (cache_image g ++ junk) ->
  cargarDesdeCache cacheFile fs g0 = Ok (true, g).
Proof.
  intros Hs Hf. pose proof (decode_cache_image g junk Hs) as Hd.
  assert (Hnn : int_of_bytes (cache_image g ++ junk) = num_nodos g)
    by (rewrite <- Hd at 2; reflexivity).
  assert (Hna : int_of_bytes (drop 4 (cache_image g ++ junk)) = num_aristas g)
    by (rewrite <- Hd at 2; reflexivity).
  destruct Hs as (Hrp & Hci & Hi1 & Hi2 & Hi3 & Hrl & Hcl).
  apply is_int_spec in Hi2. unfold INT_MIN, INT_MAX in Hi2.
  pose proof (length_cache_image g) as Hlen.
  destruct (cargarDesdeCache_by_length cacheFile fs _ g0 Hf) as (g' & Hload & _ & _ & Hg').
  - rewrite length_app. lia.
  - rewrite Hnn. unfold INT_MAX. lia.
  - rewrite Hna. lia.
  - rewrite Hload. rewrite Hnn, Hna in *.
    assert (Hle : (cache_size (num_nodos g) (num_aristas g)
                   <= length (cache_image g ++ junk))%nat).
    { unfold cache_size. rewrite length_app. lia. }
    rewrite (bool_decide_eq_true_2 _ Hle). rewrite (Hg' Hle), Hd. reflexivity.
Qed.

(** Property X3.
    Round trip of the cache.  For a state whose fields are [int]s and
    whose vectors have the lengths [num_nodos + 1] and [num_aristas],
    [guardarCache] on a path that can be written returns true, touches no
    other file, and [cargarDesdeCache] then reads that state back into any
    object, whatever it held. *)
Theorem save_then_load (cacheFile : string) (fs : disk) (g g0 : GrafoDisperso) :
  storable g ->
  cacheFile ∉ locked fs ->
  exists fs',
    guardarCache cacheFile fs g = (true, fs')
    /\ cargarDesdeCache cacheFile fs' g0 = Ok (true, g)
    /\ (forall other, other <> cacheFile -> files fs' !! other = files fs !! other).
Proof.
  intros Hs Hw. unfold guardarCache. destruct (decide _) as [Hin|_]; [contradiction|].
  eexists. split; [reflexivity|]. split.
  - apply (cargarDesdeCache_image_any _ _ g g0 []); [assumption|].
    cbn [files]. rewrite app_nil_r. apply lookup_insert_eq.
  - intros other Hne. cbn [files]. apply lookup_insert_ne. congruence.
Qed.

Lemma save_then_load_witness :
  exists fs',
    guardarCache "tri.txt.bin" tri_disk tri_graph = (true, fs')
    /\ cargarDesdeCache "tri.txt.bin" fs' odd_graph = Ok (true, tri_graph)
    /\ (forall other, other <> "tri.txt.bin"%string ->
          files fs' !! other = files tri_disk !! other).
Proof.
  apply (save_then_load "tri.txt.bin" tri_disk tri_graph odd_graph).
  - apply csr_ok_storable. vm_compute. reflexivity.
  - apply not_elem_of_empty.
Defined.

(** Property X4.
    A cache hit is final.  When [filename.bin] begins with the image of a
    state (bytes after it do not matter), [cargarDatos] on any object ends
    in that state and leaves the disk as it is, whether the text file
    exists or not and whatever it holds: a text that was changed after the
    cache was written is not read again. *)
Theorem cache_hit_ignores_text (filename : string) (fs : disk) (g g0 : GrafoDisperso)
    (junk : list ascii) :
  storable g ->
  files fs !! (filename ++ ".bin")%string = Some (cache_image g ++ junk) ->
  cargarDatos filename fs g0 = Ok (fs, g).
Proof.
  intros Hs Hf. unfold cargarDatos, fileExists. rewrite Hf.
  rewrite (cargarDesdeCache_image_any _ fs g g0 junk Hs Hf). reflexivity.
Qed.

Lemma cache_hit_ignores_text_witness :
  cargarDatos "tri.txt" tri_disk_cached odd_graph = Ok (tri_disk_cached, tri_graph).
Proof.
  apply (cache_hit_ignores_text "tri.txt" tri_disk_cached tri_graph odd_graph []).
  - apply csr_ok_storable. vm_compute. reflexivity.
  - vm_compute. reflexivity.
Defined.

(** Property X5.
    A text file that cannot be opened.  With no cache file either,
    [cargarDatos] returns and leaves the object and the disk as they
    were.  With a cache file of at least 8 bytes whose header is in range
    ([num_nodos] from -1 to [INT_MAX - 1], [num_aristas] not negative),
    it returns as well, whether the cache is accepted or too short, and
    the object then holds the [num_nodos] and [num_aristas] of the
    header: what a cache read that failed has left is not undone.
    Whenever the call returns, the disk is as it was. *)
Theorem load_missing_file (filename : string) (fs : disk) (g0 : GrafoDisperso) :
  files fs !! filename = None ->
  (files fs !! (filename ++ ".bin")%string = None ->
   cargarDatos filename fs g0 = Ok (fs, g0))
  /\ (forall data : list ascii,
        files fs !! (filename ++ ".bin")%string = Some data ->
        (8 <= length data)%nat ->
        -1 <= int_of_bytes data < INT_MAX ->
        0 <= int_of_bytes (drop 4 data) ->
        exists g, cargarDatos filename fs g0 = Ok (fs, g)
          /\ num_nodos g = int_of_bytes data
          /\ num_aristas g = int_of_bytes (drop 4 data))
  /\ (forall fs' g, cargarDatos filename fs g0 = Ok (fs', g) -> fs' = fs).
Proof.
  intros Ht. unfold cargarDatos, fileExists. rewrite Ht. split; [|split].
  - intros ->. reflexivity.
  - intros data Hc Hlen Hnn Hna. rewrite Hc.
    destruct (cargarDesdeCache_by_length _ fs data g0 Hc Hlen Hnn Hna)
      as (g & Hload & Hn & Ha & _).
    rewrite Hload. cbn [bind]. exists g.
    destruct (bool_decide _); auto.
  - intros fs' g H. destruct (files fs !! (filename ++ ".bin")%string).
    + inv_bind. destruct a as [hit g1]. destruct hit; inversion H; reflexivity.
    + cbn [bind] in H. inversion H; reflexivity.
Qed.

Lemma load_missing_file_witness :
  cargarDatos "none.txt" tri_disk tri_graph = Ok (tri_disk, tri_graph)
  /\ exists g, cargarDatos "one.txt" cut_cache_only tri_graph = Ok (cut_cache_only, g)
       /\ num_nodos g = 3 /\ num_aristas g = 3.
Proof.
  split.
  - apply (load_missing_file "none.txt" tri_disk tri_graph); vm_compute; reflexivity.
  - destruct (load_missing_file "one.txt" cut_cache_only tri_graph) as (_ & H & _).
    + vm_compute. reflexivity.
    + apply (H cut_cache).
      * vm_compute. reflexivity.
      * vm_compute. lia.
      * vm_compute. split; [discriminate | reflexivity].
      * vm_compute. discriminate.
Defined.

(** Property X6.
    A cache that cannot be written goes unnoticed: the result of
    [guardarCache] is not looked at, and the outcome of [cargarDatos] and
    the graph that it leaves are the same whichever paths can be opened
    for writing. *)
Theorem cache_write_failure_silent (filename : string) (F : gmap string (list ascii))
    (L L' : gset string) (g0 : GrafoDisperso) :
  (let* r := cargarDatos filename (mkDisk F L) g0 in Ok (snd r))
  = (let* r := cargarDatos filename (mkDisk F L') g0 in Ok (snd r)).
Proof.
  unfold cargarDatos, fileExists, cargarDesdeCache. cbn [files].
  destruct (F !! (filename ++ ".bin")%string) as [data|]; cbn [bind].
  - match goal with |- bind (bind ?m _) _ = _ => destruct m as [[hit g1]| | |] end;
      cbn [bind]; try reflexivity.
    destruct hit; [reflexivity|].
    destruct (F !! filename); [|reflexivity].
    destruct (construir _ _); reflexivity.
  - destruct (F !! filename); [|reflexivity].
    destruct (construir _ _); reflexivity.
Qed.

(** Property X7.
    A load from text, no cache being present, changes one file at most:
    [filename.bin], which then holds the image of the state that the
    object ends in, or still does not exist when it cannot be written.
    The text file and every other file are left as they were. *)
Theorem text_load_writes_cache_only (filename : string) (fs fs' : disk)
    (text : list ascii) (g0 g : GrafoDisperso) :
  files fs !! (filename ++ ".bin")%string = None ->
  files fs !! filename = Some text ->
  cargarDatos filename fs g0 = Ok (fs', g) ->
  locked fs' = locked fs
  /\ (forall other, other <> (filename ++ ".bin")%string ->
        files fs' !! other = files fs !! other)
  /\ files fs' !! (filename ++ ".bin")%string
     = (if decide ((filename ++ ".bin")%string ∈ locked fs) then None
        else Some (cache_image g)).
Proof.
  intros Hc Ht Hload. rewrite (cargarDatos_text _ _ _ _ Hc Ht) in Hload.
  inv_bind. inversion Hload; subst; clear Hload.
  unfold guardarCache. destruct (decide _) as [Hin|Hout]; cbn [snd files locked].
  - split; [reflexivity|]. split; [reflexivity | assumption].
  - split; [reflexivity|]. split.
    + intros other Hne. apply lookup_insert_ne. congruence.
    + apply lookup_insert_eq.
Qed.

Lemma text_load_writes_cache_only_witness :
  locked tri_disk_cached = locked tri_disk
  /\ (forall other, other <> ("tri.txt" ++ ".bin")%string ->
        files tri_disk_cached !! other = files tri_disk !! other)
  /\ files tri_disk_cached !! ("tri.txt" ++ ".bin")%string
     = (if decide (("tri.txt" ++ ".bin")%string ∈ locked tri_disk) then None
        else Some (cache_image tri_graph)).
Proof.
  apply (text_load_writes_cache_only "tri.txt" tri_disk tri_disk_cached tri_txt
           GrafoDisperso_new tri_graph); vm_compute; reflexivity.
Defined.

(** ** What the traversal reaches *)

Lemma map_nth_seqZ (l : list Z) (n : nat) : forall a : nat,
  (a + n <= length l)%nat ->
  map (nth_Z l) (seqZ (Z.of_nat a) (Z.of_nat n)) = take n (drop a l).
Proof.
  induction n as [|n IH]; intros a Ha; [reflexivity|].
  rewrite seqZ_S, map_app, IH by lia. simpl map.
  destruct (lookup_lt_is_Some_2 l (a + n)) as [x Hx]; [lia|].
  rewrite (take_S_r _ _ x) by (rewrite lookup_drop; exact Hx).
  f_equal. f_equal. unfold nth_Z.
  replace (Z.to_nat (Z.of_nat a + Z.of_nat n)) with (a + n)%nat by lia.
  now rewrite Hx.
Qed.

Lemma neighbours_positions (g : GrafoDisperso) (u : Z) :
  csr_ok g = true -> 0 <= u < num_nodos g ->
  neighbours g u = map (nth_Z (col_indices g)) (row_positions g u).
Proof.
  intros Hok Hu. unfold neighbours, row_positions.
  pose proof (row_ptr_bounds g Hok u ltac:(lia)) as H1.
  pose proof (row_ptr_bounds g Hok (u + 1) ltac:(lia)) as H2.
  pose proof (out_degree_nonneg g (csr_row_ptr_ok g Hok) u Hu) as H3.
  pose proof (col_indices_length g Hok) as H4. unfold out_degree in *.
  rewrite <- (Z2Nat.id (nth_Z (row_ptr g) u)) at 3 by lia.
  rewrite <- (Z2Nat.id (nth_Z (row_ptr g) (u + 1) - nth_Z (row_ptr g) u)) at 2 by lia.
  rewrite map_nth_seqZ by lia. reflexivity.
Qed.

Lemma keeps_refl (l vs : list Z) : keeps l vs vs.
Proof. intros x _. reflexivity. Qed.

Lemma nth_Z_insert_ne (vs : list Z) (v x y : Z) :
  0 <= v -> 0 <= x -> x <> v -> nth_Z (<[Z.to_nat v := y]> vs) x = nth_Z vs x.
Proof.
  intros Hv Hx Hne. unfold nth_Z. rewrite list_lookup_insert_ne by lia. reflexivity.
Qed.

Lemma nth_Z_insert_eq (vs : list Z) (v y : Z) :
  0 <= v < Z.of_nat (length vs) -> nth_Z (<[Z.to_nat v := y]> vs) v = y.
Proof.
  intros Hv. unfold nth_Z. rewrite list_lookup_insert_eq by lia. reflexivity.
Qed.

Lemma visited_level (vs : list Z) (x : Z) : visited vs x -> 0 <= nth_Z vs x.
Proof. intros (_ & l & Hl & Hl0). unfold nth_Z. now rewrite Hl. Qed.

Section Levels.

Variable g : GrafoDisperso.

Variables s depth : Z.

Hypothesis Hok : csr_ok g = true.

(** One position of the row of [u], which has left the queue at level [m]. *)
Lemma bfs_visit_levels (done D : list Z) (u m i : Z) (st st' : bfs_state) :
  bfs_inv done st -> u ∈ done ->
  Z.of_nat (length (vis st)) = num_nodos g ->
  nth_Z (vis st) u = m ->
  levels_inv g s m done st ->
  (forall x, x ∈ D -> x ∈ done) ->
  closed g depth (vis st) (done ++ q st) D ->
  i ∈ row_positions g u ->
  bfs_visit g u st i = Ok st' ->
  res st' = res st ++ [edge_at g u i]
  /\ levels_inv g s m done st'
  /\ closed g depth (vis st') (done ++ q st') D
  /\ keeps (done ++ q st) (vis st) (vis st')
  /\ (forall x, x ∈ done ++ q st -> x ∈ done ++ q st')
  /\ nth_Z (col_indices g) i ∈ done ++ q st'
  /\ nth_Z (vis st') (nth_Z (col_indices g) i) <= m + 1.
Proof using Hok.
  intros Hinv Hu Hlen Hm (Htwo & Hdone & Hmark & Hwalk) HD Hcl Hi H.
  assert (Hur : 0 <= u < num_nodos g).
  { destruct Hinv as [_ Hall]. rewrite Forall_forall in Hall.
    assert (Hin : u ∈ done ++ q st) by (apply elem_of_app; auto).
    apply Hall, visited_lt in Hin. lia. }
  pose proof (row_positions_range g Hok u i Hur Hi) as [Hrow Hir].
  pose proof (col_indices_range g Hok i Hir) as Hv.
  pose proof (col_indices_length g Hok) as Hcl0.
  assert (Hnb : nth_Z (col_indices g) i ∈ neighbours g u).
  { rewrite neighbours_positions by assumption. apply list_elem_of_fmap.
    exists i. auto. }
  unfold bfs_visit in H. rewrite vec_at_in in H by lia. cbn [bind] in H.
  unfold edge_at.
  set (v := nth_Z (col_indices g) i) in *.
  rewrite (vec_at_in (vis st) v) in H by lia. cbn [bind] in H.
  destruct Hinv as [Hnd Hall]. rewrite Forall_forall in Hall.
  rewrite Forall_forall in Hdone, Hwalk.
  destruct (Z.eqb_spec (nth_Z (vis st) v) (-1)) as [Hfresh|Hseen].
  - rewrite (vec_at_in (vis st) u) in H by lia. cbn [bind] in H. rewrite Hm in H.
    inv_bind. apply int_add_Ok in E as [-> _]. apply vec_store_Ok in E0 as [_ ->].
    inversion H; subst st'; clear H. unfold levels_inv. cbn [vis q res].
    assert (Hnew : v ∉ done ++ q st).
    { intros Hin. apply Hall, visited_level in Hin. lia. }
    assert (Hkeep : keeps (done ++ q st) (vis st) (<[Z.to_nat v := m + 1]> (vis st))).
    { intros x Hx. apply nth_Z_insert_ne; [lia| |congruence].
      apply Hall in Hx. destruct Hx; lia. }
    assert (Hvl : nth_Z (<[Z.to_nat v := m + 1]> (vis st)) v = m + 1)
      by (apply nth_Z_insert_eq; lia).
    assert (Hm0 : 0 <= m).
    { rewrite <- Hm. apply visited_level, Hall, elem_of_app. auto. }
    split; [reflexivity|]. split; [|split; [|split; [|split; [|split]]]].
    + split; [|split; [|split]].
      * destruct Htwo as (A & B & Hq & HA & HB). exists A, (B ++ [v]).
        split; [rewrite Hq, app_assoc; reflexivity|].
        rewrite Forall_forall in HA, HB.
        split; apply Forall_forall; intros x Hx.
        -- rewrite Hkeep; [auto|]. rewrite Hq. rewrite !elem_of_app. auto.
        -- apply elem_of_app in Hx as [Hx|Hx].
           ++ rewrite Hkeep; [auto|]. rewrite Hq. rewrite !elem_of_app. auto.
           ++ apply list_elem_of_singleton in Hx. subst x. assumption.
      * apply Forall_forall. intros x Hx.
        rewrite Hkeep; [auto|]. apply elem_of_app. auto.
      * intros x Hx. destruct (Z.eq_dec x v) as [->|Hne].
        -- right. rewrite !elem_of_app. right. right. constructor.
        -- destruct (Hmark x Hx) as [Hx1|Hx1].
           ++ left. rewrite nth_Z_insert_ne by lia. assumption.
           ++ right. rewrite app_assoc. apply elem_of_app. auto.
      * rewrite app_assoc. apply Forall_app. split.
        -- apply Forall_forall. intros x Hx.
           rewrite Hkeep by assumption. auto.
        -- apply Forall_singleton. rewrite Hvl.
           replace (Z.to_nat (m + 1)) with (S (Z.to_nat m)) by lia.
           apply (walk_step g s _ u v); [|assumption|assumption].
           rewrite <- Hm. apply Hwalk. apply elem_of_app. auto.
    + intros a b Ha Hlt Hb.
      assert (Hain : a ∈ done ++ q st) by (apply elem_of_app; auto).
      rewrite (Hkeep a Hain) in *.
      destruct (Hcl a b Ha Hlt Hb) as [Hbin Hble].
      rewrite (Hkeep b Hbin). split; [|assumption].
      rewrite app_assoc. apply elem_of_app. auto.
    + assumption.
    + intros x Hx. rewrite app_assoc. apply elem_of_app. auto.
    + rewrite app_assoc. apply elem_of_app. right. constructor.
    + lia.
  - inversion H; subst st'; clear H. unfold levels_inv. cbn [vis q res].
    assert (Hvin : v ∈ done ++ q st).
    { destruct (Hmark v ltac:(lia)) as [?|?]; [contradiction | assumption]. }
    split; [reflexivity|]. split; [|split; [|split; [|split; [|split]]]].
    + split; [assumption|]. split; [apply Forall_forall; assumption|].
      split; [assumption | apply Forall_forall; assumption].
    + assumption.
    + apply keeps_refl.
    + auto.
    + assumption.
    + apply elem_of_app in Hvin as [Hd|Hq].
      * specialize (Hdone v Hd). simpl in Hdone. lia.
      * destruct Htwo as (A & B & HAB & HA & HB). rewrite HAB in Hq.
        rewrite Forall_forall in HA, HB.
        apply elem_of_app in Hq as [Hq|Hq]; [apply HA in Hq | apply HB in Hq]; lia.
Qed.

(** The positions [l] of the row of [u]. *)
Lemma bfs_row_levels (done D : list Z) (u m : Z) (l : list Z) :
  u ∈ done -> (forall x, x ∈ D -> x ∈ done) ->
  (forall i, i ∈ l -> i ∈ row_positions g u) ->
  forall st st',
  bfs_inv done st ->
  Z.of_nat (length (vis st)) = num_nodos g ->
  nth_Z (vis st) u = m ->
  levels_inv g s m done st ->
  closed g depth (vis st) (done ++ q st) D ->
  for_each (bfs_visit g u) l st = Ok st' ->
  res st' = res st ++ map (edge_at g u) l
  /\ bfs_inv done st'
  /\ length (vis st') = length (vis st)
  /\ levels_inv g s m done st'
  /\ closed g depth (vis st') (done ++ q st') D
  /\ keeps (done ++ q st) (vis st) (vis st')
  /\ (forall x, x ∈ done ++ q st -> x ∈ done ++ q st')
  /\ (forall i, i ∈ l -> nth_Z (col_indices g) i ∈ done ++ q st'
                         /\ nth_Z (vis st') (nth_Z (col_indices g) i) <= m + 1).
Proof using Hok.
  intros Hu HD. induction l as [|i l IH]; intros Hl st st' Hinv Hlen Hm Hlv Hcl H.
  - simpl in H. inversion H; subst st'; clear H. rewrite app_nil_r.
    split; [reflexivity|]. split; [assumption|]. split; [reflexivity|].
    split; [assumption|]. split; [assumption|]. split; [apply keeps_refl|].
    split; [auto|]. intros i Hi. inversion Hi.
  - simpl in H. inv_bind. rename a into st1.
    destruct (bfs_visit_levels done D u m i st st1 Hinv Hu Hlen Hm Hlv HD Hcl
                ltac:(apply Hl; constructor) E)
      as (Hr1 & Hlv1 & Hcl1 & Hk1 & Hsub1 & Hv1 & Hvl1).
    destruct (bfs_visit_inv g done u i st st1 Hinv Hu E) as (Hinv1 & Hlen1 & _).
    assert (Hu1 : u ∈ done ++ q st) by (apply elem_of_app; auto).
    destruct (IH ltac:(intros j Hj; apply Hl; constructor; exact Hj) st1 st' Hinv1
                ltac:(congruence) ltac:(rewrite (Hk1 u Hu1); exact Hm) Hlv1 Hcl1 H)
      as (Hr2 & Hinv2 & Hlen2 & Hlv2 & Hcl2 & Hk2 & Hsub2 & Hrow2).
    split; [rewrite Hr2, Hr1, <- app_assoc; reflexivity|].
    split; [assumption|]. split; [congruence|]. split; [assumption|].
    split; [assumption|]. split; [|split].
    + intros x Hx. rewrite (Hk2 x (Hsub1 x Hx)). apply Hk1. assumption.
    + auto.
    + intros j Hj. apply elem_of_cons in Hj as [->|Hj]; [|auto].
      split; [auto|]. rewrite (Hk2 _ Hv1). assumption.
Qed.

Lemma vec_at_nth (v : list Z) (i x : Z) : vec_at v i = Ok x -> x = nth_Z v i.
Proof. intros H. apply vec_at_Ok in H as [_ H]. unfold nth_Z. now rewrite H. Qed.

(** Taking [u] from the front of the queue. *)
Lemma levels_pop (done : list Z) (u m : Z) (vs qs : list Z) (rs : list (Z * Z)) :
  levels_inv g s m done {| vis := vs; q := u :: qs; res := rs |} ->
  levels_inv g s (nth_Z vs u) (done ++ [u]) {| vis := vs; q := qs; res := rs |}.
Proof.
  intros (Htwo & Hdone & Hmark & Hwalk). unfold levels_inv in *. cbn [vis q res] in *.
  rewrite <- app_assoc. cbn [app].
  destruct Htwo as (A & B & HAB & HA & HB).
  destruct A as [|a A].
  - destruct B as [|b B]; [discriminate|]. simpl in HAB. inversion HAB; subst b qs.
    inversion HB as [|? ? Hu HB']; subst. rewrite Hu.
    split; [|split; [|split; assumption]].
    + exists B, []. rewrite app_nil_r. split; [reflexivity|]. split; [assumption|constructor].
    + apply Forall_app. split.
      * eapply Forall_impl; [exact Hdone|]. simpl. intros; lia.
      * apply Forall_singleton. lia.
  - simpl in HAB. inversion HAB; subst a qs.
    inversion HA as [|? ? Hu HA']; subst. 
    split; [|split; [|split; assumption]].
    + exists A, B. auto.
    + apply Forall_app. split; [assumption|]. apply Forall_singleton. lia.
Qed.

(** The [while] loop of [bfs]. *)
Lemma bfs_loop_levels (fuel : nat) :
  forall done ex st st',
  search_inv g s depth done ex st ->
  bfs_loop fuel g depth st = Ok st' ->
  exists done' ex',
    q st' = [] /\ search_inv g s depth done' ex' st'
    /\ keeps (done ++ q st) (vis st) (vis st')
    /\ (forall x, x ∈ done ++ q st -> x ∈ done').
Proof using Hok.
  induction fuel as [|fuel IH]; intros done ex st st' Hs H.
  - simpl in H. destruct (q st) eqn:Hq; [|discriminate]. inversion H; subst st'.
    exists done, ex. rewrite Hq, app_nil_r. split; [reflexivity|].
    split; [assumption|]. split; [apply keeps_refl | auto].
  - destruct st as [vs qs rs]. destruct qs as [|u qs].
    { simpl in H. inversion H; subst st'. exists done, ex. cbn [q vis]. rewrite app_nil_r.
      split; [reflexivity|]. split; [assumption|]. split; [apply keeps_refl | auto]. }
    cbn [bfs_loop q vis res] in H.
    destruct Hs as (Hinv & Hlen & (m & Hlv) & Hcl & Hexnd & Hex & Hres).
    cbn [q vis res] in *.
    assert (Hinv1 : bfs_inv (done ++ [u]) {| vis := vs; q := qs; res := rs |}).
    { destruct Hinv as [Hnd Hall]. simpl in *.
      split; simpl; rewrite <- app_assoc; assumption. }
    pose proof (levels_pop done u m vs qs rs Hlv) as Hlv1.
    assert (Hall1 : (done ++ [u]) ++ qs = done ++ u :: qs)
      by (rewrite <- app_assoc; reflexivity).
    assert (Hu : u ∈ done ++ [u]) by (apply elem_of_app; right; constructor).
    assert (Hfresh : u ∉ done).
    { intros Hin. destruct Hinv as [Hnd _]. simpl in Hnd.
      apply NoDup_app in Hnd as (_ & Hdis & _). apply (Hdis u Hin). constructor. }
    inv_bind. rename a into lu. apply vec_at_nth in E. subst lu.
    destruct (Z.geb_spec (nth_Z vs u) depth) as [Hge|Hlt].
    + destruct (IH (done ++ [u]) ex {| vis := vs; q := qs; res := rs |} st')
        as (done' & ex' & Hq' & Hs' & Hk' & Hsub'); [|exact H|].
      { split; [assumption|]. split; [assumption|]. split; [eauto|]. cbn [q vis res].
        rewrite Hall1. split; [|split; [assumption|split; [|assumption]]].
        - intros a b Ha Hlt Hb. apply elem_of_app in Ha as [Ha|Ha].
          + auto.
          + apply list_elem_of_singleton in Ha. subst a. lia.
        - intros x. rewrite Hex, elem_of_app, list_elem_of_singleton. split.
          + intros [? ?]; auto.
          + intros [[? | ->] ?]; [auto | lia]. }
      exists done', ex'. cbn [q vis] in *. rewrite Hall1 in *. auto.
    + inv_bind. rename a into lo, a0 into hi, a1 into st2.
      apply vec_at_nth in E, E0. subst lo hi.
      change (seqZ (nth_Z (row_ptr g) u) (nth_Z (row_ptr g) (u + 1) - nth_Z (row_ptr g) u))
        with (row_positions g u) in E1.
      destruct (bfs_row_levels (done ++ [u]) done u (nth_Z vs u) (row_positions g u) Hu
                  ltac:(intros x Hx; apply elem_of_app; auto) ltac:(auto)
                  _ st2 Hinv1 Hlen eq_refl Hlv1
                  ltac:(cbn [q vis]; rewrite Hall1; exact Hcl) E1)
        as (Hr2 & Hinv2 & Hlen2 & Hlv2 & Hcl2 & Hk2 & Hsub2 & Hrow2).
      cbn [q vis res] in *.
      assert (Hur : 0 <= u < num_nodos g).
      { destruct Hinv1 as [_ Hall]. rewrite Forall_forall in Hall.
        assert (Hin : u ∈ (done ++ [u]) ++ qs) by (apply elem_of_app; auto).
        apply Hall, visited_lt in Hin. simpl in Hin. lia. }
      assert (Hku : nth_Z (vis st2) u = nth_Z vs u).
      { apply Hk2. apply elem_of_app. auto. }
      destruct (IH (done ++ [u]) (ex ++ [u]) st2 st') as (done' & ex' & Hq' & Hs' & Hk' & Hsub');
        [|exact H|].
      { split; [assumption|]. split; [lia|]. split; [eauto|].
        split; [|split; [|split]].
        - intros a b Ha Hlta Hb. apply elem_of_app in Ha as [Ha|Ha].
          + apply (Hcl2 a b); assumption.
          + apply list_elem_of_singleton in Ha. subst a.
            rewrite neighbours_positions in Hb by assumption.
            apply list_elem_of_fmap in Hb as (i & -> & Hi).
            rewrite Hku. apply Hrow2. assumption.
        - apply NoDup_app. split; [assumption|]. split; [|apply NoDup_singleton].
          intros x Hx Hxu. apply list_elem_of_singleton in Hxu. subst x.
          apply Hex in Hx as [Hx _]. contradiction.
        - intros x. rewrite !elem_of_app, Hex, !list_elem_of_singleton. split.
          + intros [[Hx Hxl]| ->].
            * split; [auto|]. rewrite Hk2; [assumption|]. rewrite !elem_of_app. auto.
            * split; [auto|]. lia.
          + intros [[Hx| ->] Hxl]; [|auto]. left. split; [assumption|].
            rewrite Hk2 in Hxl; [assumption|]. rewrite !elem_of_app. auto.
        - rewrite Hr2, Hres, bind_app. simpl. rewrite app_nil_r. reflexivity. }
      exists done', ex'. split; [assumption|]. split; [assumption|].
      rewrite Hall1 in *. split.
      * intros x Hx. rewrite (Hk' x (Hsub2 x Hx)). apply Hk2. assumption.
      * auto.
Qed.

End Levels.

(** The edges of the row of [u]. *)
Lemma row_edges (g : GrafoDisperso) (u : Z) :
  csr_ok g = true -> 0 <= u < num_nodos g ->
  map (edge_at g u) (row_positions g u) = map (fun v => (u, v)) (neighbours g u).
Proof.
  intros Hok Hu. rewrite neighbours_positions by assumption.
  rewrite map_map. reflexivity.
Qed.

(** [bfs] returns the rows of the vertices that are the end of a walk of
    fewer than [depth] edges, each of these vertices once. *)
Lemma bfs_reach (g : GrafoDisperso) (startNode depth : Z) :
  csr_ok g = true ->
  0 <= startNode < num_nodos g ->
  is_int depth = true ->
  exists ex : list Z,
    bfs startNode depth g = Ok (ex ≫= (fun u => map (fun v => (u, v)) (neighbours g u)), g)
    /\ NoDup ex
    /\ forall u, u ∈ ex <->
         0 <= u < num_nodos g /\ exists k, Z.of_nat k < depth /\ walk g startNode k u.
Proof.
  intros Hok Hs Hd. apply is_int_spec in Hd.
  unfold bfs. destruct (Z.geb_spec startNode (num_nodos g)); [lia|].
  unfold vec_new. destruct (Z.ltb_spec (num_nodos g) 0); [lia|]. cbn [bind].
  set (vis0 := replicate (Z.to_nat (num_nodos g)) (-1)).
  assert (Hl0 : Z.of_nat (length vis0) = num_nodos g).
  { unfold vis0. rewrite length_replicate. lia. }
  rewrite vec_store_in by lia. cbn [bind].
  set (st0 := {| vis := <[Z.to_nat startNode := 0]> vis0; q := [startNode]; res := [] |}).
  assert (Hinv0 : bfs_inv [] st0).
  { split; simpl.
    - apply NoDup_singleton.
    - apply Forall_singleton. split; [lia|]. exists 0. split; [|lia].
      apply list_lookup_insert_eq. lia. }
  assert (Hlen0 : Z.of_nat (length (vis st0)) = num_nodos g).
  { simpl. rewrite length_insert. assumption. }
  assert (Hstart : nth_Z (vis st0) startNode = 0).
  { simpl. apply nth_Z_insert_eq. lia. }
  destruct (bfs_loop_ok g Hok depth (S (length vis0)) ltac:(lia) [] [] st0)
    as (st' & ex0 & Hloop & _).
  { assumption. }
  { assumption. }
  { simpl. rewrite length_insert. lia. }
  { constructor. }
  { intros x Hx. inversion Hx. }
  { reflexivity. }
  rewrite Hloop. cbn [bind].
  destruct (bfs_loop_levels g startNode depth Hok (S (length vis0)) [] [] st0 st')
    as (done & ex & Hq & (Hinv & Hlen & (m & _ & _ & _ & Hwalk) & Hcl & Hnd & Hex & Hres)
          & Hkeep & Hsub);
    [|exact Hloop|].
  { split; [assumption|]. split; [assumption|]. split; [|split; [|split; [|split]]].
    - exists 0. split; [|split; [|split]].
      + exists [startNode], []. split; [reflexivity|]. split; [|constructor].
        apply Forall_singleton. assumption.
      + constructor.
      + intros x Hx. destruct (Z.eq_dec x startNode) as [->|Hne].
        * right. simpl. constructor.
        * left. simpl. rewrite nth_Z_insert_ne by lia.
          unfold nth_Z, vis0. rewrite lookup_replicate_2 by lia. reflexivity.
      + change (Forall (fun x => walk g startNode (Z.to_nat (nth_Z (vis st0) x)) x)
                  [startNode]).
        apply Forall_singleton. rewrite Hstart. constructor.
    - intros a b Ha. inversion Ha.
    - constructor.
    - intros x. split; [intros Hx; inversion Hx | intros [Hx _]; inversion Hx].
    - reflexivity. }
  rewrite Hq, app_nil_r in Hcl. rewrite Hq, app_nil_r, Forall_forall in Hwalk.
  destruct Hinv as [_ Hall].
  rewrite Hq, app_nil_r, Forall_forall in Hall.
  assert (Hs0 : startNode ∈ done) by (apply Hsub; simpl; constructor).
  assert (Hlev : nth_Z (vis st') startNode = 0).
  { rewrite Hkeep; [assumption | simpl; constructor]. }
  assert (Hcomplete : forall k x, walk g startNode k x -> Z.of_nat k <= depth ->
            x ∈ done /\ nth_Z (vis st') x <= Z.of_nat k).
  { induction 1 as [|k u v Hw IH Hu Hv]; intros Hk.
    - split; [assumption | lia].
    - destruct IH as [Hud Hul]; [lia|].
      destruct (Hcl u v Hud ltac:(lia) Hv) as [Hvd Hvl]. split; [assumption | lia]. }
  assert (Hrange : forall u, u ∈ ex -> 0 <= u < num_nodos g).
  { intros u Hu. apply Hex in Hu as [Hud _].
    pose proof (visited_lt _ _ (Hall u Hud)). lia. }
  exists ex. split; [|split; [assumption|]].
  - rewrite Hres. f_equal. f_equal.
    apply Forall_bind_ext, Forall_forall. intros u Hu.
    apply row_edges; auto.
  - intros u. split.
    + intros Hu. split; [auto|]. apply Hex in Hu as [Hud Hul].
      pose proof (visited_level _ _ (Hall u Hud)) as Hl.
      exists (Z.to_nat (nth_Z (vis st') u)). split; [lia | auto].
    + intros (Hur & k & Hk & Hw).
      destruct (Hcomplete k u Hw ltac:(lia)) as [Hud Hul].
      apply Hex. split; [assumption | lia].
Qed.

(** The pairs that [bfs] returns, one by one. *)
Lemma bfs_reach_pairs (g : GrafoDisperso) (startNode depth : Z) :
  csr_ok g = true ->
  0 <= startNode < num_nodos g ->
  is_int depth = true ->
  exists r : list (Z * Z),
    bfs startNode depth g = Ok (r, g)
    /\ forall u v,
         (u, v) ∈ r <->
         (exists k, Z.of_nat k < depth /\ walk g startNode k u)
         /\ 0 <= u < num_nodos g /\ v ∈ neighbours g u.
Proof.
  intros Hok Hs Hd.
  destruct (bfs_reach g startNode depth Hok Hs Hd) as (ex & Hb & _ & Hex).
  eexists. split; [exact Hb|]. intros u v. split.
  - intros Hin. apply list_elem_of_bind in Hin as (u' & Hin & Hu').
    apply list_elem_of_fmap in Hin as (v' & Heq & Hv). inversion Heq; subst u' v'.
    apply Hex in Hu' as [Hur Hk]. auto.
  - intros (Hk & Hur & Hv). apply list_elem_of_bind. exists u. split.
    + apply list_elem_of_fmap. exists v. auto.
    + apply Hex. auto.
Qed.

(** Property X8.
    What [bfs] returns on a graph that satisfies the CSR invariants, for a
    start vertex in range and any depth: the call returns and leaves the
    graph as it was; its result is made of the complete rows, in stored
    order, of the vertices that are reached from the start vertex by a
    walk of fewer than [depth] stored edges, the row of each such vertex
    once.  So a pair is listed exactly when it is a stored edge whose
    source is reached in fewer than [depth] steps: the depth bounds the
    sources that are expanded, not the targets that are listed. *)
Theorem bfs_within_depth (g : GrafoDisperso) (startNode depth : Z) :
  csr_ok g = true ->
  0 <= startNode < num_nodos g ->
  is_int depth = true ->
  exists ex : list Z,
    bfs startNode depth g = Ok (ex ≫= (fun u => map (fun v => (u, v)) (neighbours g u)), g)
    /\ NoDup ex
    /\ (forall u, u ∈ ex <->
          0 <= u < num_nodos g /\ exists k, Z.of_nat k < depth /\ walk g startNode k u)
    /\ (forall u v,
          (u, v) ∈ ex ≫= (fun u => map (fun v => (u, v)) (neighbours g u)) <->
          (exists k, Z.of_nat k < depth /\ walk g startNode k u)
          /\ 0 <= u < num_nodos g /\ v ∈ neighbours g u).
Proof.
  intros Hok Hs Hd.
  destruct (bfs_reach g startNode depth Hok Hs Hd) as (ex & Hb & Hnd & Hex).
  destruct (bfs_reach_pairs g startNode depth Hok Hs Hd) as (r & Hr & Hiff).
  rewrite Hb in Hr. inversion Hr; subst r.
  exists ex. auto.
Qed.

Lemma bfs_within_depth_witness :
  exists ex : list Z,
    bfs 0 2 tri_graph
    = Ok (ex ≫= (fun u => map (fun v => (u, v)) (neighbours tri_graph u)), tri_graph)
    /\ NoDup ex
    /\ (forall u, u ∈ ex <->
          0 <= u < num_nodos tri_graph
          /\ exists k, Z.of_nat k < 2 /\ walk tri_graph 0 k u)
    /\ (forall u v,
          (u, v) ∈ ex ≫= (fun u => map (fun v => (u, v)) (neighbours tri_graph u)) <->
          (exists k, Z.of_nat k < 2 /\ walk tri_graph 0 k u)
          /\ 0 <= u < num_nodos tri_graph /\ v ∈ neighbours tri_graph u).
Proof.
  apply (bfs_within_depth tri_graph 0 2).
  - vm_compute. reflexivity.
  - simpl. lia.
  - vm_compute. reflexivity.
Defined.

(** Property X9.
    The two cases in which [bfs] has nothing to expand: a start vertex
    from [num_nodos] on, and a depth that is not positive. *)
Theorem bfs_nothing_to_expand (g : GrafoDisperso) (startNode depth : Z) :
  num_nodos g <= startNode \/ (0 <= startNode < num_nodos g /\ depth <= 0) ->
  bfs startNode depth g = Ok ([], g).
Proof.
  intros [H|[H1 H2]].
  - apply bfs_start_beyond. assumption.
  - apply bfs_depth_not_positive; assumption.
Qed.

Lemma bfs_nothing_to_expand_witness :
  bfs 3 5 tri_graph = Ok ([], tri_graph) /\ bfs 1 0 tri_graph = Ok ([], tri_graph).
Proof.
  split.
  - apply (bfs_nothing_to_expand tri_graph 3 5). left. simpl. lia.
  - apply (bfs_nothing_to_expand tri_graph 1 0). right. simpl. lia.
Defined.

Lemma bfs_visit_ends (g : GrafoDisperso) (done : list Z) (u i : Z) (st st' : bfs_state) :
  bfs_inv done st -> u ∈ done ->
  Forall (ends_below (length (vis st))) (res st) ->
  bfs_visit g u st i = Ok st' ->
  Forall (ends_below (length (vis st))) (res st').
Proof.
  intros Hinv Hu Hres H.
  assert (Hur : 0 <= u < Z.of_nat (length (vis st))).
  { destruct Hinv as [_ Hall]. rewrite Forall_forall in Hall.
    apply visited_lt, Hall, elem_of_app. auto. }
  unfold bfs_visit in H. inv_bind. rename a into v, a0 into lv.
  apply vec_at_Ok in E0 as [Hv0 Hv]. apply lookup_lt_Some in Hv.
  assert (Hnew : Forall (ends_below (length (vis st))) (res st ++ [(u, v)])).
  { apply Forall_app. split; [assumption|]. apply Forall_singleton.
    split; simpl; lia. }
  destruct (lv =? -1).
  - inv_bind. inversion H; subst; assumption.
  - inversion H; subst; assumption.
Qed.

Lemma bfs_row_ends (g : GrafoDisperso) (done : list Z) (u : Z) (l : list Z) :
  u ∈ done ->
  forall st st', bfs_inv done st ->
  Forall (ends_below (length (vis st))) (res st) ->
  for_each (bfs_visit g u) l st = Ok st' ->
  Forall (ends_below (length (vis st))) (res st').
Proof.
  intros Hu. induction l as [|i l IH]; intros st st' Hinv Hres H.
  - simpl in H. inversion H; subst; assumption.
  - simpl in H. inv_bind. rename a into st1.
    destruct (bfs_visit_inv g done u i st st1 Hinv Hu E) as (Hinv1 & Hlen1 & _).
    pose proof (bfs_visit_ends g done u i st st1 Hinv Hu Hres E) as Hres1.
    rewrite <- Hlen1 in *. apply (IH st1 st' Hinv1 Hres1 H).
Qed.

Lemma bfs_loop_ends (g : GrafoDisperso) (depth : Z) (fuel : nat) :
  forall done st st', bfs_inv done st ->
  Forall (ends_below (length (vis st))) (res st) ->
  bfs_loop fuel g depth st = Ok st' ->
  Forall (ends_below (length (vis st))) (res st').
Proof.
  induction fuel as [|fuel IH]; intros done st st' Hinv Hres H.
  - simpl in H. destruct (q st); [|discriminate]. inversion H; subst; assumption.
  - destruct st as [vs qs rs]. destruct qs as [|u qs].
    { simpl in H. inversion H; subst; assumption. }
    cbn [bfs_loop q vis res] in *.
    assert (Hinv1 : bfs_inv (done ++ [u]) {| vis := vs; q := qs; res := rs |}).
    { destruct Hinv as [Hnd Hall]. simpl in *.
      split; simpl; rewrite <- app_assoc; assumption. }
    assert (Hu : u ∈ done ++ [u]) by (apply elem_of_app; right; constructor).
    inv_bind. rename a into lu. destruct (lu >=? depth).
    + apply (IH _ _ _ Hinv1 Hres H).
    + inv_bind. rename a1 into st2.
      destruct (bfs_row_inv g _ u _ Hu _ _ Hinv1 E2) as [Hinv2 Hlen2].
      pose proof (bfs_row_ends g _ u _ Hu _ _ Hinv1 Hres E2) as Hres2.
      cbn [vis] in *. rewrite <- Hlen2 in *. apply (IH _ _ _ Hinv2 Hres2 H).
Qed.

(** Property X10.
    Whatever the object holds: the loop of [bfs] ends within the fuel of
    the model, a vertex entering the queue once at most, and a call that
    returns lists pairs of vertices only. *)
Theorem bfs_on_any_object (g : GrafoDisperso) (startNode depth : Z) :
  bfs startNode depth g <> OutOfFuel
  /\ forall r g', bfs startNode depth g = Ok (r, g') ->
       Forall (fun e => 0 <= fst e < num_nodos g /\ 0 <= snd e < num_nodos g) r.
Proof.
  split; [apply bfs_no_timeout|]. intros r g' H. unfold bfs in H.
  destruct (startNode >=? num_nodos g); [inversion H; constructor|].
  inv_bind. rename a into vis0, a0 into vis1, a1 into st'.
  apply vec_new_Ok in E as [Hn ->]. apply vec_store_Ok in E0 as [Hs ->].
  assert (Hr0 : r = res st') by (inversion H; reflexivity). subst r. clear H.
  assert (Hinv0 : bfs_inv [] {| vis := <[Z.to_nat startNode := 0]>
                                          (replicate (Z.to_nat (num_nodos g)) (-1));
                                 q := [startNode]; res := [] |}).
  { split; simpl.
    - apply NoDup_singleton.
    - apply Forall_singleton. split; [lia|]. exists 0. split; [|lia].
      apply list_lookup_insert_eq. lia. }
  pose proof (bfs_loop_ends g depth _ [] _ _ Hinv0 (Forall_nil_2 _) E1) as Hr.
  cbn [vis] in Hr. rewrite length_insert, length_replicate in Hr.
  eapply Forall_impl; [apply Hr|].
  intros e [H1 H2]. rewrite Z2Nat.id in H1, H2 by lia. auto.
Qed.

(** The loop of [obtenerNodoCritico] hands back its initial identifier or
    one of the indices that it went through. *)
Lemma critico_loop_range (g : GrafoDisperso) (l : list Z) :
  forall st st', for_each (critico_body g) l st = Ok st' ->
  snd st' = snd st \/ snd st' ∈ l.
Proof.
  induction l as [|i l IH]; intros st st' H.
  - simpl in H. inversion H; auto.
  - simpl in H. inv_bind. rename a into st1.
    unfold critico_body in E. inv_bind. inversion E; subst st1; clear E.
    destruct (IH _ _ H) as [Heq|Hin].
    + rewrite Heq. destruct (_ >? _); simpl; [right; constructor | auto].
    + right. constructor. assumption.
Qed.

(** Property X11.
    Whatever the object holds, a call of [obtenerNodoCritico] that
    returns hands back -1 or a vertex, and -1 when there is no vertex. *)
Theorem critical_node_in_range (g g' : GrafoDisperso) (u : Z) :
  obtenerNodoCritico g = Ok (u, g') ->
  u = -1 \/ 0 <= u < num_nodos g.
Proof.
  unfold obtenerNodoCritico. intros H. inv_bind. inversion H; subst; clear H.
  apply critico_loop_range in E as [E|E]; [auto|].
  right. apply elem_of_seqZ in E. lia.
Qed.

Lemma critical_node_in_range_witness : 1 = -1 \/ 0 <= 1 < num_nodos tie_graph.
Proof.
  apply (critical_node_in_range tie_graph tie_graph 1). vm_compute. reflexivity.
Defined.

(** ** The text that is read *)

Lemma same_ahead_good (s s' : istream) : same_ahead s s' -> good s = good s'.
Proof. intros (_ & He & Hf). unfold good. now rewrite He, Hf. Qed.

Lemma same_ahead_advance (n : nat) (s s' : istream) :
  same_ahead s s' -> same_ahead (advance n s) (advance n s').
Proof.
  intros (Hr & He & Hf). split; [|split; assumption].
  rewrite !rest_advance. now rewrite Hr.
Qed.

Lemma same_ahead_set_fail (s s' : istream) :
  same_ahead s s' -> same_ahead (set_fail s) (set_fail s').
Proof. intros (Hr & He & Hf). repeat split; assumption. Qed.

Lemma same_ahead_set_eof (s s' : istream) :
  same_ahead s s' -> same_ahead (set_eof s) (set_eof s').
Proof. intros (Hr & He & Hf). repeat split; assumption. Qed.

Lemma same_ahead_mark_eof (s s' : istream) :
  same_ahead s s' -> same_ahead (mark_eof s) (mark_eof s').
Proof.
  intros H. pose proof H as (Hr & _). unfold mark_eof. rewrite <- Hr.
  destruct (rest s); [apply same_ahead_set_eof|]; assumption.
Qed.

Lemma same_ahead_ws (s s' : istream) : same_ahead s s' -> same_ahead (ws s) (ws s').
Proof.
  intros H. pose proof H as (Hr & _). unfold ws.
  rewrite <- (same_ahead_good _ _ H), <- Hr. destruct (good s).
  - apply same_ahead_mark_eof, same_ahead_advance, H.
  - apply same_ahead_set_fail, H.
Qed.

Lemma same_ahead_peek (s s' : istream) :
  same_ahead s s' ->
  same_ahead (fst (peek s)) (fst (peek s')) /\ snd (peek s) = snd (peek s').
Proof.
  intros H. pose proof H as (Hr & _). unfold peek.
  rewrite <- (same_ahead_good _ _ H), <- Hr. destruct (good s).
  - destruct (rest s); simpl; split; auto using same_ahead_set_eof.
  - simpl. split; auto using same_ahead_set_fail.
Qed.

Lemma same_ahead_getline (s s' : istream) :
  same_ahead s s' -> same_ahead (getline s) (getline s').
Proof.
  intros H. pose proof H as (Hr & _). unfold getline.
  rewrite <- (same_ahead_good _ _ H), <- Hr. destruct (good s).
  - destruct (drop _ (rest s)).
    + destruct (span _ (rest s));
        auto using same_ahead_set_fail, same_ahead_set_eof, same_ahead_advance.
    + apply same_ahead_advance, H.
  - apply same_ahead_set_fail, H.
Qed.

Lemma same_ahead_num_get (s s' : istream) :
  same_ahead s s' ->
  same_ahead (fst (num_get s)) (fst (num_get s')) /\ snd (num_get s) = snd (num_get s').
Proof.
  intros H. pose proof H as (Hr & _). unfold num_get. rewrite <- Hr.
  set (p := match rest s with
            | c :: _ => if Ascii.eqb c MINUS then (true, advance 1 s)
                        else if Ascii.eqb c PLUS then (false, advance 1 s) else (false, s)
            | [] => (false, s) end).
  set (p' := match rest s with
            | c :: _ => if Ascii.eqb c MINUS then (true, advance 1 s')
                        else if Ascii.eqb c PLUS then (false, advance 1 s') else (false, s')
            | [] => (false, s') end).
  assert (Hp : fst p = fst p' /\ same_ahead (snd p) (snd p')).
  { unfold p, p'. destruct (rest s) as [|c l]; [auto|].
    destruct (Ascii.eqb c MINUS); [simpl; auto using same_ahead_advance|].
    destruct (Ascii.eqb c PLUS); simpl; auto using same_ahead_advance. }
  destruct p as [neg s1], p' as [neg' s1']. simpl in Hp. destruct Hp as [<- H1].
  pose proof H1 as (Hr1 & _). rewrite <- Hr1.
  destruct (take _ (rest s1)) as [|d ds].
  - simpl. split; auto using same_ahead_set_fail, same_ahead_mark_eof, same_ahead_advance.
  - destruct (is_int _); simpl; split;
      auto using same_ahead_set_fail, same_ahead_mark_eof, same_ahead_advance.
Qed.

Lemma same_ahead_extract_int (s s' : istream) :
  same_ahead s s' ->
  same_ahead (fst (extract_int s)) (fst (extract_int s'))
  /\ snd (extract_int s) = snd (extract_int s').
Proof.
  intros H. pose proof H as (Hr & _). unfold extract_int.
  rewrite <- (same_ahead_good _ _ H). destruct (good s).
  - pose proof (same_ahead_advance (span isspace (rest s)) _ _ H) as H1.
    rewrite <- Hr. pose proof H1 as (Hr1 & _). rewrite <- Hr1.
    destruct (rest (advance _ s)).
    + simpl. split; auto using same_ahead_set_fail, same_ahead_set_eof.
    + apply same_ahead_num_get, H1.
  - simpl. split; auto using same_ahead_set_fail.
Qed.

Lemma same_ahead_extract_pair (s s' : istream) :
  same_ahead s s' ->
  same_ahead (fst (extract_pair s)) (fst (extract_pair s'))
  /\ snd (extract_pair s) = snd (extract_pair s').
Proof.
  intros H. unfold extract_pair.
  destruct (same_ahead_extract_int _ _ H) as [H1 E1].
  destruct (extract_int s) as [s1 ou], (extract_int s') as [s1' ou'].
  simpl in H1, E1. subst ou'.
  destruct (same_ahead_extract_int _ _ H1) as [H2 E2].
  destruct (extract_int s1) as [s2 ov], (extract_int s1') as [s2' ov'].
  simpl in H2, E2. subst ov'. simpl. auto.
Qed.

Lemma same_ahead_pairs (fuel : nat) :
  forall s s', same_ahead s s' -> pairs fuel s = pairs fuel s'.
Proof.
  induction fuel as [|fuel IH]; intros s s' H; [reflexivity|]. simpl.
  destruct (same_ahead_extract_pair _ _ H) as [H1 E1].
  destruct (extract_pair s) as [s1 o], (extract_pair s') as [s1' o'].
  simpl in H1, E1. subst o'. destruct o; [|reflexivity]. f_equal. apply IH, H1.
Qed.

(** More fuel than characters: one more unit changes nothing. *)
Lemma pairs_fuel (fuel : nat) :
  forall s, (remaining s < fuel)%nat -> pairs (S fuel) s = pairs fuel s.
Proof.
  induction fuel as [|fuel IH]; intros s Hf; [lia|].
  change (pairs (S (S fuel)) s) with
    (match extract_pair s with
     | (s', Some e) => e :: pairs (S fuel) s'
     | (_, None) => []
     end).
  change (pairs (S fuel) s) with
    (match extract_pair s with
     | (s', Some e) => e :: pairs fuel s'
     | (_, None) => []
     end).
  destruct (extract_pair s) as [s' [e|]] eqn:E; [|reflexivity].
  apply remaining_extract_pair in E. f_equal. apply IH. lia.
Qed.

Lemma pairs_fuel_le (fuel fuel' : nat) (s : istream) :
  (remaining s < fuel)%nat -> (fuel <= fuel')%nat -> pairs fuel' s = pairs fuel s.
Proof.
  intros Hf Hle. induction Hle as [|m Hle IH]; [reflexivity|].
  rewrite pairs_fuel by lia. assumption.
Qed.

Lemma skip_comments_same (fuel : nat) :
  forall s s' r,
  same_ahead s s' -> skip_comments fuel s = Ok r ->
  exists r', skip_comments fuel s' = Ok r' /\ same_ahead r r'.
Proof.
  induction fuel as [|fuel IH]; intros s s' r H E; [discriminate|].
  simpl in *. pose proof (same_ahead_ws _ _ H) as H1.
  pose proof H1 as (_ & _ & Hf). rewrite <- Hf.
  destruct (failbit (ws s)).
  - inversion E; subst. eauto.
  - destruct (same_ahead_peek _ _ H1) as [H2 E2].
    destruct (peek (ws s)) as [s2 o], (peek (ws s')) as [s2' o'].
    simpl in H2, E2. subst o'. destruct o as [c|].
    + destruct (Ascii.eqb c HASH).
      * apply (IH (getline s2)); [apply same_ahead_getline, H2 | assumption].
      * inversion E; subst. eauto.
    + inversion E; subst. eauto.
Qed.

Lemma skip_comments_fuel (fuel : nat) :
  forall s r, skip_comments fuel s = Ok r -> skip_comments (S fuel) s = Ok r.
Proof.
  induction fuel as [|fuel IH]; intros s r E; [discriminate|].
  change (skip_comments (S (S fuel)) s) with
    (let file1 := ws s in
     if failbit file1 then Ok file1
     else match peek file1 with
          | (file2, Some c) =>
            if Ascii.eqb c HASH then skip_comments (S fuel) (getline file2) else Ok file2
          | (file2, None) => Ok file2
          end).
  change (skip_comments (S fuel) s) with
    (let file1 := ws s in
     if failbit file1 then Ok file1
     else match peek file1 with
          | (file2, Some c) =>
            if Ascii.eqb c HASH then skip_comments fuel (getline file2) else Ok file2
          | (file2, None) => Ok file2
          end) in E.
  cbv zeta in *. destruct (failbit (ws s)); [assumption|].
  destruct (peek (ws s)) as [s2 [c|]]; [|assumption].
  destruct (Ascii.eqb c HASH); [|assumption]. apply IH. assumption.
Qed.

Lemma skip_comments_fuel_le (fuel fuel' : nat) (s r : istream) :
  skip_comments fuel s = Ok r -> (fuel <= fuel')%nat -> skip_comments fuel' s = Ok r.
Proof.
  intros E Hle. induction Hle as [|m Hle IH]; [assumption|].
  apply skip_comments_fuel. assumption.
Qed.

Lemma span_app (p : ascii -> bool) (w l : list ascii) :
  Forall (fun c => p c = true) w -> span p (w ++ l) = (length w + span p l)%nat.
Proof. induction 1 as [|c w Hc Hw IH]; simpl; [reflexivity|]. now rewrite Hc, IH. Qed.

Lemma span_stop (p : ascii -> bool) (w : list ascii) (c : ascii) (l : list ascii) :
  Forall (fun c => p c = true) w -> p c = false -> span p (w ++ c :: l) = length w.
Proof. intros Hw Hc. rewrite span_app by assumption. simpl. rewrite Hc. lia. Qed.

Lemma same_ahead_tellg (s s' : istream) :
  same_ahead s s' -> same_ahead (fst (tellg s)) (fst (tellg s')).
Proof.
  intros H. unfold tellg. rewrite <- (same_ahead_good _ _ H).
  destruct (good s); simpl; auto using same_ahead_set_fail.
Qed.

Lemma same_ahead_sym (s s' : istream) : same_ahead s s' -> same_ahead s' s.
Proof. intros (H1 & H2 & H3). repeat split; auto. Qed.

(** [edge_stream] from a stream that stands where the text begins. *)
Lemma edge_stream_from (text : list ascii) (fuel : nat) (s r : istream) :
  same_ahead s (open_stream text) ->
  (length text < fuel)%nat ->
  skip_comments fuel s = Ok r ->
  pairs fuel (fst (tellg r)) = edge_stream text.
Proof.
  intros Hs Hf E. unfold edge_stream.
  destruct (skip_comments_total (S (length text)) (open_stream text)) as [r0 E0].
  { pose proof (remaining_le_buf (open_stream text)). simpl in *. lia. }
  rewrite E0.
  pose proof (skip_comments_fuel_le _ fuel _ _ E0 ltac:(lia)) as E1.
  destruct (skip_comments_same fuel _ _ _ (same_ahead_sym _ _ Hs) E1) as (r' & E' & Hr).
  rewrite E in E'. inversion E'; subst r'; clear E'.
  rewrite <- (same_ahead_pairs fuel _ _ (same_ahead_tellg _ _ Hr)).
  apply pairs_fuel_le; [|lia].
  pose proof (remaining_le_buf (fst (tellg r0))) as Hrem.
  rewrite buf_tellg, (buf_skip_comments _ _ _ E0) in Hrem. simpl in Hrem. lia.
Qed.

Lemma isspace_HASH : isspace HASH = false.
Proof. reflexivity. Qed.

(** Property X12.
    A comment line at the head of the text, after any white space, is
    skipped: the text is read as if the line were not there.  Several
    such lines are skipped one after the other. *)
Theorem leading_comment_skipped (w body text : list ascii) :
  Forall (fun c => isspace c = true) w ->
  LF ∉ body ->
  edge_stream (w ++ HASH :: body ++ LF :: text) = edge_stream text.
Proof.
  intros Hw Hbody.
  set (T := w ++ HASH :: body ++ LF :: text).
  unfold edge_stream at 1. fold T.
  assert (Hlen : length T = (length w + S (length body + S (length text)))%nat).
  { unfold T. rewrite length_app. simpl. rewrite length_app. simpl. lia. }
  cbn [skip_comments].
  set (s0 := open_stream T).
  assert (Hws : ws s0 = advance (length w) s0).
  { unfold ws. change (good s0) with true. cbv iota.
    change (rest s0) with T. unfold T. rewrite span_stop by (auto using isspace_HASH).
    unfold mark_eof. rewrite rest_advance. change (rest s0) with T. unfold T.
    rewrite drop_app_length. reflexivity. }
  rewrite Hws. change (failbit (advance (length w) s0)) with false. cbv iota.
  assert (Hrest1 : rest (advance (length w) s0) = HASH :: body ++ LF :: text).
  { rewrite rest_advance. change (rest s0) with T. unfold T. apply drop_app_length. }
  unfold peek. change (good (advance (length w) s0)) with true. cbv iota.
  rewrite Hrest1. cbv iota. change (Ascii.eqb HASH HASH) with true. cbv iota.
  set (s1 := advance (length w) s0) in *.
  assert (Hspan : span (fun c => negb (Ascii.eqb c LF)) (HASH :: body ++ LF :: text)
                  = S (length body)).
  { change (HASH :: body ++ LF :: text) with ((HASH :: body) ++ LF :: text).
    apply span_stop.
    - constructor; [reflexivity|]. apply Forall_forall. intros c Hc.
      apply negb_true_iff, Ascii.eqb_neq. intros ->. contradiction.
    - reflexivity. }
  assert (Hget : getline s1 = advance (S (S (length body))) s1).
  { unfold getline. change (good s1) with true. cbv iota. rewrite Hrest1, Hspan.
    change (HASH :: body ++ LF :: text) with ((HASH :: body) ++ LF :: text).
    rewrite (drop_app_length' (HASH :: body)) by reflexivity. reflexivity. }
  rewrite Hget.
  set (s2 := advance (S (S (length body))) s1).
  assert (Hsame : same_ahead s2 (open_stream text)).
  { split; [|split; reflexivity]. unfold s2. rewrite rest_advance, Hrest1.
    replace (HASH :: body ++ LF :: text) with ((HASH :: body ++ [LF]) ++ text)
      by (simpl; rewrite <- app_assoc; reflexivity).
    apply drop_app_length'. simpl. rewrite length_app. simpl. lia. }
  destruct (skip_comments_total (length T) s2) as [r E].
  { unfold remaining. destruct Hsame as (-> & _).
    change (rest (open_stream text)) with text. lia. }
  rewrite E. apply (edge_stream_from text (S (length T)) s2 r Hsame); [lia|].
  apply skip_comments_fuel. assumption.
Qed.

Lemma leading_comment_skipped_witness :
  edge_stream ([SPACE] ++ HASH :: list_ascii_of_string " SNAP" ++ LF :: tri_txt)
  = edge_stream tri_txt.
Proof.
  apply (leading_comment_skipped [SPACE] (list_ascii_of_string " SNAP") tri_txt).
  - constructor; [reflexivity | constructor].
  - apply (bool_decide_unpack _). vm_compute. exact I.
Defined.

(** *** Pairs written in decimal *)

Lemma digit_char_spec (d : Z) :
  0 <= d < 10 ->
  isdigit (digit_char d) = true /\ digit_value (digit_char d) = d
  /\ isspace (digit_char d) = false
  /\ Ascii.eqb (digit_char d) MINUS = false /\ Ascii.eqb (digit_char d) PLUS = false
  /\ Ascii.eqb (digit_char d) HASH = false.
Proof.
  intros Hd.
  assert (H : d = 0 \/ d = 1 \/ d = 2 \/ d = 3 \/ d = 4 \/ d = 5 \/ d = 6 \/ d = 7
              \/ d = 8 \/ d = 9) by lia.
  repeat (destruct H as [->|H]; [vm_compute; auto 10|]). subst. vm_compute. auto 10.
Qed.

Lemma digits_of_value (fuel : nat) :
  forall n acc, 0 <= n < 10 ^ Z.of_nat fuel ->
  fold_left (fun a c => 10 * a + digit_value c) (digits_of fuel n acc) 0
  = fold_left (fun a c => 10 * a + digit_value c) acc n.
Proof.
  induction fuel as [|fuel IH]; intros n acc Hn.
  - simpl in *. f_equal. lia.
  - cbn [digits_of].
    pose proof (Z.mod_pos_bound n 10 ltac:(lia)) as Hm.
    destruct (digit_char_spec (n mod 10) Hm) as (_ & Hv & _).
    destruct (Z.ltb_spec n 10).
    + cbn [fold_left]. rewrite Hv. f_equal. rewrite Z.mod_small by lia. lia.
    + rewrite IH.
      * cbn [fold_left]. rewrite Hv. f_equal. pose proof (Z.div_mod n 10). lia.
      * rewrite Nat2Z.inj_succ, Z.pow_succ_r in Hn by lia.
        split; [apply Z.div_pos; lia|]. apply Z.div_lt_upper_bound; lia.
Qed.

Lemma digits_of_digits (fuel : nat) :
  forall n acc, 0 <= n ->
  Forall (fun c => isdigit c = true) acc ->
  Forall (fun c => isdigit c = true) (digits_of fuel n acc).
Proof.
  induction fuel as [|fuel IH]; intros n acc Hn Hacc; [assumption|].
  cbn [digits_of].
  pose proof (Z.mod_pos_bound n 10 ltac:(lia)) as Hm.
  destruct (digit_char_spec (n mod 10) Hm) as (Hd & _).
  destruct (n <? 10).
  - constructor; assumption.
  - apply IH; [apply Z.div_pos; lia|]. constructor; assumption.
Qed.

Lemma digits_of_cons (fuel : nat) (n : Z) :
  0 <= n -> exists c ds, digits_of (S fuel) n [] = c :: ds.
Proof.
  intros Hn. pose proof (digits_of_digits (S fuel) n [] Hn ltac:(constructor)) as H.
  assert (Hlen : forall f m acc, (length acc <= length (digits_of f m acc))%nat).
  { clear. induction f as [|f IH]; intros m acc; [reflexivity|]. cbn [digits_of].
    destruct (m <? 10); [simpl; lia|].
    specialize (IH (m / 10) (digit_char (m mod 10) :: acc)). simpl in IH. lia. }
  cbn [digits_of] in *.
  destruct (n <? 10); [eauto|].
  specialize (Hlen fuel (n / 10) [digit_char (n mod 10)]). simpl in Hlen.
  destruct (digits_of fuel (n / 10) [digit_char (n mod 10)]); [simpl in Hlen; lia | eauto].
Qed.

(** What a rendered number looks like: an optional minus sign, then
    digits, the first character being no white space, [+] or [#]. *)
Lemma render_int_shape (z : Z) :
  is_int z = true ->
  exists ds,
    ds <> []
    /\ Forall (fun c => isdigit c = true) ds
    /\ digits_value ds = Z.abs z
    /\ render_int z = (if z <? 0 then MINUS :: ds else ds).
Proof.
  intros Hz. apply is_int_spec in Hz. unfold INT_MIN, INT_MAX in Hz.
  unfold render_int. destruct (Z.ltb_spec z 0).
  - exists (digits_of 10 (- z) []).
    destruct (digits_of_cons 9 (- z) ltac:(lia)) as (c & ds & Hd).
    split; [rewrite Hd; discriminate|].
    split; [apply digits_of_digits; [lia | constructor]|].
    split; [|reflexivity].
    unfold digits_value. rewrite digits_of_value by (simpl; lia). simpl. lia.
  - exists (digits_of 10 z []).
    destruct (digits_of_cons 9 z ltac:(lia)) as (c & ds & Hd).
    split; [rewrite Hd; discriminate|].
    split; [apply digits_of_digits; [lia | constructor]|].
    split; [|reflexivity].
    unfold digits_value. rewrite digits_of_value by (simpl; lia). simpl. lia.
Qed.

Lemma isdigit_other (c : ascii) :
  isdigit c = true ->
  isspace c = false /\ Ascii.eqb c MINUS = false /\ Ascii.eqb c PLUS = false
  /\ Ascii.eqb c HASH = false.
Proof.
  destruct c as [[] [] [] [] [] [] [] []]; vm_compute; intros H; auto; discriminate.
Qed.

Lemma num_get_render (s : istream) (z : Z) (c : ascii) (tail : list ascii) :
  is_int z = true ->
  rest s = render_int z ++ c :: tail ->
  isdigit c = false ->
  exists s', num_get s = (s', Some z) /\ stands_at s' s (c :: tail).
Proof.
  intros Hz Hr Hc. destruct (render_int_shape z Hz) as (ds & Hne & Hds & Hval & Hshape).
  rewrite Hshape in Hr. unfold num_get.
  assert (Hrun : forall s1 : istream, rest s1 = ds ++ c :: tail ->
            let n := span isdigit (rest s1) in
            take n (rest s1) = ds /\ rest (mark_eof (advance n s1)) = c :: tail
            /\ eofbit (mark_eof (advance n s1)) = eofbit s1
            /\ failbit (mark_eof (advance n s1)) = failbit s1).
  { intros s1 H1. cbv zeta. rewrite H1, span_stop by assumption.
    rewrite take_app_length. unfold mark_eof. rewrite rest_advance, H1, drop_app_length.
    split; [reflexivity|]. split; [|split; reflexivity].
    rewrite rest_advance, H1. apply drop_app_length. }
  destruct (Z.ltb_spec z 0) as [Hneg|Hpos].
  - rewrite Hr. simpl app. cbv iota. change (Ascii.eqb MINUS MINUS) with true.
    cbv beta iota zeta.
    destruct (Hrun (advance 1 s)) as (Ht & Hrest & He & Hf).
    { rewrite rest_advance, Hr. reflexivity. }
    rewrite Ht. destruct ds as [|d ds]; [congruence|].
    rewrite Hval. replace (- Z.abs z) with z by lia. rewrite Hz.
    eexists. split; [reflexivity|]. split; [assumption|]. split; assumption.
  - destruct ds as [|d ds]; [congruence|].
    inversion Hds as [|? ? Hd Hds']; subst.
    destruct (isdigit_other d Hd) as (_ & Hm & Hp & _).
    rewrite Hr. simpl app. cbv iota. rewrite Hm, Hp. cbv beta iota zeta.
    destruct (Hrun s Hr) as (Ht & Hrest & He & Hf).
    rewrite Ht. rewrite Hval. replace (Z.abs z) with z by lia. rewrite Hz.
    eexists. split; [reflexivity|]. split; [assumption|]. split; assumption.
Qed.

Lemma render_int_head (z : Z) :
  is_int z = true ->
  exists c l, render_int z = c :: l /\ isspace c = false /\ Ascii.eqb c HASH = false.
Proof.
  intros Hz. destruct (render_int_shape z Hz) as (ds & Hne & Hds & _ & ->).
  destruct (z <? 0).
  - exists MINUS, ds. auto.
  - destruct ds as [|d ds]; [congruence|]. inversion Hds as [|? ? Hd _]; subst.
    destruct (isdigit_other d Hd) as (Hs & _ & _ & Hh). exists d, ds. auto.
Qed.

Lemma extract_int_render (s : istream) (w : list ascii) (z : Z) (c : ascii)
    (tail : list ascii) :
  good s = true ->
  Forall (fun c => isspace c = true) w ->
  is_int z = true ->
  rest s = w ++ render_int z ++ c :: tail ->
  isdigit c = false ->
  exists s', extract_int s = (s', Some z) /\ stands_at s' s (c :: tail).
Proof.
  intros Hg Hw Hz Hr Hc. unfold extract_int. rewrite Hg.
  destruct (render_int_head z Hz) as (c0 & l0 & Hhead & Hsp & _).
  assert (Hspan : span isspace (rest s) = length w).
  { rewrite Hr, Hhead. simpl app. apply span_stop; assumption. }
  rewrite Hspan.
  assert (Hr1 : rest (advance (length w) s) = render_int z ++ c :: tail).
  { rewrite rest_advance, Hr. apply drop_app_length. }
  assert (Hcons : exists c1 l1, render_int z ++ c :: tail = c1 :: l1)
    by (rewrite Hhead; simpl; eauto).
  destruct Hcons as (c1 & l1 & Hcons). rewrite Hr1, Hcons. cbv iota.
  destruct (num_get_render (advance (length w) s) z c tail Hz Hr1 Hc) as (s' & E & Hs').
  exists s'. split; [assumption|]. exact Hs'.
Qed.

Lemma stands_at_good (s' s : istream) (l : list ascii) :
  stands_at s' s l -> good s = true -> good s' = true.
Proof. intros (_ & He & Hf) Hg. unfold good in *. now rewrite He, Hf. Qed.

Lemma extract_pair_render (s : istream) (w : list ascii) (e : Z * Z) (tail : list ascii) :
  good s = true ->
  Forall (fun c => isspace c = true) w ->
  int_pair e ->
  rest s = w ++ render_edge e ++ tail ->
  exists s', extract_pair s = (s', Some e) /\ good s' = true /\ rest s' = LF :: tail.
Proof.
  intros Hg Hw [Hu Hv] Hr. destruct e as [u v]. simpl in Hu, Hv.
  unfold render_edge in Hr. cbn [fst snd] in Hr.
  rewrite <- !app_assoc in Hr. cbn [app] in Hr. rewrite <- app_assoc in Hr. cbn [app] in Hr.
  destruct (extract_int_render s w u SPACE _ Hg Hw Hu Hr eq_refl) as (s1 & E1 & H1).
  pose proof (stands_at_good _ _ _ H1 Hg) as Hg1. destruct H1 as (Hr1 & _).
  destruct (extract_int_render s1 [SPACE] v LF tail Hg1 ltac:(repeat constructor) Hv
              Hr1 eq_refl) as (s2 & E2 & H2).
  pose proof (stands_at_good _ _ _ H2 Hg1) as Hg2. destruct H2 as (Hr2 & _).
  unfold extract_pair. rewrite E1, E2. eauto.
Qed.

Lemma pairs_render (es : list (Z * Z)) (trailer : list ascii) :
  stops trailer ->
  forall (fuel : nat) (s : istream) (w : list ascii),
  good s = true ->
  Forall (fun c => isspace c = true) w ->
  Forall int_pair es ->
  rest s = w ++ render_edges es ++ trailer ->
  (length es < fuel)%nat ->
  pairs fuel s = es.
Proof.
  intros Hstop. induction es as [|e es IH]; intros fuel s w Hg Hw Hes Hr Hf.
  - destruct fuel as [|fuel]; [lia|]. simpl.
    unfold extract_pair, extract_int at 1. rewrite Hg.
    unfold render_edges in Hr. simpl in Hr.
    destruct Hstop as [->|(c & junk & -> & Hd & Hsp & Hm & Hp)].
    + rewrite app_nil_r in Hr.
      assert (Hspan : span isspace (rest s) = length w).
      { rewrite Hr, <- (app_nil_r w), span_app by assumption. simpl.
        rewrite app_nil_r. lia. }
      rewrite Hspan, rest_advance, Hr, drop_all.
      destruct (extract_int _) as [s2 ov]. reflexivity.
    + assert (Hspan : span isspace (rest s) = length w)
        by (rewrite Hr; apply span_stop; assumption).
      rewrite Hspan, rest_advance, Hr, drop_app_length.
      unfold num_get. rewrite rest_advance, Hr, drop_app_length. rewrite Hm, Hp.
      rewrite rest_advance, Hr, drop_app_length. cbn [span]. rewrite Hd.
      cbn [take]. destruct (extract_int _) as [s2 ov]. reflexivity.
  - destruct fuel as [|fuel]; [simpl in Hf; lia|]. simpl.
    inversion Hes as [|? ? He Hes']; subst.
    change (render_edges (e :: es)) with (render_edge e ++ render_edges es) in Hr.
    rewrite <- app_assoc in Hr.
    destruct (extract_pair_render s w e (render_edges es ++ trailer) Hg Hw He Hr)
      as (s' & E & Hg' & Hr').
    rewrite E. f_equal.
    apply (IH fuel s' [LF]); [assumption | | assumption | assumption |].
    + constructor; [reflexivity | constructor].
    + simpl in Hf. lia.
Qed.

Lemma length_render_edges (es : list (Z * Z)) :
  (length es <= length (render_edges es))%nat.
Proof.
  induction es as [|e es IH]; [reflexivity|].
  change (render_edges (e :: es)) with (render_edge e ++ render_edges es).
  rewrite length_app. unfold render_edge. rewrite length_app. cbn [length]. lia.
Qed.

(** The edge stream of a text that begins with a rendered pair. *)
Lemma edge_stream_render (e : Z * Z) (es : list (Z * Z)) (trailer : list ascii) :
  Forall int_pair (e :: es) -> stops trailer ->
  edge_stream (render_edges (e :: es) ++ trailer) = e :: es.
Proof.
  intros Hes Hstop.
  inversion Hes as [|? ? [Hu _] _]; subst.
  destruct (render_int_head (fst e) Hu) as (c0 & l0 & Hhead & Hsp & Hh).
  set (text := render_edges (e :: es) ++ trailer).
  assert (Htext : exists l, text = c0 :: l).
  { unfold text, render_edges. simpl. unfold render_edge at 1. rewrite Hhead. simpl. eauto. }
  destruct Htext as [l Hl].
  unfold edge_stream. set (fuel := S (length text)). set (s0 := open_stream text).
  assert (Hr0 : rest s0 = c0 :: l) by (rewrite <- Hl; reflexivity).
  assert (Hskip : skip_comments fuel s0 = Ok (advance 0 s0)).
  { unfold fuel. cbn [skip_comments]. unfold ws. change (good s0) with true. cbv iota.
    rewrite Hr0. cbn [span]. rewrite Hsp. unfold mark_eof. rewrite rest_advance, Hr0.
    simpl drop. cbv iota. change (failbit (advance 0 s0)) with false. cbv iota.
    unfold peek. change (good (advance 0 s0)) with true. cbv iota.
    rewrite rest_advance, Hr0. simpl drop. cbv iota. rewrite Hh. reflexivity. }
  rewrite Hskip. unfold tellg. change (good (advance 0 s0)) with true. cbv iota. cbn [fst].
  apply (pairs_render (e :: es) trailer Hstop fuel (advance 0 s0) []);
    [reflexivity | constructor | assumption | reflexivity |].
  unfold fuel, text. rewrite length_app.
  pose proof (length_render_edges (e :: es)). lia.
Qed.

(** Property X13.
    A text that lists pairs of [int]s in decimal, one pair on a line, is
    read as these pairs, in this order. *)
Theorem rendered_edges_parse (es : list (Z * Z)) :
  Forall int_pair es -> edge_stream (render_edges es) = es.
Proof.
  intros Hes. destruct es as [|e es]; [vm_compute; reflexivity|].
  rewrite <- (app_nil_r (render_edges (e :: es))).
  apply edge_stream_render; [assumption | left; reflexivity].
Qed.

Lemma rendered_edges_parse_witness :
  edge_stream (render_edges [(0, 1); (-7, 2147483647); (12, -2147483648)])
  = [(0, 1); (-7, 2147483647); (12, -2147483648)].
Proof.
  apply (rendered_edges_parse [(0, 1); (-7, 2147483647); (12, -2147483648)]).
  repeat constructor.
Defined.

(** Property X14.
    Reading ends, without a sign of it, at the first character that cannot
    begin a number: the pairs that follow it are not read.  A comment line
    after the first pair is such a place. *)
Theorem edge_stream_ends_at_junk (e : Z * Z) (es : list (Z * Z)) (c : ascii)
    (junk : list ascii) :
  Forall int_pair (e :: es) ->
  isdigit c = false -> isspace c = false ->
  c <> MINUS -> c <> PLUS ->
  edge_stream (render_edges (e :: es) ++ c :: junk) = e :: es.
Proof.
  intros Hes Hd Hsp Hm Hp. apply edge_stream_render; [assumption|].
  right. exists c, junk. split; [reflexivity|]. split; [assumption|].
  split; [assumption|]. split; apply Ascii.eqb_neq; assumption.
Qed.

Lemma edge_stream_ends_at_junk_witness :
  edge_stream (render_edges ((0, 1) :: [(1, 2)])
               ++ HASH :: list_ascii_of_string " more" ++ LF :: render_edges [(2, 0)])
  = (0, 1) :: [(1, 2)].
Proof.
  apply (edge_stream_ends_at_junk (0, 1) [(1, 2)] HASH
           (list_ascii_of_string " more" ++ LF :: render_edges [(2, 0)])).
  - repeat constructor.
  - reflexivity.
  - reflexivity.
  - discriminate.
  - discriminate.
Defined.

(** *** Numbers separated by white space *)

Lemma isspace_not_digit (c : ascii) : isspace c = true -> isdigit c = false.
Proof.
  intros H. destruct (isdigit c) eqn:E; [|reflexivity].
  apply isdigit_other in E as (E & _). congruence.
Qed.

(** A number that ends with the text: the end of the file is noted. *)
Lemma num_get_render_eof (s : istream) (z : Z) :
  is_int z = true ->
  rest s = render_int z ->
  exists s', num_get s = (s', Some z)
    /\ rest s' = [] /\ eofbit s' = true /\ failbit s' = failbit s.
Proof.
  intros Hz Hr. destruct (render_int_shape z Hz) as (ds & Hne & Hds & Hval & Hshape).
  rewrite Hshape in Hr. unfold num_get.
  assert (Hrun : forall s1 : istream, rest s1 = ds ->
            let n := span isdigit (rest s1) in
            take n (rest s1) = ds /\ rest (mark_eof (advance n s1)) = []
            /\ eofbit (mark_eof (advance n s1)) = true
            /\ failbit (mark_eof (advance n s1)) = failbit s1).
  { intros s1 H1. cbv zeta. rewrite H1.
    assert (Hsp : span isdigit ds = length ds).
    { rewrite <- (app_nil_r ds) at 1. rewrite span_app by assumption. simpl. lia. }
    rewrite Hsp, firstn_all.
    assert (Hend : rest (advance (length ds) s1) = [])
      by (rewrite rest_advance, H1; apply drop_all).
    unfold mark_eof. rewrite Hend.
    split; [reflexivity|]. split; [exact Hend|]. split; reflexivity. }
  destruct (Z.ltb_spec z 0) as [Hneg|Hpos].
  - rewrite Hr. simpl app. cbv iota. change (Ascii.eqb MINUS MINUS) with true.
    cbv beta iota zeta.
    destruct (Hrun (advance 1 s)) as (Ht & Hrest & He & Hf).
    { rewrite rest_advance, Hr. reflexivity. }
    rewrite Ht. destruct ds as [|d ds]; [congruence|].
    rewrite Hval. replace (- Z.abs z) with z by lia. rewrite Hz.
    eexists. split; [reflexivity|]. split; [assumption|]. split; assumption.
  - destruct ds as [|d ds]; [congruence|].
    inversion Hds as [|? ? Hd Hds']; subst.
    destruct (isdigit_other d Hd) as (_ & Hm & Hp & _).
    rewrite Hr. cbv iota. rewrite Hm, Hp. cbv beta iota zeta.
    destruct (Hrun s Hr) as (Ht & Hrest & He & Hf).
    rewrite Ht. rewrite Hval. replace (Z.abs z) with z by lia. rewrite Hz.
    eexists. split; [reflexivity|]. split; [assumption|]. split; assumption.
Qed.

(** The extraction of a number that white space or the end follows. *)
Lemma extract_int_token (s : istream) (w : list ascii) (z : Z) (tail : list ascii) :
  good s = true ->
  blank w -> is_int z = true ->
  rest s = w ++ render_int z ++ tail ->
  starts_blank tail ->
  exists s', extract_int s = (s', Some z)
    /\ rest s' = tail /\ failbit s' = false
    /\ (eofbit s' = true -> tail = []) /\ (tail = [] -> eofbit s' = true).
Proof.
  intros Hg Hw Hz Hr Htail.
  assert (Hbits : eofbit s = false /\ failbit s = false).
  { unfold good in Hg. apply andb_true_iff in Hg as [H1 H2].
    apply negb_true_iff in H1, H2. auto. }
  destruct Hbits as [He Hf].
  destruct Htail as [->|(c & l' & -> & Hc)].
  - rewrite app_nil_r in Hr. unfold extract_int. rewrite Hg.
    destruct (render_int_head z Hz) as (c0 & l0 & Hhead & Hsp & _).
    assert (Hspan : span isspace (rest s) = length w).
    { rewrite Hr, Hhead. apply span_stop; assumption. }
    rewrite Hspan.
    assert (Hr1 : rest (advance (length w) s) = render_int z).
    { rewrite rest_advance, Hr. rewrite drop_app_length. reflexivity. }
    destruct (num_get_render_eof (advance (length w) s) z Hz Hr1)
      as (s' & E & Hrest & Heof & Hfail).
    rewrite Hr1, Hhead. cbv iota.
    exists s'. split; [assumption|]. split; [assumption|]. rewrite Hfail. auto.
  - destruct (extract_int_render s w z c l' Hg Hw Hz Hr (isspace_not_digit c Hc))
      as (s' & E & Hs' & He' & Hf').
    exists s'. split; [assumption|]. split; [assumption|]. split; [congruence|].
    split; [|discriminate]. intros H. congruence.
Qed.

Lemma render_tokens_cons (t : list ascii * Z) (ts : list (list ascii * Z)) :
  render_tokens (t :: ts) = fst t ++ render_int (snd t) ++ render_tokens ts.
Proof. unfold render_tokens. simpl. unfold render_token. now rewrite <- app_assoc. Qed.

Lemma tokens_start_blank (ts : list (list ascii * Z)) (trail : list ascii) :
  Forall (fun t => blank (fst t) /\ is_int (snd t) = true) ts ->
  Forall (fun t => fst t <> []) ts ->
  blank trail ->
  starts_blank (render_tokens ts ++ trail).
Proof.
  intros Hts Hne Htr. destruct ts as [|[w z] ts].
  - simpl. destruct trail as [|c l]; [left; reflexivity|].
    right. exists c, l. inversion Htr; subst. auto.
  - inversion Hts as [|? ? [Hw _] _]; subst. inversion Hne as [|? ? Hw0 _]; subst.
    simpl in Hw, Hw0. destruct w as [|c w]; [congruence|].
    right. rewrite render_tokens_cons. simpl. inversion Hw; subst. eauto.
Qed.

Lemma tokens_empty (ts : list (list ascii * Z)) (trail : list ascii) :
  Forall (fun t => blank (fst t) /\ is_int (snd t) = true) ts ->
  render_tokens ts ++ trail = [] -> ts = [] /\ trail = [].
Proof.
  intros Hts H. destruct ts as [|[w z] ts].
  - simpl in H. auto.
  - exfalso. inversion Hts as [|? ? [_ Hz] _]; subst. simpl in Hz.
    destruct (render_int_head z Hz) as (c & l & Hh & _).
    rewrite render_tokens_cons in H. simpl in H. rewrite Hh in H.
    destruct w; discriminate.
Qed.

(** No pair where no number is left. *)
Lemma extract_pair_blank (s : istream) :
  (good s = true -> blank (rest s)) -> snd (extract_pair s) = None.
Proof.
  intros H. unfold extract_pair, extract_int at 1. destruct (good s) eqn:Hg.
  - specialize (H eq_refl).
    assert (Hspan : span isspace (rest s) = length (rest s)).
    { rewrite <- (app_nil_r (rest s)) at 1. rewrite span_app by assumption. simpl. lia. }
    rewrite Hspan, rest_advance, drop_all.
    destruct (extract_int _) as [s2 ov]. reflexivity.
  - destruct (extract_int _) as [s2 ov]. reflexivity.
Qed.

(** The loop [while (file >> u >> v)] on numbers separated by white space. *)
Lemma pairs_tokens (trail : list ascii) (fuel : nat) :
  blank trail ->
  forall (ts : list (list ascii * Z)) (s : istream),
  (length ts < fuel)%nat ->
  failbit s = false ->
  (eofbit s = true -> ts = [] /\ trail = []) ->
  rest s = render_tokens ts ++ trail ->
  Forall (fun t => blank (fst t) /\ is_int (snd t) = true) ts ->
  Forall (fun t => fst t <> []) (tail ts) ->
  pairs fuel s = pair_up (map snd ts).
Proof.
  intros Htr. induction fuel as [|fuel IH]; intros ts s Hf Hfail Heof Hr Hts Hne; [lia|].
  cbn [pairs].
  destruct ts as [|[w1 z1] ts].
  - pose proof (extract_pair_blank s) as Hn. simpl in Hr. rewrite Hr in Hn.
    specialize (Hn (fun _ => Htr)).
    destruct (extract_pair s) as [s' o]. simpl in Hn. subst o. reflexivity.
  - assert (Hg : good s = true).
    { unfold good. rewrite Hfail. destruct (eofbit s); [|reflexivity].
      destruct (Heof eq_refl); discriminate. }
    inversion Hts as [|? ? [Hw1 Hz1] Hts']; subst. simpl in Hw1, Hz1, Hne.
    rewrite render_tokens_cons, <- !app_assoc in Hr. cbn [fst snd] in Hr.
    destruct (extract_int_token s w1 z1 (render_tokens ts ++ trail) Hg Hw1 Hz1 Hr
                (tokens_start_blank ts trail Hts' Hne Htr))
      as (s1 & E1 & Hr1 & Hf1 & He1 & He1').
    unfold extract_pair. rewrite E1.
    destruct ts as [|[w2 z2] ts].
    + simpl in Hr1.
      assert (Hn : snd (extract_int s1) = None).
      { unfold extract_int. destruct (good s1) eqn:Hg1; [|reflexivity].
        assert (Hspan : span isspace (rest s1) = length (rest s1)).
        { rewrite Hr1. rewrite <- (app_nil_r trail) at 1.
          rewrite span_app by assumption. simpl. lia. }
        rewrite Hspan, rest_advance, drop_all. reflexivity. }
      destruct (extract_int s1) as [s2 o]. simpl in Hn. subst o. reflexivity.
    + inversion Hts' as [|? ? [Hw2 Hz2] Hts'']; subst. simpl in Hw2, Hz2.
      inversion Hne as [|? ? Hw2n Hne']; subst. simpl in Hw2n.
      assert (Hg1 : good s1 = true).
      { unfold good. rewrite Hf1. destruct (eofbit s1); [|reflexivity].
        specialize (He1 eq_refl). rewrite render_tokens_cons in He1.
        destruct w2; [congruence | discriminate]. }
      rewrite render_tokens_cons, <- !app_assoc in Hr1. cbn [fst snd] in Hr1.
      destruct (extract_int_token s1 w2 z2 (render_tokens ts ++ trail) Hg1 Hw2 Hz2 Hr1
                  (tokens_start_blank ts trail Hts'' Hne' Htr))
        as (s2 & E2 & Hr2 & Hf2 & He2 & He2').
      rewrite E2. cbn [map snd pair_up]. f_equal.
      apply IH; auto.
      * simpl in Hf. lia.
      * intros H. apply tokens_empty; auto.
      * destruct ts; [constructor|]. inversion Hne'; assumption.
Qed.

(** Property X15.
    Numbers written in decimal and separated by any white space (blanks,
    tabs, line ends, in any number; a last line end is not needed) are
    read two by two, wherever the lines end; a last number without a
    partner is left out. *)
Theorem numbers_read_pairwise (ts : list (list ascii * Z)) (trail : list ascii) :
  tokens_ok ts -> blank trail ->
  edge_stream (render_tokens ts ++ trail) = pair_up (map snd ts).
Proof.
  intros [Hts Hne] Htr.
  set (text := render_tokens ts ++ trail).
  unfold edge_stream. set (fuel := S (length text)). set (s0 := open_stream text).
  destruct ts as [|[w z] ts].
  - (* white space only *)
    destruct (skip_comments_total fuel s0) as [r E].
    { pose proof (remaining_le_buf s0). simpl in *. unfold fuel. lia. }
    rewrite E.
    assert (Hb : forall n (s r : istream), good s = true \/ rest s = [] ->
              blank (rest s) -> skip_comments n s = Ok r ->
              (good r = true -> blank (rest r))).
    { clear. induction n as [|n IH]; intros s r Hs Hbl E; [discriminate|].
      simpl in E.
      assert (Hws : rest (ws s) = []).
      { unfold ws. destruct (good s) eqn:Hg.
        - assert (Hspan : span isspace (rest s) = length (rest s)).
          { rewrite <- (app_nil_r (rest s)) at 1. rewrite span_app by assumption.
            simpl. lia. }
          assert (Hend : rest (advance (span isspace (rest s)) s) = [])
            by (rewrite rest_advance, Hspan; apply drop_all).
          unfold mark_eof. rewrite Hend. exact Hend.
        - destruct Hs as [Hs|Hs]; [discriminate | exact Hs]. }
      destruct (failbit (ws s)).
      - inversion E; subst. intros _. rewrite Hws. constructor.
      - unfold peek in E. rewrite Hws in E.
        destruct (good (ws s)); inversion E; subst; intros _;
          change (blank (rest (ws s))); rewrite Hws; constructor. }
    pose proof (Hb fuel s0 r (or_introl eq_refl) Htr E) as Hr.
    pose proof (extract_pair_blank (fst (tellg r))) as Hn.
    assert (Hg : good (fst (tellg r)) = true -> blank (rest (fst (tellg r)))).
    { unfold tellg. destruct (good r) eqn:Hgr; simpl.
      - intros _. auto.
      - unfold good. simpl. rewrite andb_false_r. discriminate. }
    specialize (Hn Hg). unfold fuel. cbn [pairs].
    destruct (extract_pair (fst (tellg r))) as [s' o]. simpl in Hn. subst o. reflexivity.
  - inversion Hts as [|? ? [Hw Hz] Hts']; subst. simpl in Hw, Hz, Hne.
    destruct (render_int_head z Hz) as (c0 & l0 & Hhead & Hsp & Hh).
    assert (Htext : text = w ++ c0 :: (l0 ++ render_tokens ts ++ trail)).
    { unfold text. rewrite render_tokens_cons. cbn [fst snd]. rewrite Hhead.
      rewrite <- !app_assoc. reflexivity. }
    assert (Hr0 : rest s0 = text) by reflexivity.
    assert (Hskip : skip_comments fuel s0 = Ok (advance (length w) s0)).
    { unfold fuel. cbn [skip_comments]. unfold ws. change (good s0) with true. cbv iota.
      rewrite Hr0, Htext, span_stop by assumption.
      assert (Hr1 : rest (advance (length w) s0) = c0 :: (l0 ++ render_tokens ts ++ trail)).
      { rewrite rest_advance, Hr0, Htext. apply drop_app_length. }
      unfold mark_eof. rewrite Hr1.
      change (failbit (advance (length w) s0)) with false. cbv iota.
      unfold peek. change (good (advance (length w) s0)) with true. cbv iota.
      rewrite Hr1, Hh. reflexivity. }
    rewrite Hskip. unfold tellg. change (good (advance (length w) s0)) with true.
    cbv iota. cbn [fst].
    apply (pairs_tokens trail fuel Htr (([], z) :: ts) (advance (length w) s0)).
    + unfold fuel, text. rewrite render_tokens_cons, !length_app. cbn [length fst snd].
      assert (Hlen : forall l : list (list ascii * Z),
                Forall (fun t => blank (fst t) /\ is_int (snd t) = true) l ->
                (length l <= length (render_tokens l))%nat).
      { clear. induction 1 as [|[w1 z1] l [_ Hz1] Hl IH]; [reflexivity|].
        rewrite render_tokens_cons, !length_app. cbn [fst snd length].
        destruct (render_int_head z1 Hz1) as (c & l1 & -> & _). simpl. lia. }
      specialize (Hlen ts Hts'). rewrite Hhead. cbn [length]. lia.
    + reflexivity.
    + discriminate.
    + rewrite rest_advance, Hr0. unfold text.
      rewrite !render_tokens_cons. cbn [fst snd app]. rewrite <- !app_assoc.
      apply drop_app_length.
    + constructor; [split; [constructor | assumption] | assumption].
    + assumption.
Qed.

Lemma numbers_read_pairwise_witness :
  edge_stream
    (render_tokens [([], 0); ([SPACE; SPACE], 1); ([LF], 1); ([LF; LF], 2); ([SPACE], 2);
                    ([LF], 0); ([LF], 7)] ++ [])
  = pair_up (map snd [([], 0); ([SPACE; SPACE], 1); ([LF], 1); ([LF; LF], 2);
                      ([SPACE], 2); ([LF], 0); ([LF], 7)]).
Proof.
  apply (numbers_read_pairwise
           [([], 0); ([SPACE; SPACE], 1); ([LF], 1); ([LF; LF], 2); ([SPACE], 2);
            ([LF], 0); ([LF], 7)] []).
  - split.
    + repeat constructor.
    + simpl. repeat constructor; discriminate.
  - constructor.
Defined.

(** ** The graph that a text builds *)

(** The rows of the CSR, one after the other, are [col_indices]. *)
Lemma rows_tile_upto (g : GrafoDisperso) (k : nat) :
  row_ptr_ok g = true ->
  nth_Z (row_ptr g) (num_nodos g) = Z.of_nat (length (col_indices g)) ->
  Z.of_nat k <= num_nodos g ->
  seqZ 0 (Z.of_nat k) ≫= neighbours g
  = take (Z.to_nat (nth_Z (row_ptr g) (Z.of_nat k))) (col_indices g).
Proof.
  intros Hok Hlast. induction k as [|k IH]; intros Hk.
  - change (Z.of_nat 0) with 0. rewrite (row_ptr_first g Hok). reflexivity.
  - rewrite seqZ_S, bind_app, IH by lia. simpl. rewrite app_nil_r, Z.add_0_l.
    unfold neighbours, out_degree.
    pose proof (row_ptr_mono g Hok (Z.of_nat k) (Z.of_nat k + 1) ltac:(lia) ltac:(lia)).
    pose proof (row_ptr_range g Hok (Z.of_nat k) ltac:(lia)).
    rewrite take_take_drop. f_equal.
    replace (Z.of_nat (S k)) with (Z.of_nat k + 1) by lia. lia.
Qed.

Lemma rows_tile (g : GrafoDisperso) :
  row_ptr_ok g = true ->
  nth_Z (row_ptr g) (num_nodos g) = Z.of_nat (length (col_indices g)) ->
  seqZ 0 (num_nodos g) ≫= neighbours g = col_indices g.
Proof.
  intros Hok Hlast. pose proof (num_nodos_int g Hok) as Hn.
  rewrite <- (Z2Nat.id (num_nodos g)) at 1 by lia.
  rewrite rows_tile_upto by (assumption || lia).
  rewrite Z2Nat.id by lia. rewrite Hlast, Nat2Z.id. apply firstn_all.
Qed.

(** The row pointers that the builder leaves, whatever the object held. *)
Lemma construir_rows (text : list ascii) (g0 g : GrafoDisperso) :
  construir (open_stream text) g0 = Ok g ->
  nth_Z (row_ptr g) 0 = 0
  /\ (forall u, 0 <= u < num_nodos g ->
        nth_Z (row_ptr g) (u + 1) = nth_Z (row_ptr g) u + occ u (edge_stream text))
  /\ nth_Z (row_ptr g) (num_nodos g) = Z.of_nat (length (edge_stream text)).
Proof.
  intros H. pose proof (construir_row_ptr_ok _ _ _ H) as Hrow.
  pose proof (num_nodos_int g Hrow) as Hn.
  apply construir_Ok in H
    as (max_id & counts & cur & rp0 & ci0 & _ & _ & _ & _ & P2 & Hrp0 & Ppre & _).
  pose proof (pasada2_counts _ _ _ P2) as Hcnt.
  apply pasada2_spec in P2 as (Hcl & Hct & _).
  rewrite length_replicate in Hcl. rewrite total_replicate_0 in Hct.
  replace (num_nodos g) with (Z.of_nat (Z.to_nat (num_nodos g))) in Ppre at 1 by lia.
  apply suma_prefija_spec in Ppre as (_ & Hpre & _); [|lia|].
  2:{ subst rp0. apply list_lookup_insert_eq. rewrite length_replicate. lia. }
  assert (HR : forall u, 0 <= u <= num_nodos g ->
                 nth_Z (row_ptr g) u = total (take (Z.to_nat u) counts)).
  { intros u Hu. unfold nth_Z. rewrite (Hpre (Z.to_nat u)) by lia. reflexivity. }
  split; [|split].
  - rewrite HR by lia. reflexivity.
  - intros u Hu. rewrite !HR by lia.
    replace (Z.to_nat (u + 1)) with (S (Z.to_nat u)) by lia.
    assert (Hcu : counts !! Z.to_nat u = Some (occ u (edge_stream text))).
    { rewrite Hcnt. rewrite lookup_replicate_2 by lia. simpl.
      rewrite Z2Nat.id by lia. reflexivity. }
    rewrite (take_S_r _ _ _ Hcu), total_app. f_equal. unfold total. simpl. lia.
  - rewrite HR by lia. rewrite take_ge by lia. lia.
Qed.

(** Property X16.
    A load from text, by a new object without a cache, of pairs whose
    first components are not negative (identifiers and length leaving
    room in [int]): the graph has the identifiers 0 to the largest one as
    vertices and one edge for each pair; the row of [u] lists the second
    components of the pairs of [u] in the order of the text, so that
    [col_indices] is the text sorted by first component, pairs of one
    source keeping their order. *)
Theorem text_load_adjacency (filename : string) (fs : disk) (text : list ascii) :
  files fs !! (filename ++ ".bin")%string = None ->
  files fs !! filename = Some text ->
  Forall (fun e => 0 <= fst e) (edge_stream text) ->
  Forall (fun e => fst e <= INT_MAX - 2 /\ snd e <= INT_MAX - 2) (edge_stream text) ->
  Z.of_nat (length (edge_stream text)) <= INT_MAX ->
  exists fs' g,
    cargarDatos filename fs GrafoDisperso_new = Ok (fs', g)
    /\ num_nodos g = max_ident (edge_stream text) + 1
    /\ num_aristas g = Z.of_nat (length (edge_stream text))
    /\ (forall u, 0 <= u < num_nodos g ->
          out_degree g u = occ u (edge_stream text)
          /\ neighbours g u = targets u (edge_stream text))
    /\ col_indices g
       = seqZ 0 (num_nodos g) ≫= (fun u => targets u (edge_stream text)).
Proof.
  intros Hc Ht Hsrc Hroom Hlen.
  destruct (construir_correct text Hsrc Hroom Hlen) as (g & Hg & Hnn & Hna & Hrows).
  rewrite (cargarDatos_text _ _ _ _ Hc Ht), Hg. cbn [bind].
  eexists _, g. split; [reflexivity|]. split; [assumption|]. split; [assumption|].
  destruct (construir_rows _ _ _ Hg) as (_ & Hstep & Hlast).
  destruct (construir_new _ _ Hg) as (Hrow & _ & Hst).
  destruct Hst as (_ & _ & _ & _ & _ & _ & Hcl).
  split.
  - intros u Hu. split; [|auto]. unfold out_degree. rewrite Hstep by assumption. lia.
  - rewrite <- (rows_tile g Hrow) by lia.
    apply Forall_bind_ext, Forall_forall. intros u Hu.
    apply Hrows. apply elem_of_seqZ in Hu. lia.
Qed.

Lemma text_load_adjacency_witness :
  exists fs' g,
    cargarDatos "tri.txt" tri_disk GrafoDisperso_new = Ok (fs', g)
    /\ num_nodos g = max_ident (edge_stream tri_txt) + 1
    /\ num_aristas g = Z.of_nat (length (edge_stream tri_txt))
    /\ (forall u, 0 <= u < num_nodos g ->
          out_degree g u = occ u (edge_stream tri_txt)
          /\ neighbours g u = targets u (edge_stream tri_txt))
    /\ col_indices g
       = seqZ 0 (num_nodos g) ≫= (fun u => targets u (edge_stream tri_txt)).
Proof.
  assert (Hes : edge_stream tri_txt = tri_edges) by (vm_compute; reflexivity).
  apply (text_load_adjacency "tri.txt" tri_disk tri_txt).
  - vm_compute. reflexivity.
  - vm_compute. reflexivity.
  - rewrite Hes. repeat constructor; simpl; lia.
  - rewrite Hes. repeat constructor; unfold INT_MAX; simpl; lia.
  - rewrite Hes. unfold INT_MAX. simpl. lia.
Defined.

Lemma targets_spec (es : list (Z * Z)) (u v : Z) : v ∈ targets u es <-> (u, v) ∈ es.
Proof.
  unfold targets. rewrite list_elem_of_fmap. split.
  - intros ([a b] & -> & H). apply list_elem_of_filter in H as [Ha H].
    simpl in Ha. subst a. assumption.
  - intros H. exists (u, v). split; [reflexivity|].
    apply list_elem_of_filter. split; [reflexivity | assumption].
Qed.

Lemma occ_absent (es : list (Z * Z)) (w : Z) :
  Forall (fun e => fst e <> w) es -> occ w es = 0.
Proof.
  induction 1 as [|[a b] l Hne Hl IH]; [reflexivity|].
  change ((a, b) :: l) with ([(a, b)] ++ l). rewrite occ_app, IH.
  rewrite occ_single_ne by (simpl in Hne; congruence). reflexivity.
Qed.

(** The lowest vertex of maximal out-degree, on a graph whose [row_ptr] has
    the shape of the invariants and that has a vertex. *)
Lemma critical_node_run (g : GrafoDisperso) :
  row_ptr_ok g = true -> 0 < num_nodos g ->
  exists u, obtenerNodoCritico g = Ok (u, g)
    /\ 0 <= u < num_nodos g
    /\ (forall w, 0 <= w < num_nodos g -> out_degree g w <= out_degree g u)
    /\ (forall w, 0 <= w < u -> out_degree g w < out_degree g u).
Proof.
  intros Hok Hn.
  destruct (critico_loop g Hok (Z.to_nat (num_nodos g))) as (st & Hst & Hinv); [lia|].
  rewrite Z2Nat.id in Hst, Hinv by lia.
  unfold obtenerNodoCritico. rewrite Hst. cbn [bind].
  exists (snd st). split; [reflexivity|].
  destruct Hinv as [[Hz _] | (Hid & Hmd & Hall & Hlow)]; [lia|].
  rewrite <- Hmd. auto.
Qed.

(** Property X17.
    After a load from text, the critical node is the lowest identifier
    among those that are first component of the most pairs. *)
Theorem text_load_critical_node (filename : string) (fs : disk) (text : list ascii) :
  files fs !! (filename ++ ".bin")%string = None ->
  files fs !! filename = Some text ->
  Forall (fun e => 0 <= fst e) (edge_stream text) ->
  Forall (fun e => fst e <= INT_MAX - 2 /\ snd e <= INT_MAX - 2) (edge_stream text) ->
  Z.of_nat (length (edge_stream text)) <= INT_MAX ->
  exists u,
    query filename fs obtenerNodoCritico = Ok u
    /\ 0 <= u <= max_ident (edge_stream text)
    /\ (forall w, occ w (edge_stream text) <= occ u (edge_stream text))
    /\ (forall w, 0 <= w < u -> occ w (edge_stream text) < occ u (edge_stream text)).
Proof.
  intros Hc Ht Hsrc Hroom Hlen.
  destruct (construir_correct text Hsrc Hroom Hlen) as (g & Hg & Hnn & Hna & _).
  destruct (construir_rows _ _ _ Hg) as (_ & Hstep & _).
  pose proof (construir_row_ptr_ok _ _ _ Hg) as Hrow.
  assert (Hdeg : forall w, 0 <= w < num_nodos g -> out_degree g w = occ w (edge_stream text)).
  { intros w Hw. unfold out_degree. rewrite Hstep by assumption. lia. }
  pose proof (num_nodos_int g Hrow) as Hn.
  assert (Hm0 : 0 <= max_ident (edge_stream text)).
  { unfold max_ident.
    pose proof (max_ident_bound (edge_stream text) (INT_MAX - 2) 0
                  ltac:(unfold INT_MAX; lia) Hroom). lia. }
  destruct (critical_node_run g Hrow ltac:(lia)) as (u & Hu & Hur & Hmax & Hlow).
  unfold query, load_new. rewrite (cargarDatos_text _ _ _ _ Hc Ht), Hg. cbn [bind snd].
  rewrite Hu. cbn [bind fst]. exists u. split; [reflexivity|]. split; [lia|].
  split.
  - intros w. destruct (decide (0 <= w < num_nodos g)) as [Hw|Hw].
    + rewrite <- !Hdeg by assumption. auto.
    + assert (H0 : occ w (edge_stream text) = 0).
      { apply occ_absent, Forall_forall. intros e He Hfe.
        rewrite Forall_forall in Hsrc. specialize (Hsrc e He).
        pose proof (max_ident_ge _ _ He). lia. }
      rewrite H0. apply occ_nonneg.
  - intros w Hw. rewrite <- !Hdeg by lia. auto.
Qed.

Lemma text_load_critical_node_witness :
  exists u,
    query "tri.txt" tri_disk obtenerNodoCritico = Ok u
    /\ 0 <= u <= max_ident (edge_stream tri_txt)
    /\ (forall w, occ w (edge_stream tri_txt) <= occ u (edge_stream tri_txt))
    /\ (forall w, 0 <= w < u -> occ w (edge_stream tri_txt) < occ u (edge_stream tri_txt)).
Proof.
  assert (Hes : edge_stream tri_txt = tri_edges) by (vm_compute; reflexivity).
  apply (text_load_critical_node "tri.txt" tri_disk tri_txt).
  - vm_compute. reflexivity.
  - vm_compute. reflexivity.
  - rewrite Hes. repeat constructor; simpl; lia.
  - rewrite Hes. repeat constructor; unfold INT_MAX; simpl; lia.
  - rewrite Hes. unfold INT_MAX. simpl. lia.
Defined.

(** Walks in the graph built from a text are walks along its pairs. *)
Lemma walk_path (g : GrafoDisperso) (es : list (Z * Z)) (s : Z) :
  (forall u, 0 <= u < num_nodos g -> neighbours g u = targets u es) ->
  (forall e, e ∈ es -> 0 <= fst e < num_nodos g) ->
  forall k x, walk g s k x <-> path es s k x.
Proof.
  intros Hrows Hsrc k x. split.
  - induction 1 as [|k u v Hw IH Hu Hv]; [constructor|].
    apply (path_step es s k u v); [assumption|].
    rewrite Hrows in Hv by assumption. apply targets_spec. assumption.
  - induction 1 as [|k u v Hp IH He]; [constructor|].
    pose proof (Hsrc _ He) as Hu. simpl in Hu.
    apply (walk_step g s k u v); [assumption | assumption |].
    rewrite Hrows by assumption. apply targets_spec. assumption.
Qed.

(** Property X18.
    After a load from text whose identifiers are not negative, [bfs]
    returns the pairs of the text whose first component is reached from
    the start vertex along fewer than [depth] pairs. *)
Theorem text_load_bfs (filename : string) (fs : disk) (text : list ascii)
    (startNode depth : Z) :
  files fs !! (filename ++ ".bin")%string = None ->
  files fs !! filename = Some text ->
  Forall (fun e => 0 <= fst e /\ 0 <= snd e) (edge_stream text) ->
  Forall (fun e => fst e <= INT_MAX - 2 /\ snd e <= INT_MAX - 2) (edge_stream text) ->
  Z.of_nat (length (edge_stream text)) <= INT_MAX ->
  0 <= startNode <= max_ident (edge_stream text) ->
  is_int depth = true ->
  exists r : list (Z * Z),
    query filename fs (bfs startNode depth) = Ok r
    /\ forall u v,
         (u, v) ∈ r <->
         (u, v) ∈ edge_stream text
         /\ exists k, Z.of_nat k < depth /\ path (edge_stream text) startNode k u.
Proof.
  intros Hc Ht Hpos Hroom Hlen Hs Hd.
  assert (Hsrc : Forall (fun e => 0 <= fst e) (edge_stream text)).
  { eapply Forall_impl; [exact Hpos|]. simpl. intros e [? _]. assumption. }
  destruct (construir_correct text Hsrc Hroom Hlen) as (g & Hg & Hnn & Hna & Hrows).
  destruct (construir_new _ _ Hg) as (Hrow & Hci & _).
  assert (Hok : csr_ok g = true).
  { unfold csr_ok. rewrite Hrow, Hci; [reflexivity|].
    apply forallb_forall. intros e He. apply Z.leb_le.
    rewrite Forall_forall in Hpos. apply list_elem_of_In, Hpos in He. tauto. }
  assert (Hin : forall e, e ∈ edge_stream text -> 0 <= fst e < num_nodos g).
  { intros e He. rewrite Forall_forall in Hsrc. specialize (Hsrc e He).
    pose proof (max_ident_ge _ _ He). lia. }
  destruct (bfs_reach_pairs g startNode depth Hok ltac:(lia) Hd) as (r & Hr & Hiff).
  unfold query, load_new. rewrite (cargarDatos_text _ _ _ _ Hc Ht), Hg. cbn [bind snd].
  rewrite Hr. cbn [bind fst]. exists r. split; [reflexivity|].
  intros u v. rewrite Hiff. split.
  - intros ((k & Hk & Hw) & Hu & Hv). rewrite Hrows in Hv by assumption.
    split; [apply targets_spec; assumption|].
    exists k. split; [assumption|]. apply (walk_path g _ startNode Hrows Hin). assumption.
  - intros (He & k & Hk & Hp). pose proof (Hin _ He) as Hu. simpl in Hu.
    split; [|split; [assumption|]].
    + exists k. split; [assumption|]. apply (walk_path g _ startNode Hrows Hin). assumption.
    + rewrite Hrows by assumption. apply targets_spec. assumption.
Qed.

Lemma text_load_bfs_witness :
  exists r : list (Z * Z),
    query "tri.txt" tri_disk (bfs 0 2) = Ok r
    /\ forall u v,
         (u, v) ∈ r <->
         (u, v) ∈ edge_stream tri_txt
         /\ exists k, Z.of_nat k < 2 /\ path (edge_stream tri_txt) 0 k u.
Proof.
  assert (Hes : edge_stream tri_txt = tri_edges) by (vm_compute; reflexivity).
  apply (text_load_bfs "tri.txt" tri_disk tri_txt 0 2).
  - vm_compute. reflexivity.
  - vm_compute. reflexivity.
  - rewrite Hes. repeat constructor; simpl; lia.
  - rewrite Hes. repeat constructor; unfold INT_MAX; simpl; lia.
  - rewrite Hes. unfold INT_MAX. simpl. lia.
  - rewrite Hes. vm_compute. split; discriminate.
  - vm_compute. reflexivity.
Defined.

(** Pasada 3 does not look behind the positions that it writes. *)
Lemma pasada3_frame (es : list (Z * Z)) (tail : list Z) :
  forall cur ci cur' ci',
  for_each pasada3 es (cur, ci) = Ok (cur', ci') ->
  for_each pasada3 es (cur, ci ++ tail) = Ok (cur', ci' ++ tail).
Proof.
  induction es as [|[u v] es IH]; intros cur ci cur' ci' H.
  - simpl in *. inversion H; subst. reflexivity.
  - cbn [for_each] in *. inv_bind. destruct a as [cur1 ci1].
    unfold pasada3 in E. inv_bind. inversion E; subst; clear E.
    apply vec_store_Ok in E1 as [Hk ->].
    unfold pasada3 at 1. rewrite E0. cbn [bind].
    rewrite vec_store_in by (rewrite length_app; lia). cbn [bind].
    rewrite E2. cbn [bind]. rewrite E3. cbn [bind].
    rewrite insert_app_l by lia. apply IH. assumption.
Qed.

Lemma take_drop_app_l (l t : list Z) (a n : nat) :
  (a + n <= length l)%nat -> take n (drop a (l ++ t)) = take n (drop a l).
Proof.
  intros H. rewrite drop_app. rewrite take_app.
  replace (n - length (drop a l))%nat with O by (rewrite length_drop; lia).
  rewrite take_0. apply app_nil_r.
Qed.

(** The builder on an object that already holds a state: the rows are
    those of the text, the count of edges goes on from the one that the
    object held. *)
Lemma construir_any (text : list ascii) (g0 : GrafoDisperso) :
  Forall (fun e => 0 <= fst e) (edge_stream text) ->
  Forall (fun e => fst e <= INT_MAX - 2 /\ snd e <= INT_MAX - 2) (edge_stream text) ->
  0 <= num_aristas g0 ->
  num_aristas g0 + Z.of_nat (length (edge_stream text)) <= INT_MAX ->
  exists g, construir (open_stream text) g0 = Ok g
    /\ num_nodos g = max_ident (edge_stream text) + 1
    /\ num_aristas g = num_aristas g0 + Z.of_nat (length (edge_stream text))
    /\ Z.of_nat (length (col_indices g)) = num_aristas g
    /\ (forall u, 0 <= u < num_nodos g -> neighbours g u = targets u (edge_stream text)).
Proof.
  unfold edge_stream, construir. simpl buf. set (fuel := S (length text)).
  destruct (skip_comments_total fuel (open_stream text)) as [f1 E1].
  { pose proof (remaining_le_buf (open_stream text)). simpl in *. unfold fuel. lia. }
  rewrite E1. cbn [bind].
  pose proof (buf_skip_comments _ _ _ E1) as Hb1. simpl in Hb1.
  destruct (tellg f1) as [f2 start] eqn:Et. cbn [fst].
  pose proof (buf_tellg f1) as Hb2. rewrite Et in Hb2. simpl in Hb2.
  set (es := pairs fuel f2). intros Hsrc Hbound Ha0 Hlen.
  assert (Hfuel : forall f, buf f = text -> (remaining f < fuel)%nat).
  { intros f Hf. pose proof (remaining_le_buf f). rewrite Hf in *. unfold fuel. lia. }
  assert (Hseek : forall f, buf f = text -> buf (seekg (clear f) start) = text).
  { intros f Hf. unfold seekg, clear. simpl. destruct start; simpl; assumption. }
  (* Pasada 1 *)
  pose proof (pasada1_run es 0 (num_aristas g0) Ha0 Hlen) as P1.
  fold (max_ident es) in P1.
  assert (F1 : (remaining f2 < fuel)%nat) by (apply Hfuel; congruence).
  destruct (while_extract_run pasada1 fuel f2 _ _ F1 P1) as [f3 W1].
  rewrite W1. cbn [bind].
  pose proof (buf_while_extract _ _ _ _ _ _ W1) as Hb3.
  pose proof (max_ident_bound es (INT_MAX - 2) 0 ltac:(unfold INT_MAX; lia) Hbound) as HM.
  fold (max_ident es) in HM.
  apply pasada1_spec in P1 as (_ & _ & Hle & _).
  set (M := max_ident es) in *. set (m := Z.of_nat (length es)) in *.
  set (na := num_aristas g0 + m) in *.
  rewrite (int_add_in M 1) by (unfold INT_MIN, INT_MAX in *; lia). cbn [bind].
  rewrite (int_add_in (M + 1) 1) by (unfold INT_MIN, INT_MAX in *; lia). cbn [bind].
  unfold vec_new at 1. destruct (Z.ltb_spec (M + 1 + 1) 0); [lia|]. cbn [bind].
  destruct (vec_resize_Ok (col_indices g0) na) as (ci0 & Hci0 & Lci0); [lia|].
  rewrite Hci0. cbn [bind].
  unfold vec_new at 1. destruct (Z.ltb_spec (M + 1) 0); [lia|]. cbn [bind].
  (* Pasada 2 *)
  assert (R2 : pairs fuel (seekg (clear f3) start) = es)
    by (apply (rewind_pairs fuel f1 f2 f3 start Et); congruence).
  destruct (pasada2_run es (replicate (Z.to_nat (M + 1)) 0) 0) as [counts P2].
  { apply Forall_replicate. lia. }
  { fold m. lia. }
  { rewrite length_replicate. rewrite Forall_forall in Hsrc, Hle.
    apply Forall_forall. intros e He. specialize (Hsrc e He).
    specialize (Hle e He). lia. }
  rewrite <- R2 in P2.
  assert (F2 : (remaining (seekg (clear f3) start) < fuel)%nat)
    by (apply Hfuel, Hseek; congruence).
  destruct (while_extract_run pasada2 fuel _ _ _ F2 P2) as [f5 W2].
  rewrite W2. cbn [bind]. rewrite R2 in P2.
  pose proof (buf_while_extract _ _ _ _ _ _ W2) as Hb5.
  pose proof (pasada2_counts _ _ _ P2) as Hcnt.
  apply pasada2_spec in P2 as (Hcl & Hct & Hcp).
  rewrite length_replicate in Hcl. rewrite total_replicate_0 in Hct.
  specialize (Hcp ltac:(apply Forall_replicate; lia)).
  (* the prefix sums *)
  rewrite vec_store_in by (rewrite length_replicate; lia). cbn [bind].
  set (rp0 := <[Z.to_nat 0 := 0]> (replicate (Z.to_nat (M + 1 + 1)) 0)).
  assert (H00 : rp0 !! O = Some 0).
  { unfold rp0. apply list_lookup_insert_eq. rewrite length_replicate. lia. }
  assert (Hl0 : length rp0 = Z.to_nat (M + 1 + 1)).
  { unfold rp0. rewrite length_insert, length_replicate. reflexivity. }
  replace (seqZ 0 (M + 1)) with (seqZ 0 (Z.of_nat (Z.to_nat (M + 1))))
    by (f_equal; lia).
  destruct (suma_prefija_run counts rp0 (Z.to_nat (M + 1))) as [rp PS];
    [lia | lia | assumption | assumption | fold m in Hct; lia |].
  rewrite PS. cbn [bind].
  destruct (suma_prefija_spec counts rp0 (Z.to_nat (M + 1)) rp ltac:(lia) H00 PS)
    as (Hrl & Hpre & _).
  assert (HR : forall u, 0 <= u <= M + 1 ->
                 nth_Z rp u = total (take (Z.to_nat u) counts)).
  { intros u Hu. unfold nth_Z. rewrite (Hpre (Z.to_nat u)) by lia. reflexivity. }
  assert (HR0 : nth_Z rp 0 = 0) by (rewrite HR by lia; reflexivity).
  assert (HRs : forall u, 0 <= u < M + 1 -> nth_Z rp (u + 1) = nth_Z rp u + occ u es).
  { intros u Hu. rewrite !HR by lia.
    replace (Z.to_nat (u + 1)) with (S (Z.to_nat u)) by lia.
    assert (Hcu : counts !! Z.to_nat u = Some (occ u es)).
    { rewrite Hcnt. rewrite lookup_replicate_2 by lia. simpl.
      rewrite Z2Nat.id by lia. reflexivity. }
    rewrite (take_S_r _ _ _ Hcu), total_app. f_equal. unfold total. simpl. lia. }
  assert (HRl : nth_Z rp (M + 1) = m).
  { rewrite HR by lia. rewrite take_ge by lia. fold m in Hct. lia. }
  (* Pasada 3 *)
  assert (R3 : pairs fuel (seekg (clear f5) start) = es).
  { apply (rewind_pairs fuel f1 f2 f5 start Et). rewrite Hb5. rewrite Hseek; congruence. }
  destruct (pasada3_run es rp (M + 1) m HR0 HRs HRl ltac:(lia) es []
              (rp, take (length es) ci0)) as [[cur ci] [P3 Hinv]].
  { reflexivity. }
  { rewrite Forall_forall in Hsrc, Hle. apply Forall_forall. intros e He.
    specialize (Hsrc e He). specialize (Hle e He). lia. }
  { unfold scatter_inv. cbn [fst snd]. split; [lia|].
    split; [rewrite length_take; unfold m; lia|]. split.
    - intros u Hu. unfold occ. simpl. rewrite Z.add_0_r. unfold nth_Z.
      destruct (lookup_lt_is_Some_2 rp (Z.to_nat u)) as [x Hx]; [lia|].
      rewrite Hx. reflexivity.
    - intros u k v _ Hk. discriminate Hk. }
  apply (pasada3_frame es (drop (length es) ci0)) in P3 as P3'.
  rewrite take_drop in P3'.
  rewrite <- R3 in P3' at 1.
  assert (F3 : (remaining (seekg (clear f5) start) < fuel)%nat)
    by (apply Hfuel, Hseek; rewrite Hb5; apply Hseek; congruence).
  destruct (while_extract_run pasada3 fuel _ _ _ F3 P3') as [f7 W3].
  rewrite W3. cbn [bind].
  eexists. split; [reflexivity|]. cbn [num_nodos num_aristas col_indices row_ptr].
  split; [reflexivity|]. split; [reflexivity|].
  pose proof Hinv as (_ & Hcil & _). cbn [snd] in Hcil.
  split.
  - rewrite length_app, length_drop. unfold na, m in *. lia.
  - intros u Hu. unfold neighbours, out_degree. cbn [row_ptr col_indices].
    rewrite HRs by lia.
    replace (nth_Z rp u + occ u es - nth_Z rp u) with (occ u es) by lia.
    pose proof (rows_bounds es rp (M + 1) m HR0 HRs HRl u ltac:(lia)) as Hb.
    pose proof (rows_bounds es rp (M + 1) m HR0 HRs HRl (u + 1) ltac:(lia)) as Hb'.
    rewrite HRs in Hb' by lia.
    rewrite take_drop_app_l by lia.
    apply (scatter_rows es rp (M + 1) m HR0 HRs HRl (cur, ci) u Hinv Hu).
Qed.

(** Property X19.
    Loading a text into an object that already holds a state, no cache
    being present: the vertices and the rows are those of the text, but
    the edge counter is not reset; [num_aristas] and the length of
    [col_indices] are what the object held plus the number of pairs. *)
Theorem text_load_into_used_object (filename : string) (fs : disk) (text : list ascii)
    (g0 : GrafoDisperso) :
  files fs !! (filename ++ ".bin")%string = None ->
  files fs !! filename = Some text ->
  Forall (fun e => 0 <= fst e) (edge_stream text) ->
  Forall (fun e => fst e <= INT_MAX - 2 /\ snd e <= INT_MAX - 2) (edge_stream text) ->
  0 <= num_aristas g0 ->
  num_aristas g0 + Z.of_nat (length (edge_stream text)) <= INT_MAX ->
  exists fs' g,
    cargarDatos filename fs g0 = Ok (fs', g)
    /\ num_nodos g = max_ident (edge_stream text) + 1
    /\ (forall u, 0 <= u < num_nodos g -> neighbours g u = targets u (edge_stream text))
    /\ num_aristas g = num_aristas g0 + Z.of_nat (length (edge_stream text))
    /\ Z.of_nat (length (col_indices g)) = num_aristas g.
Proof.
  intros Hc Ht Hsrc Hroom Ha0 Hlen.
  destruct (construir_any text g0 Hsrc Hroom Ha0 Hlen) as (g & Hg & Hnn & Hna & Hcl & Hrows).
  rewrite (cargarDatos_text _ _ _ _ Hc Ht), Hg. cbn [bind].
  eexists _, g. split; [reflexivity|]. auto.
Qed.

Lemma text_load_into_used_object_witness :
  exists fs' g,
    cargarDatos "tri.txt" tri_disk tri_graph = Ok (fs', g)
    /\ num_nodos g = max_ident (edge_stream tri_txt) + 1
    /\ (forall u, 0 <= u < num_nodos g -> neighbours g u = targets u (edge_stream tri_txt))
    /\ num_aristas g = num_aristas tri_graph + Z.of_nat (length (edge_stream tri_txt))
    /\ Z.of_nat (length (col_indices g)) = num_aristas g.
Proof.
  assert (Hes : edge_stream tri_txt = tri_edges) by (vm_compute; reflexivity).
  apply (text_load_into_used_object "tri.txt" tri_disk tri_txt tri_graph).
  - vm_compute. reflexivity.
  - vm_compute. reflexivity.
  - rewrite Hes. repeat constructor; simpl; lia.
  - rewrite Hes. repeat constructor; unfold INT_MAX; simpl; lia.
  - simpl. lia.
  - rewrite Hes. unfold INT_MAX. simpl. lia.
Defined.

(** Property X20.
    Which texts a new object loads, no cache being present: those whose
    pairs have no negative first component, identifiers up to
    [INT_MAX - 2] and a number of pairs within [int].  On every other
    text the load is undefined behaviour (an index outside a vector or a
    signed overflow); no exception is thrown and no loop runs on for
    ever. *)
Theorem text_load_defined (filename : string) (fs : disk) (text : list ascii) :
  files fs !! (filename ++ ".bin")%string = None ->
  files fs !! filename = Some text ->
  (loadable (edge_stream text) ->
   exists fs' g, cargarDatos filename fs GrafoDisperso_new = Ok (fs', g))
  /\ (~ loadable (edge_stream text) ->
      cargarDatos filename fs GrafoDisperso_new = Undefined).
Proof.
  intros Hc Ht. rewrite (cargarDatos_text _ _ _ _ Hc Ht). split.
  - intros (Hsrc & Hroom & Hlen).
    destruct (construir_correct text Hsrc Hroom Hlen) as (g & Hg & _).
    rewrite Hg. cbn [bind]. eauto.
  - intros Hno. pose proof (construir_new_benign text) as Hb.
    destruct (construir (open_stream text) GrafoDisperso_new) as [g| | |] eqn:E;
      try reflexivity; try contradiction.
    exfalso. apply Hno. apply construir_Ok in E
      as (max_id & counts & cur & rp0 & ci0 & P1 & Hnn & Hn1 & _ & P2 & _).
    apply pasada2_sources in P2. simpl in P1.
    apply pasada1_spec in P1 as (Hna & _ & Hle & Hi).
    specialize (Hi eq_refl). apply is_int_spec in Hi. apply is_int_spec in Hn1.
    apply int_add_Ok in Hnn as [Hnn _].
    split; [assumption|]. split.
    + eapply Forall_impl; [exact Hle|]. simpl. intros e [? ?]. lia.
    + lia.
Qed.

Lemma text_load_defined_witness :
  (loadable (edge_stream tri_txt) ->
   exists fs' g, cargarDatos "tri.txt" tri_disk GrafoDisperso_new = Ok (fs', g))
  /\ (~ loadable (edge_stream tri_txt) ->
      cargarDatos "tri.txt" tri_disk GrafoDisperso_new = Undefined).
Proof.
  apply (text_load_defined "tri.txt" tri_disk tri_txt); vm_compute; reflexivity.
Defined.

(** Property X21.
    A cache shorter than its header announces, next to a loadable text:
    the load falls back on the text and the rows are those of the text,
    but the edge counter goes on from the count that the header of the
    cache announced. *)
Theorem short_cache_then_text (filename : string) (fs : disk) (data text : list ascii)
    (g0 : GrafoDisperso) :
  files fs !! (filename ++ ".bin")%string = Some data ->
  (8 <= length data < cache_size (int_of_bytes data) (int_of_bytes (drop 4 data)))%nat ->
  -1 <= int_of_bytes data < INT_MAX ->
  0 <= int_of_bytes (drop 4 data) ->
  files fs !! filename = Some text ->
  Forall (fun e => 0 <= fst e) (edge_stream text) ->
  Forall (fun e => fst e <= INT_MAX - 2 /\ snd e <= INT_MAX - 2) (edge_stream text) ->
  int_of_bytes (drop 4 data) + Z.of_nat (length (edge_stream text)) <= INT_MAX ->
  exists fs' g,
    cargarDatos filename fs g0 = Ok (fs', g)
    /\ num_nodos g = max_ident (edge_stream text) + 1
    /\ (forall u, 0 <= u < num_nodos g -> neighbours g u = targets u (edge_stream text))
    /\ num_aristas g = int_of_bytes (drop 4 data) + Z.of_nat (length (edge_stream text)).
Proof.
  intros Hf [Hlen Hshort] Hnn Hna Ht Hsrc Hroom Hsum.
  destruct (cargarDesdeCache_by_length _ fs data g0 Hf Hlen Hnn Hna)
    as (g1 & Hload & _ & Hna1 & _).
  rewrite bool_decide_eq_false_2 in Hload by lia.
  destruct (construir_any text g1 Hsrc Hroom ltac:(lia) ltac:(lia))
    as (g & Hg & Hn & Ha & _ & Hrows).
  unfold cargarDatos, fileExists. rewrite Hf, Hload. cbn [bind]. rewrite Ht, Hg. cbn [bind].
  eexists _, g. split; [reflexivity|]. split; [assumption|]. split; [assumption|].
  rewrite Ha, Hna1. reflexivity.
Qed.

Lemma short_cache_then_text_witness :
  exists fs' g,
    cargarDatos "one.txt" cut_cache_disk GrafoDisperso_new = Ok (fs', g)
    /\ num_nodos g = max_ident (edge_stream one_edge_txt) + 1
    /\ (forall u, 0 <= u < num_nodos g ->
          neighbours g u = targets u (edge_stream one_edge_txt))
    /\ num_aristas g
       = int_of_bytes (drop 4 cut_cache) + Z.of_nat (length (edge_stream one_edge_txt)).
Proof.
  assert (Hes : edge_stream one_edge_txt = [(0, 1)]) by (vm_compute; reflexivity).
  assert (Hnn : int_of_bytes cut_cache = 3) by (vm_compute; reflexivity).
  assert (Hna : int_of_bytes (drop 4 cut_cache) = 3) by (vm_compute; reflexivity).
  apply (short_cache_then_text "one.txt" cut_cache_disk cut_cache one_edge_txt
           GrafoDisperso_new).
  - vm_compute. reflexivity.
  - rewrite Hnn, Hna. vm_compute. lia.
  - rewrite Hnn. unfold INT_MAX. lia.
  - rewrite Hna. lia.
  - vm_compute. reflexivity.
  - rewrite Hes. repeat constructor; simpl; lia.
  - rewrite Hes. repeat constructor; unfold INT_MAX; simpl; lia.
  - rewrite Hna, Hes. unfold INT_MAX. simpl. lia.
Defined.

(** ** The Python layer *)

(** The graph that a new object builds from a loadable text. *)
Lemma text_build (text : list ascii) :
  Forall (fun e => 0 <= fst e) (edge_stream text) ->
  Forall (fun e => fst e <= INT_MAX - 2 /\ snd e <= INT_MAX - 2) (edge_stream text) ->
  Z.of_nat (length (edge_stream text)) <= INT_MAX ->
  exists g,
    construir (open_stream text) GrafoDisperso_new = Ok g
    /\ row_ptr_ok g = true
    /\ num_nodos g = max_ident (edge_stream text) + 1
    /\ 0 <= max_ident (edge_stream text)
    /\ num_aristas g = Z.of_nat (length (edge_stream text))
    /\ (forall u, 0 <= u < num_nodos g ->
          out_degree g u = occ u (edge_stream text)
          /\ neighbours g u = targets u (edge_stream text))
    /\ Z.of_nat (length (col_indices g)) = num_aristas g
    /\ (Forall (fun e => 0 <= snd e) (edge_stream text) -> csr_ok g = true).
Proof.
  intros Hsrc Hroom Hlen.
  destruct (construir_correct text Hsrc Hroom Hlen) as (g & Hg & Hnn & Hna & Hrows).
  destruct (construir_rows _ _ _ Hg) as (_ & Hstep & _).
  destruct (construir_new _ _ Hg) as (Hrow & Hci & Hst).
  destruct Hst as (_ & _ & _ & _ & _ & _ & Hcl).
  exists g. split; [assumption|]. split; [assumption|]. split; [assumption|].
  split; [|split; [assumption|split; [|split; [assumption|]]]].
  - pose proof (max_ident_bound (edge_stream text) (INT_MAX - 2) 0
                  ltac:(unfold INT_MAX; lia) Hroom). unfold max_ident. lia.
  - intros u Hu. split; [|auto]. unfold out_degree. rewrite Hstep by assumption. lia.
  - intros Hpos. unfold csr_ok. rewrite Hrow, Hci; [reflexivity|].
    apply forallb_forall. intros e He. apply Z.leb_le.
    rewrite Forall_forall in Hpos. apply list_elem_of_In, Hpos in He. assumption.
Qed.

(** The critical node in terms of the pairs. *)
Lemma critical_node_occ (g : GrafoDisperso) (es : list (Z * Z)) :
  row_ptr_ok g = true -> 0 < num_nodos g ->
  (forall u, 0 <= u < num_nodos g -> out_degree g u = occ u es) ->
  (forall e, e ∈ es -> 0 <= fst e < num_nodos g) ->
  exists u, obtenerNodoCritico g = Ok (u, g)
    /\ 0 <= u < num_nodos g
    /\ (forall w, occ w es <= occ u es)
    /\ (forall w, 0 <= w < u -> occ w es < occ u es).
Proof.
  intros Hrow Hn Hdeg Hsrc.
  destruct (critical_node_run g Hrow Hn) as (u & Hu & Hur & Hmax & Hlow).
  exists u. split; [assumption|]. split; [assumption|]. split.
  - intros w. destruct (decide (0 <= w < num_nodos g)) as [Hw|Hw].
    + rewrite <- !Hdeg by assumption. auto.
    + assert (H0 : occ w es = 0).
      { apply occ_absent, Forall_forall. intros e He Hfe.
        specialize (Hsrc e He). lia. }
      rewrite H0. apply occ_nonneg.
  - intros w Hw. rewrite <- !Hdeg by lia. auto.
Qed.

(** Property X22.
    [load_data] then [get_stats] on a new [PyGraph]: the dictionary holds
    the number of identifiers from 0 to the largest one, the number of
    pairs, and the lowest identifier that begins the most pairs. *)
Theorem py_stats_after_load (filename : list N) (name : list ascii) (fs : disk)
    (text : list ascii) :
  encode_utf8 filename = Some name ->
  files fs !! (string_of_list_ascii name ++ ".bin")%string = None ->
  files fs !! string_of_list_ascii name = Some text ->
  Forall (fun e => 0 <= fst e) (edge_stream text) ->
  Forall (fun e => fst e <= INT_MAX - 2 /\ snd e <= INT_MAX - 2) (edge_stream text) ->
  Z.of_nat (length (edge_stream text)) <= INT_MAX ->
  exists fs' self u,
    load_data filename fs PyGraph_cinit = Ok (Returns tt, fs', self)
    /\ get_stats self
       = Ok (<["nodos"%string := max_ident (edge_stream text) + 1]>
               (<["aristas"%string := Z.of_nat (length (edge_stream text))]>
                  {["critico"%string := u]}), self)
    /\ 0 <= u <= max_ident (edge_stream text)
    /\ (forall w, occ w (edge_stream text) <= occ u (edge_stream text))
    /\ (forall w, 0 <= w < u -> occ w (edge_stream text) < occ u (edge_stream text)).
Proof.
  intros Henc Hc Ht Hsrc Hroom Hlen.
  destruct (text_build text Hsrc Hroom Hlen)
    as (g & Hg & Hrow & Hnn & Hm0 & Hna & Hadj & _ & _).
  destruct (critical_node_occ g (edge_stream text) Hrow ltac:(lia)
              ltac:(intros u Hu; apply Hadj; assumption))
    as (u & Hu & Hur & Hmax & Hlow).
  { intros e He. rewrite Forall_forall in Hsrc. specialize (Hsrc e He).
    pose proof (max_ident_ge _ _ He). lia. }
  unfold load_data. rewrite Henc. change (c_graph PyGraph_cinit) with GrafoDisperso_new.
  rewrite (cargarDatos_text _ _ _ _ Hc Ht), Hg. cbn [bind].
  eexists _, _, u. split; [reflexivity|].
  unfold get_stats, getNumNodos, getNumAristas. cbn [bind c_graph].
  rewrite Hu. cbn [bind]. rewrite Hnn, Hna.
  split; [destruct g; reflexivity|]. split; [lia|]. auto.
Qed.

Lemma py_stats_after_load_witness :
  exists fs' self u,
    load_data tri_name tri_disk PyGraph_cinit = Ok (Returns tt, fs', self)
    /\ get_stats self
       = Ok (<["nodos"%string := max_ident (edge_stream tri_txt) + 1]>
               (<["aristas"%string := Z.of_nat (length (edge_stream tri_txt))]>
                  {["critico"%string := u]}), self)
    /\ 0 <= u <= max_ident (edge_stream tri_txt)
    /\ (forall w, occ w (edge_stream tri_txt) <= occ u (edge_stream tri_txt))
    /\ (forall w, 0 <= w < u -> occ w (edge_stream tri_txt) < occ u (edge_stream tri_txt)).
Proof.
  assert (Hes : edge_stream tri_txt = tri_edges) by (vm_compute; reflexivity).
  apply (py_stats_after_load tri_name (list_ascii_of_string "tri.txt") tri_disk tri_txt).
  - vm_compute. reflexivity.
  - vm_compute. reflexivity.
  - vm_compute. reflexivity.
  - rewrite Hes. repeat constructor; simpl; lia.
  - rewrite Hes. repeat constructor; unfold INT_MAX; simpl; lia.
  - rewrite Hes. unfold INT_MAX. simpl. lia.
Defined.

(** Property X23.
    [run_bfs] on a graph that satisfies the CSR invariants, case by case:
    an argument that is no C [int] raises [OverflowError] before the
    engine is called; a negative start vertex is undefined behaviour;
    a start vertex from [num_nodos] on gives the empty list; a start vertex
    in range gives the edges whose source is within [depth] of it. *)
Theorem run_bfs_cases (start_node depth : Z) (self : PyGraph) :
  csr_ok (c_graph self) = true ->
  (is_int start_node = false \/ is_int depth = false ->
     run_bfs start_node depth self = Ok (Raises OverflowError, self))
  /\ (is_int start_node = true -> is_int depth = true -> start_node < 0 ->
      run_bfs start_node depth self = Undefined)
  /\ (is_int start_node = true -> is_int depth = true ->
      num_nodos (c_graph self) <= start_node ->
      run_bfs start_node depth self = Ok (Returns [], self))
  /\ (is_int start_node = true -> is_int depth = true ->
      0 <= start_node < num_nodos (c_graph self) ->
      exists r, run_bfs start_node depth self = Ok (Returns r, self)
        /\ forall u v,
             (u, v) ∈ r <->
             (exists k, Z.of_nat k < depth /\ walk (c_graph self) start_node k u)
             /\ 0 <= u < num_nodos (c_graph self) /\ v ∈ neighbours (c_graph self) u).
Proof.
  intros Hok. destruct self as [g]. cbn [c_graph] in *.
  pose proof (num_nodos_int g (csr_row_ptr_ok g Hok)) as Hn.
  unfold run_bfs, as_int. cbn [c_graph].
  split; [|split; [|split]].
  - intros [H|H]; rewrite H; [reflexivity|]. destruct (is_int start_node); reflexivity.
  - intros Hs Hd Hneg. rewrite Hs, Hd. unfold bfs.
    destruct (Z.geb_spec start_node (num_nodos g)); [lia|].
    unfold vec_new. destruct (Z.ltb_spec (num_nodos g) 0); [lia|]. cbn [bind].
    rewrite vec_store_neg by assumption. reflexivity.
  - intros Hs Hd Hge. rewrite Hs, Hd, bfs_start_beyond by assumption. reflexivity.
  - intros Hs Hd Hr. rewrite Hs, Hd.
    destruct (bfs_reach_pairs g start_node depth Hok Hr Hd) as (r & Hb & Hiff).
    rewrite Hb. cbn [bind]. exists r. split; [reflexivity | assumption].
Qed.

Lemma run_bfs_cases_witness :
  (is_int 0 = false \/ is_int 2 = false ->
     run_bfs 0 2 tri_py = Ok (Raises OverflowError, tri_py))
  /\ (is_int 0 = true -> is_int 2 = true -> 0 < 0 ->
      run_bfs 0 2 tri_py = Undefined)
  /\ (is_int 0 = true -> is_int 2 = true ->
      num_nodos (c_graph tri_py) <= 0 ->
      run_bfs 0 2 tri_py = Ok (Returns [], tri_py))
  /\ (is_int 0 = true -> is_int 2 = true ->
      0 <= 0 < num_nodos (c_graph tri_py) ->
      exists r, run_bfs 0 2 tri_py = Ok (Returns r, tri_py)
        /\ forall u v,
             (u, v) ∈ r <->
             (exists k, Z.of_nat k < 2 /\ walk (c_graph tri_py) 0 k u)
             /\ 0 <= u < num_nodos (c_graph tri_py) /\ v ∈ neighbours (c_graph tri_py) u).
Proof.
  apply (run_bfs_cases 0 2 tri_py). vm_compute. reflexivity.
Defined.

(** Property X24.
    A [PyGraph] that has loaded nothing: the statistics are 0, 0 and -1,
    and [run_bfs] returns the empty list for every start vertex that is
    not negative. *)
Theorem py_new_graph_queries (start_node depth : Z) :
  get_stats PyGraph_cinit
  = Ok (<["nodos"%string := 0]> (<["aristas"%string := 0]> {["critico"%string := -1]}),
        PyGraph_cinit)
  /\ (is_int start_node = true -> is_int depth = true -> 0 <= start_node ->
      run_bfs start_node depth PyGraph_cinit = Ok (Returns [], PyGraph_cinit)).
Proof.
  split; [reflexivity|]. intros Hs Hd H0.
  unfold run_bfs, as_int. rewrite Hs, Hd.
  rewrite bfs_start_beyond by (simpl; lia). reflexivity.
Qed.
